(** * AEO Tracker backend: question intake and brand-mention aggregation

    A shallow embedding of the Express server of the repository.  The
    repository holds three iterations of the same server:

    - iteration 1: [src/index.js], lines 1-267;
    - iteration 2: [src/index.js], lines 268-432;
    - iteration 3: [src/unnamed/part_000].

    The embedding follows the two routes that carry the logic,
    [POST /api/preguntar] and [GET /api/dashboard-data], once per
    iteration, over a common model of the JavaScript values they use
    (strings, plain objects, the [RegExp] global match) and of the
    Supabase store they talk to. *)

From Stdlib Require Import List String Ascii Arith Bool Lia PeanoNat.
From Stdlib Require Import DecimalString.
Import ListNotations.

Local Open Scope string_scope.
Local Open Scope list_scope.
Local Open Scope nat_scope.

(* ================================================================== *)
(** * JavaScript strings *)
(* ================================================================== *)

(** A string is a sequence of code units.  The model keeps the code
    units U+0000..U+00FF (one [ascii] each); the algorithms below look
    at a string through [units] only.  On this range
    [String.prototype.toLowerCase] maps unit by unit; beyond it a string
    can change its length (U+0130 becomes U+0069 U+0307), so no
    statement is made about the length of a lower-cased string against
    the length of the string itself. *)
Definition units (s : string) : list ascii := list_ascii_of_string s.

(** [String.prototype.toLowerCase] on one code unit of that range:
    A-Z and the capital letters of Latin-1 (U+00C0..U+00DE but the
    multiplication sign U+00D7) move up by 32, everything else stays. *)
Definition lower_unit (c : ascii) : ascii :=
  let n := nat_of_ascii c in
  if ((65 <=? n) && (n <=? 90))
     || ((192 <=? n) && (n <=? 222) && negb (n =? 215))
  then ascii_of_nat (n + 32)
  else c.

Fixpoint toLowerCase (s : string) : string :=
  match s with
  | EmptyString => EmptyString
  | String c rest => String (lower_unit c) (toLowerCase rest)
  end.

(** [String(n)] for a non-negative integer. *)
Definition decimal (n : nat) : string := NilEmpty.string_of_uint (Nat.to_uint n).

(* ================================================================== *)
(** * The RegExp global match

    [(texto.match(new RegExp(brandName, 'g')) || []).length] is the one
    place where the server counts.  [new RegExp] reads its first
    argument as a pattern.  The model covers the patterns made of
    - pattern characters (any code unit that is not a syntax character),
    - the wildcard [.],
    - a backslash followed by a syntax character (identity escape),
    and two certain syntax errors (a pattern that starts with a
    quantifier, a pattern that ends in a lone backslash).  Any other use
    of a syntax character is reported as [Unmodelled]. *)
(* ================================================================== *)

Inductive atom : Type :=
| AChar (c : ascii)   (* matches exactly this code unit *)
| AAny.               (* [.]: any code unit but a line terminator *)

Inductive compiled : Type :=
| Matcher (atoms : list atom)
| SyntaxError
| Unmodelled.

Definition one_of (cs : string) (c : ascii) : bool :=
  existsb (Ascii.eqb c) (units cs).

(** SyntaxCharacter of the ECMAScript pattern grammar. *)
Definition syntax_character : ascii -> bool := one_of "^$\.*+?()[]{}|".

Definition quantifier_character : ascii -> bool := one_of "*+?".

(** LineTerminator, within the modelled range: LF and CR. *)
Definition line_terminator (c : ascii) : bool :=
  Ascii.eqb c "010"%char || Ascii.eqb c "013"%char.

Definition cons_atom (a : atom) (r : compiled) : compiled :=
  match r with
  | Matcher atoms => Matcher (a :: atoms)
  | SyntaxError => SyntaxError
  | Unmodelled => Unmodelled
  end.

Fixpoint parse_terms (p : list ascii) : compiled :=
  match p with
  | [] => Matcher []
  | c :: rest =>
      if Ascii.eqb c "\"%char then
        match rest with
        | [] => SyntaxError
        | e :: rest' =>
            if syntax_character e
            then cons_atom (AChar e) (parse_terms rest')
            else Unmodelled
        end
      else if Ascii.eqb c "."%char then cons_atom AAny (parse_terms rest)
      else if syntax_character c then Unmodelled
      else cons_atom (AChar c) (parse_terms rest)
  end.

(** [new RegExp(pattern, 'g')]. *)
Definition RegExp (pattern : list ascii) : compiled :=
  match pattern with
  | c :: _ => if quantifier_character c then SyntaxError else parse_terms pattern
  | [] => parse_terms pattern
  end.

Definition atom_matches (a : atom) (c : ascii) : bool :=
  match a with
  | AChar x => Ascii.eqb x c
  | AAny => negb (line_terminator c)
  end.

(** The matcher at one position: the number of code units consumed. *)
Fixpoint match_here (atoms : list atom) (input : list ascii) : option nat :=
  match atoms with
  | [] => Some 0
  | a :: atoms' =>
      match input with
      | [] => None
      | c :: input' =>
          if atom_matches a c
          then option_map S (match_here atoms' input')
          else None
      end
  end.

(** The leftmost match in [input], which starts at position [index] of
    the subject: start and end index of the match. *)
Fixpoint find_match (atoms : list atom) (input : list ascii) (index : nat)
  : option (nat * nat) :=
  match match_here atoms input with
  | Some len => Some (index, index + len)
  | None =>
      match input with
      | [] => None
      | _ :: input' => find_match atoms input' (S index)
      end
  end.

(** RegExpBuiltinExec for a global expression: the search starts at
    [lastIndex] and fails when [lastIndex] is past the end. *)
Definition exec (atoms : list atom) (subject : list ascii) (lastIndex : nat)
  : option (nat * nat) :=
  if List.length subject <? lastIndex then None
  else find_match atoms (skipn lastIndex subject) lastIndex.

(** The loop of [RegExp.prototype[Symbol.match]] with the [g] flag: each
    match moves [lastIndex] to its end, an empty match moves it one
    further; [n] counts the matches collected so far. *)
Fixpoint match_loop (fuel : nat) (atoms : list atom) (subject : list ascii)
         (lastIndex n : nat) : nat :=
  match fuel with
  | 0 => n
  | S fuel' =>
      match exec atoms subject lastIndex with
      | None => n
      | Some (i, e) =>
          match_loop fuel' atoms subject (if e =? i then e + 1 else e) (S n)
      end
  end.

(** [lastIndex] grows at every turn and the loop stops once it is past
    the end of the subject: [length subject + 2] turns are enough
    (lemma [match_loop_fuel]). *)
Definition match_all (atoms : list atom) (subject : list ascii) : nat :=
  match_loop (List.length subject + 2) atoms subject 0 0.

Inductive outcome : Type :=
| Count (n : nat)
| Throws        (* [new RegExp] throws a SyntaxError *)
| Beyond.       (* the pattern is outside the modelled fragment *)

(** [(text.match(new RegExp(pattern, 'g')) || []).length] *)
Definition match_count (pattern text : string) : outcome :=
  match RegExp (units pattern) with
  | Matcher atoms => Count (match_all atoms (units text))
  | SyntaxError => Throws
  | Unmodelled => Beyond
  end.

(** The count of the dashboard route for one brand and one answer:
    both sides are lower-cased first. *)
Definition mentions_of (nombre_marca texto_respuesta : string) : outcome :=
  match_count (toLowerCase nombre_marca) (toLowerCase texto_respuesta).

(** ** The literal reading of the specification

    "count all non-overlapping substring occurrences ... an occurrence
    consumes its matched span before searching continues".  [skip] is
    the number of code units still covered by the last occurrence. *)
Fixpoint prefix_of (needle hay : list ascii) : bool :=
  match needle with
  | [] => true
  | x :: needle' =>
      match hay with
      | [] => false
      | y :: hay' => Ascii.eqb x y && prefix_of needle' hay'
      end
  end.

Fixpoint occurrences_from (needle : list ascii) (skip : nat) (hay : list ascii)
  : nat :=
  match hay with
  | [] => 0
  | _ :: rest =>
      match skip with
      | S k => occurrences_from needle k rest
      | 0 =>
          if prefix_of needle hay
          then S (occurrences_from needle (List.length needle - 1) rest)
          else occurrences_from needle 0 rest
      end
  end.

Definition literal_occurrences (needle hay : string) : nat :=
  occurrences_from (units needle) 0 (units hay).

(* ================================================================== *)
(** * Plain JavaScript objects

    The routes build their counters and their result map as object
    literals and update them with [o[k] = v] and [o[k] += m].  An object
    is modelled by its own properties in creation order.  What the
    prototype adds is modelled where the code can see it: a read of a
    missing key finds the members of [Object.prototype], and a write to
    [__proto__] runs the inherited setter and creates no property. *)
(* ================================================================== *)

Definition obj (V : Type) : Type := list (string * V).

Fixpoint own_get {V : Type} (k : string) (o : obj V) : option V :=
  match o with
  | [] => None
  | (k', v) :: rest => if String.eqb k k' then Some v else own_get k rest
  end.

(** Overwrite the own property [k] in place, or create it at the end. *)
Fixpoint put {V : Type} (k : string) (v : V) (o : obj V) : obj V :=
  match o with
  | [] => [(k, v)]
  | (k', v') :: rest =>
      if String.eqb k k' then (k', v) :: rest else (k', v') :: put k v rest
  end.

(** [o[k] = v] *)
Definition obj_set {V : Type} (k : string) (v : V) (o : obj V) : obj V :=
  if String.eqb k "__proto__" then o else put k v o.

(** The names every plain object inherits from [Object.prototype]. *)
Definition object_prototype_members : list string :=
  [ "constructor"; "__defineGetter__"; "__defineSetter__"; "hasOwnProperty";
    "__lookupGetter__"; "__lookupSetter__"; "isPrototypeOf";
    "propertyIsEnumerable"; "toString"; "valueOf"; "__proto__";
    "toLocaleString" ].

Definition inherited (k : string) : bool :=
  existsb (String.eqb k) object_prototype_members.

(** The values a counter can hold. *)
Inductive jsval : Type :=
| JNum (n : nat)      (* a Number that is a non-negative integer (a count,
                         far below 2^53) *)
| JNaN
| JText (s : string). (* a String *)

(** The result of the read [o[k]]. *)
Inductive looked : Type :=
| Found (v : jsval)        (* an own property *)
| Inherited (k : string)   (* the member [k] of [Object.prototype] *)
| Undefined.

Definition js_get (k : string) (o : obj jsval) : looked :=
  match own_get k o with
  | Some v => Found v
  | None => if inherited k then Inherited k else Undefined
  end.

(** [o[k] !== undefined] *)
Definition is_defined (x : looked) : bool :=
  match x with
  | Undefined => false
  | _ => true
  end.

(** [String(Object.prototype[k])], as V8 prints it. *)
Definition member_text (k : string) : string :=
  if String.eqb k "__proto__" then "[object Object]"
  else if String.eqb k "constructor" then "function Object() { [native code] }"
  else ("function " ++ k ++ "() { [native code] }")%string.

(** [x + m] for a Number [m]: addition on numbers, NaN from
    [undefined] and from NaN, concatenation with anything else. *)
Definition js_plus (x : looked) (m : nat) : jsval :=
  match x with
  | Found (JNum n) => JNum (n + m)
  | Found JNaN => JNaN
  | Found (JText s) => JText (s ++ decimal m)%string
  | Inherited k => JText (member_text k ++ decimal m)%string
  | Undefined => JNaN
  end.

(** [o[k] += m] *)
Definition plus_assign (k : string) (m : nat) (o : obj jsval) : obj jsval :=
  obj_set k (js_plus (js_get k o) m) o.

(** ** Enumeration order

    [Object.keys] and [Object.values] list the array indices first, in
    ascending order, and then the other keys in creation order. *)
Definition digit_value (c : ascii) : option nat :=
  let n := nat_of_ascii c in
  if (48 <=? n) && (n <=? 57) then Some (n - 48) else None.

(** A canonical numeric string below 2^32 - 1, kept as its digits: the
    number of digits and the digits themselves order the indices. *)
Definition array_index (k : string) : bool :=
  match units k with
  | [] => false
  | c :: rest =>
      forallb (fun d => match digit_value d with Some _ => true | None => false end)
              (c :: rest)
      && (negb (Ascii.eqb c "0"%char) || match rest with [] => true | _ => false end)
      && ((List.length (c :: rest) <? 10)
          || ((List.length (c :: rest) =? 10) && (k <=? "4294967294")%string))
  end.

(** Numeric order on canonical numeric strings. *)
Definition index_leb (a b : string) : bool :=
  (String.length a <? String.length b)
  || ((String.length a =? String.length b) && (a <=? b)%string).

Fixpoint insert_index {V : Type} (e : string * V) (sorted : obj V) : obj V :=
  match sorted with
  | [] => [e]
  | e' :: rest =>
      if index_leb (fst e) (fst e') then e :: sorted
      else e' :: insert_index e rest
  end.

Definition own_entries {V : Type} (o : obj V) : obj V :=
  fold_right insert_index [] (filter (fun e => array_index (fst e)) o)
  ++ filter (fun e => negb (array_index (fst e))) o.

Definition Object_keys {V : Type} (o : obj V) : list string :=
  map fst (own_entries o).

Definition Object_values {V : Type} (o : obj V) : list V :=
  map snd (own_entries o).

(* ================================================================== *)
(** * Records of the store and the shape of the responses *)
(* ================================================================== *)

(** A row of table [preguntas]. *)
Record Pregunta : Type := {
  id : nat;
  texto_pregunta : string
}.

(** A row of table [respuestas]. *)
Record Respuesta : Type := {
  id_pregunta : nat;
  modelo_llm : string;
  texto_respuesta : string
}.

(** A row of table [marcas]. *)
Record Marca : Type := {
  nombre_marca : string
}.

Record PieChartData : Type := {
  labels : list string;
  data : list jsval
}.

(** The body of a successful [GET /api/dashboard-data]. *)
Record Dashboard : Type := {
  brandMentions : obj jsval;
  modelBrandMentions : obj (obj jsval);
  pieChartData : PieChartData;
  totalResponses : nat;
  totalBrands : nat
}.

Inductive body : Type :=
| ErrorBody (error : string)
| PreguntarBody (pregunta_id : nat) (pregunta : option string)
                (respuestas : obj string)
| DashboardBody (d : Dashboard).

(** [res.status(s).json(b)]; [res.json(b)] answers with status 200. *)
Record Response : Type := {
  status : nat;
  json : body
}.

(** The providers, as every iteration lists them. *)
Definition models : list string := ["Gemini"; "ChatGPT"; "Claude"].

(* ================================================================== *)
(** * Mention counting (the body of [GET /api/dashboard-data]) *)
(* ================================================================== *)

(** The two counters of the route: [brandMentions] and
    [modelBrandMentions]. *)
Definition counters : Type := (obj jsval * obj (obj jsval))%type.

(** The object literal [{ Gemini: 0, ChatGPT: 0, Claude: 0 }]. *)
Definition zero_breakdown : obj jsval :=
  [("Gemini", JNum 0); ("ChatGPT", JNum 0); ("Claude", JNum 0)].

(** "Initialize counters": the first [marcas.forEach]. *)
Definition init_brand (st : counters) (marca : Marca) : counters :=
  (obj_set (nombre_marca marca) (JNum 0) (fst st),
   obj_set (nombre_marca marca) zero_breakdown (snd st)).

Definition init_counters (marcas : list Marca) : counters :=
  fold_left init_brand marcas ([], []).

Section Counting.

(** The RegExp engine: [regexp_count pattern text] is
    [(text.match(new RegExp(pattern, 'g')) || []).length], and [None]
    when [new RegExp] throws.  The counting code is read over any
    engine; [match_count] above is one, on the fragment it models. *)
Variable regexp_count : string -> string -> option nat.

(** Iteration 1 tests [modelBrandMentions[..][modelo] !== undefined]
    before it adds to the breakdown; iterations 2 and 3 add without a
    test. *)
Variable guarded : bool.

(** The body of the inner [marcas.forEach], for one answer (its
    lower-cased text [texto] and its [modelo]) and one brand.  [None]
    is a thrown exception: the SyntaxError of [new RegExp], or the
    TypeError of reading [modelo] from a breakdown that does not
    exist.  Under the name [__proto__] the breakdown was stored as the
    prototype of [modelBrandMentions] and the update lands there,
    outside every own property. *)
Definition count_brand (texto modelo : string) (st : counters) (marca : Marca)
  : option counters :=
  let brandName := toLowerCase (nombre_marca marca) in
  match regexp_count brandName texto with
  | None => None
  | Some mentions =>
      if 0 <? mentions then
        let bm := plus_assign (nombre_marca marca) mentions (fst st) in
        match own_get (nombre_marca marca) (snd st) with
        | Some breakdown =>
            let added := obj_set (nombre_marca marca)
                                 (plus_assign modelo mentions breakdown) (snd st) in
            if guarded then
              if is_defined (js_get modelo breakdown)
              then Some (bm, added)
              else Some (bm, snd st)
            else Some (bm, added)
        | None =>
            if String.eqb (nombre_marca marca) "__proto__"
            then Some (bm, snd st)
            else None
        end
      else Some st
  end.

(** A [forEach] whose body may throw. *)
Fixpoint for_each {A St : Type} (f : St -> A -> option St) (l : list A) (st : St)
  : option St :=
  match l with
  | [] => Some st
  | x :: rest =>
      match f st x with
      | Some st' => for_each f rest st'
      | None => None
      end
  end.

(** The body of [respuestas.forEach]. *)
Definition count_answer (marcas : list Marca) (st : counters) (r : Respuesta)
  : option counters :=
  let texto := toLowerCase (texto_respuesta r) in
  let modelo := modelo_llm r in
  for_each (count_brand texto modelo) marcas st.

(** "Count mentions". *)
Definition count_mentions (marcas : list Marca) (respuestas : list Respuesta)
  : option counters :=
  for_each (count_answer marcas) respuestas (init_counters marcas).

(** Counters and response body of the route, from the two tables. *)
Definition aggregate (marcas : list Marca) (respuestas : list Respuesta)
  : option Dashboard :=
  match count_mentions marcas respuestas with
  | Some (bm, mbm) =>
      Some {| brandMentions := bm;
              modelBrandMentions := mbm;
              pieChartData := {| labels := Object_keys bm;
                                 data := Object_values bm |};
              totalResponses := List.length respuestas;
              totalBrands := List.length marcas |}
  | None => None
  end.

End Counting.

(** The engine of [match_count] as an instance of the parameter.  A
    pattern outside the modelled fragment is given no count, like one
    that [new RegExp] rejects: there [modelled_count] is not the engine
    of the code, which may well count (for [e*trade], say).  It stands
    for the engine on patterns of the fragment only; the general
    statements are over any engine. *)
Definition modelled_count (pattern text : string) : option nat :=
  match match_count pattern text with
  | Count n => Some n
  | Throws => None
  | Beyond => None
  end.

Definition marca (n : string) : Marca := {| nombre_marca := n |}.

Definition respuesta (q : nat) (modelo texto : string) : Respuesta :=
  {| id_pregunta := q; modelo_llm := modelo; texto_respuesta := texto |}.

(* ================================================================== *)
(** * The store and the effects of a request

    The Supabase client answers every call with a pair [{ data, error }]
    and does not throw; the routes read [error] where they check at all.
    A world holds the three tables, the identifier the store gives to
    the next question, and the outcomes of the coming store calls:
    [true] at the head of [faults] makes the next call answer with an
    error, and a call finds success when the list is used up. *)
(* ================================================================== *)

Record Tables : Type := {
  preguntas : list Pregunta;
  respuestas : list Respuesta;
  marcas : list Marca
}.

Record World : Type := {
  tables : Tables;
  next_id : nat;
  faults : list bool
}.

(** What a request does to the outside, in order. *)
Inductive event : Type :=
| InsertPregunta (texto : string) (ok : bool)
| InsertRespuesta (r : Respuesta) (ok : bool)
| SelectMarcas (ok : bool)
| SelectRespuestas (ok : bool)
| CallLLM (model question : string) (ok : bool).

(** A computation of the server: from a world to a result, the world
    it leaves and the events it caused. *)
Definition io (A : Type) : Type := World -> A * World * list event.

Definition ret {A : Type} (a : A) : io A := fun w => (a, w, []).

Definition bind {A B : Type} (c : io A) (k : A -> io B) : io B :=
  fun w =>
    let '(a, w1, t1) := c w in
    let '(b, w2, t2) := k a w1 in
    (b, w2, t1 ++ t2).

Notation "x <- c ;; k" := (bind c (fun x => k))
  (at level 61, c at next level, right associativity).

(** The outcome of the next store call. *)
Definition next_fault (w : World) : bool * World :=
  match faults w with
  | [] => (false, w)
  | f :: fs => (f, {| tables := tables w; next_id := next_id w; faults := fs |})
  end.

(** [supabase.from('preguntas').insert([{ texto_pregunta }]).select().single()]:
    the created row, or [None] for [{ data: null, error }]. *)
Definition insert_pregunta (texto : string) : io (option Pregunta) :=
  fun w =>
    let (failed, w1) := next_fault w in
    if failed then (None, w1, [InsertPregunta texto false])
    else
      let row := {| id := next_id w1; texto_pregunta := texto |} in
      (Some row,
       {| tables := {| preguntas := preguntas (tables w1) ++ [row];
                       respuestas := respuestas (tables w1);
                       marcas := marcas (tables w1) |};
          next_id := S (next_id w1);
          faults := faults w1 |},
       [InsertPregunta texto true]).

(** [supabase.from('respuestas').insert([r])]: whether the row was
    written. *)
Definition insert_respuesta (r : Respuesta) : io bool :=
  fun w =>
    let (failed, w1) := next_fault w in
    if failed then (false, w1, [InsertRespuesta r false])
    else
      (true,
       {| tables := {| preguntas := preguntas (tables w1);
                       respuestas := respuestas (tables w1) ++ [r];
                       marcas := marcas (tables w1) |};
          next_id := next_id w1;
          faults := faults w1 |},
       [InsertRespuesta r true]).

(** [supabase.from('marcas').select('*')]: [None] for [data: null]. *)
Definition select_marcas : io (option (list Marca)) :=
  fun w =>
    let (failed, w1) := next_fault w in
    if failed then (None, w1, [SelectMarcas false])
    else (Some (marcas (tables w1)), w1, [SelectMarcas true]).

(** [supabase.from('respuestas').select('*')] *)
Definition select_respuestas : io (option (list Respuesta)) :=
  fun w =>
    let (failed, w1) := next_fault w in
    if failed then (None, w1, [SelectRespuestas false])
    else (Some (respuestas (tables w1)), w1, [SelectRespuestas true]).

Definition is_some {A : Type} (x : option A) : bool :=
  match x with
  | Some _ => true
  | None => false
  end.

(** The double quote, for the template literals of the mock answers. *)
Definition dq : string := String "034"%char EmptyString.

(** [mockLLMResponses] of iteration 1.  The table has the three names of
    [models]; no other name is passed to it. *)
Definition mockLLMResponses_v1 (model : string) : option (string -> string) :=
  if String.eqb model "Gemini" then
    Some (fun question => ("Gemini response to: " ++ dq ++ question ++ dq ++
      ". This is a sample response that might mention Nike shoes and Apple products.")%string)
  else if String.eqb model "ChatGPT" then
    Some (fun question => ("ChatGPT response to: " ++ dq ++ question ++ dq ++
      ". Here's a detailed answer that could reference Adidas clothing and Samsung devices.")%string)
  else if String.eqb model "Claude" then
    Some (fun question => ("Claude response to: " ++ dq ++ question ++ dq ++
      ". This comprehensive answer may include mentions of Coca-Cola products and various brands.")%string)
  else None.

(** [mockLLMResponses] of iterations 2 and 3. *)
Definition mockLLMResponses_v2 (model : string) : option (string -> string) :=
  if existsb (String.eqb model) models then
    Some (fun question => (model ++ " response to: " ++ dq ++ question ++ dq)%string)
  else None.

(** [callLLMAPI] over a table of mock answers, the delay left out:
    [None] is a rejected promise. *)
Definition callLLMAPI_mock (table : string -> option (string -> string))
           (model question : string) : option string :=
  match table model with
  | Some answer => Some (answer question)
  | None => None
  end.

(** [!texto_pregunta], for a field that is absent ([None]) or a string. *)
Definition falsy (texto_pregunta : option string) : bool :=
  match texto_pregunta with
  | None => true
  | Some EmptyString => true
  | Some _ => false
  end.

(** The string behind a field that passed the test. *)
Definition text_of (texto_pregunta : option string) : string :=
  match texto_pregunta with
  | Some s => s
  | None => EmptyString
  end.

Definition res (s : nat) (b : body) : Response := {| status := s; json := b |}.

Section Server.

(** The gateway to the providers.  The repository ships mock answers
    that never fail; the routes are written against a call that may
    reject, and are read over any such call. *)
Variable callLLMAPI : string -> string -> option string.

Variable regexp_count : string -> string -> option nat.

Definition call_llm (model question : string) : io (option string) :=
  fun w =>
    let r := callLLMAPI model question in
    (r, w, [CallLLM model question (is_some r)]).

(** The [for (const model of models)] loop of [POST /api/preguntar].
    [placeholder] is the text that the [catch] stores. *)
Fixpoint ask_models (placeholder : string -> string) (pregunta_id : nat)
         (texto : string) (remaining : list string) (responses : obj string)
  : io (obj string) :=
  match remaining with
  | [] => ret responses
  | model :: rest =>
      r <- call_llm model texto ;;
      match r with
      | Some generated =>
          let responses := obj_set model generated responses in
          _ <- insert_respuesta {| id_pregunta := pregunta_id;
                                   modelo_llm := model;
                                   texto_respuesta := generated |} ;;
          ask_models placeholder pregunta_id texto rest responses
      | None =>
          ask_models placeholder pregunta_id texto rest
                     (obj_set model (placeholder model) responses)
      end
  end.

(** ** Iteration 1 ([src/index.js], lines 39-166) *)

Definition placeholder_v1 (model : string) : string :=
  ("Error getting response from " ++ model)%string.

Definition post_preguntar_v1 (texto_pregunta : option string) : io Response :=
  if falsy texto_pregunta then
    ret (res 400 (ErrorBody "texto_pregunta is required"))
  else
    let texto := text_of texto_pregunta in
    saved <- insert_pregunta texto ;;
    match saved with
    | None => ret (res 500 (ErrorBody "Failed to save question"))
    | Some pregunta =>
        responses <- ask_models placeholder_v1 (id pregunta) texto models [] ;;
        ret (res 200 (PreguntarBody (id pregunta) (Some texto) responses))
    end.

Definition get_dashboard_data_v1 : io Response :=
  marcas <- select_marcas ;;
  match marcas with
  | None => ret (res 500 (ErrorBody "Failed to fetch brands"))
  | Some marcas =>
      respuestas <- select_respuestas ;;
      match respuestas with
      | None => ret (res 500 (ErrorBody "Failed to fetch responses"))
      | Some respuestas =>
          match aggregate regexp_count true marcas respuestas with
          | Some d => ret (res 200 (DashboardBody d))
          | None => ret (res 500 (ErrorBody "Internal server error"))
          end
      end
  end.

(** ** Iterations 2 and 3 ([src/index.js], lines 306-383, and
    [src/unnamed/part_000], lines 31-107)

    The two differ in the message of the dashboard's [catch] only. *)

Definition placeholder_v2 (model : string) : string :=
  ("Error en modelo " ++ model)%string.

(** The response is [{ pregunta_id, respuestas }]: it has no field
    [pregunta]. *)
Definition post_preguntar_v2 (texto_pregunta : option string) : io Response :=
  if falsy texto_pregunta then
    ret (res 400 (ErrorBody "texto_pregunta is required"))
  else
    let texto := text_of texto_pregunta in
    saved <- insert_pregunta texto ;;
    match saved with
    | None => ret (res 500 (ErrorBody "Error al guardar la pregunta"))
    | Some pregunta =>
        respuestas <- ask_models placeholder_v2 (id pregunta) texto models [] ;;
        ret (res 200 (PreguntarBody (id pregunta) None respuestas))
    end.

Definition post_preguntar_v3 : option string -> io Response := post_preguntar_v2.

(** Neither [error] is read: a failed select leaves [null] in
    [marcas] or [respuestas], whose [forEach] throws into the
    [catch]. *)
Definition get_dashboard_data_unchecked (message : string) : io Response :=
  marcas <- select_marcas ;;
  respuestas <- select_respuestas ;;
  match marcas, respuestas with
  | Some marcas, Some respuestas =>
      match aggregate regexp_count false marcas respuestas with
      | Some d => ret (res 200 (DashboardBody d))
      | None => ret (res 500 (ErrorBody message))
      end
  | _, _ => ret (res 500 (ErrorBody message))
  end.

Definition get_dashboard_data_v2 : io Response :=
  get_dashboard_data_unchecked "Error interno al procesar dashboard".

Definition get_dashboard_data_v3 : io Response :=
  get_dashboard_data_unchecked "Error en dashboard-data".

End Server.

Definition world (t : Tables) (n : nat) (f : list bool) : World :=
  {| tables := t; next_id := n; faults := f |}.

Definition empty_tables : Tables :=
  {| preguntas := []; respuestas := []; marcas := [] |}.

(** A gateway on which the listed providers fail and the others answer
    as the mock of iterations 2 and 3 does. *)
Definition failing (down : list string) (model question : string) : option string :=
  if existsb (String.eqb model) down then None
  else callLLMAPI_mock mockLLMResponses_v2 model question.


(* ================================================================== *)
(** * Notions used to state the properties *)
(* ================================================================== *)

(** No code unit of [p] is a syntax character of the pattern grammar. *)
Definition syntax_free (p : string) : bool :=
  forallb (fun c => negb (syntax_character c)) (units p).

(** The sum of the entries of a breakdown under the given provider
    names, when each of them holds a number. *)
Fixpoint sum_entries (keys : list string) (o : obj jsval) : option nat :=
  match keys with
  | [] => Some 0
  | k :: ks =>
      match own_get k o, sum_entries ks o with
      | Some (JNum n), Some s => Some (n + s)
      | _, _ => None
      end
  end.

Definition breakdown_sum (breakdown : obj jsval) : option nat :=
  sum_entries models breakdown.

(** Every breakdown sums, over the providers, to a number [s] and the
    total of its brand is a number [t], with [R s t]. *)
Definition balanced (R : nat -> nat -> Prop) (st : counters) : Prop :=
  forall name breakdown,
    own_get name (snd st) = Some breakdown ->
    exists s t,
      breakdown_sum breakdown = Some s /\
      own_get name (fst st) = Some (JNum t) /\
      R s t.

(** Every brand of [marcas] has its breakdown, or is named [__proto__]. *)
Definition covered (marcas : list Marca) (st : counters) : Prop :=
  forall m, In m marcas ->
    nombre_marca m = "__proto__" \/
    exists breakdown, own_get (nombre_marca m) (snd st) = Some breakdown.

(** Every breakdown has the three provider keys and no other. *)
Definition three_keys (st : counters) : Prop :=
  forall name breakdown,
    own_get name (snd st) = Some breakdown -> map fst breakdown = models.

(** The answer comes from one of the configured providers. *)
Definition known (r : Respuesta) : Prop := In (modelo_llm r) models.

Definition is_known (r : Respuesta) : bool :=
  existsb (String.eqb (modelo_llm r)) models.

(** The counters right after "Initialize counters": every breakdown is
    the literal of zeros and every total is 0. *)
Definition fresh (st : counters) : Prop :=
  forall name breakdown,
    own_get name (snd st) = Some breakdown ->
    breakdown = zero_breakdown /\ own_get name (fst st) = Some (JNum 0).

Section IntakeNotions.

Variable callLLMAPI : string -> string -> option string.
Variable placeholder : string -> string.
Variable pregunta_id : nat.
Variable texto : string.

(** What the loop leaves in the result map under a provider: the
    generated text, or the placeholder when the call rejects. *)
Definition entry (model : string) : string :=
  match callLLMAPI model texto with
  | Some generated => generated
  | None => placeholder model
  end.

(** The rows the loop sends to the store, in order: one for each
    provider that answered. *)
Fixpoint generated_rows (remaining : list string) : list Respuesta :=
  match remaining with
  | [] => []
  | model :: rest =>
      match callLLMAPI model texto with
      | Some generated =>
          {| id_pregunta := pregunta_id;
             modelo_llm := model;
             texto_respuesta := generated |} :: generated_rows rest
      | None => generated_rows rest
      end
  end.

(** The providers whose call rejects. *)
Definition failed_providers : list string :=
  filter (fun model => negb (is_some (callLLMAPI model texto))) models.

End IntakeNotions.

(** The rows the store keeps when [fs] are the outcomes of the coming
    store calls ([true]: the call fails). *)
Fixpoint kept (rows : list Respuesta) (fs : list bool) : list Respuesta :=
  match rows with
  | [] => []
  | r :: rows' =>
      match fs with
      | true :: fs' => kept rows' fs'
      | false :: fs' => r :: kept rows' fs'
      | [] => r :: kept rows' []
      end
  end.

(** How many of the next [n] store calls fail. *)
Definition failed_among (n : nat) (fs : list bool) : nat :=
  List.length (filter (fun f : bool => f) (firstn n fs)).

Definition is_insert_respuesta (e : event) : bool :=
  match e with
  | InsertRespuesta _ _ => true
  | _ => false
  end.

Definition is_call (e : event) : bool :=
  match e with
  | CallLLM _ _ _ => true
  | _ => false
  end.

(** The inserts into [respuestas] that a request attempted. *)
Definition insert_attempts (tr : list event) : list event :=
  filter is_insert_respuesta tr.

(** The provider calls that a request made. *)
Definition provider_calls (tr : list event) : list event :=
  filter is_call tr.

(** The first two store calls to come succeed. *)
Definition reads_succeed (w : World) : Prop :=
  failed_among 2 (faults w) = 0.

(** What a request that reached the provider loop has done, when [k]
    providers failed: [run] is the response, the world left and the
    events; [echo] is the field [pregunta] of the response, [ph] the
    placeholder of the iteration.  The question was stored under
    [next_id w], and the outcomes of the Answer inserts are
    [tl (faults w)]. *)
Definition fan_out_outcome (cl : string -> string -> option string)
           (ph : string -> string) (echo : option string) (texto : string)
           (w : World) (k : nat) (run : Response * World * list event) : Prop :=
  let '(r, w', tr) := run in
  let n := List.length models in
  let rows := generated_rows cl (next_id w) texto models in
  let result := map (fun m => (m, entry cl ph texto m)) models in
    r = res 200 (PreguntarBody (next_id w) echo result) /\
    map fst result = models /\
    (forall m g, In m models -> cl m texto = Some g -> own_get m result = Some g) /\
    (forall m, In m models -> cl m texto = None -> own_get m result = Some (ph m)) /\
    List.length (filter (fun m => is_some (cl m texto)) models) = n - k /\
    List.length (insert_attempts tr) = n - k /\
    List.length rows = n - k /\
    (forall row, In row rows ->
       id_pregunta row = next_id w /\ In (modelo_llm row) models /\
       cl (modelo_llm row) texto = Some (texto_respuesta row)) /\
    respuestas (tables w') = respuestas (tables w) ++ kept rows (tl (faults w)) /\
    List.length (kept rows (tl (faults w))) + failed_among (n - k) (tl (faults w))
      = n - k /\
    (failed_among (n - k) (tl (faults w)) = 0 ->
     respuestas (tables w') = respuestas (tables w) ++ rows).

(** ** Sample data *)

(** Two brands and two stored answers, one of them from a provider that
    is not configured. *)
Definition sample_tables : Tables :=
  {| preguntas := [{| id := 1; texto_pregunta := "shoes?" |}];
     respuestas := [respuesta 1 "Gemini" "Nike and NIKE";
                    respuesta 1 "Llama" "nike, acme"];
     marcas := [marca "Nike"; marca "Acme"] |}.

(** The body of iteration 1 over [sample_tables]. *)
Definition sample_dashboard : Dashboard :=
  {| brandMentions := [("Nike", JNum 3); ("Acme", JNum 1)];
     modelBrandMentions :=
       [("Nike", [("Gemini", JNum 2); ("ChatGPT", JNum 0); ("Claude", JNum 0)]);
        ("Acme", zero_breakdown)];
     pieChartData := {| labels := ["Nike"; "Acme"]; data := [JNum 3; JNum 1] |};
     totalResponses := 2;
     totalBrands := 2 |}.

(** One brand and one stored answer, from a provider that is not
    configured. *)
Definition llama_tables : Tables :=
  {| preguntas := [{| id := 1; texto_pregunta := "shoes?" |}];
     respuestas := [respuesta 1 "Llama" "I like Nike"];
     marcas := [marca "Nike"] |}.

(** The answers of the mock of iterations 2 and 3 to "hola". *)
Definition hola_answers : obj string :=
  [("Gemini", ("Gemini response to: " ++ dq ++ "hola" ++ dq)%string);
   ("ChatGPT", ("ChatGPT response to: " ++ dq ++ "hola" ++ dq)%string);
   ("Claude", ("Claude response to: " ++ dq ++ "hola" ++ dq)%string)].

(** Split a conjunction into its parts, and nothing else. *)
Ltac splits := repeat match goal with |- _ /\ _ => split end.

From Stdlib Require Import Permutation.

(* ================================================================== *)
(** * Closed forms of the counters *)
(* ================================================================== *)

Section Totals.

Variable regexp_count : string -> string -> option nat.

(** The count of one brand row in one answer, as the route computes
    it. *)
Definition count_of (m : Marca) (r : Respuesta) : nat :=
  match regexp_count (toLowerCase (nombre_marca m))
                     (toLowerCase (texto_respuesta r)) with
  | Some n => n
  | None => 0
  end.

(** The counts in one answer of all the rows that carry the name. *)
Definition brand_count (marcas : list Marca) (name : string) (r : Respuesta)
  : nat :=
  list_sum (map (fun m => count_of m r)
                (filter (fun m => String.eqb (nombre_marca m) name) marcas)).

(** ... over all the answers, *)
Definition total_of (marcas : list Marca) (rs : list Respuesta) (name : string)
  : nat :=
  list_sum (map (brand_count marcas name) rs).

(** ... and over the answers of one provider. *)
Definition provider_total (marcas : list Marca) (rs : list Respuesta)
           (name provider : string) : nat :=
  total_of marcas (filter (fun r => String.eqb (modelo_llm r) provider) rs) name.

End Totals.

(** The body of iterations 2 and 3 over [sample_tables]. *)
Definition sample_dashboard_unguarded : Dashboard :=
  {| brandMentions := [("Nike", JNum 3); ("Acme", JNum 1)];
     modelBrandMentions :=
       [("Nike", [("Gemini", JNum 2); ("ChatGPT", JNum 0); ("Claude", JNum 0);
                  ("Llama", JNaN)]);
        ("Acme", [("Gemini", JNum 0); ("ChatGPT", JNum 0); ("Claude", JNum 0);
                  ("Llama", JNaN)])];
     pieChartData := {| labels := ["Nike"; "Acme"]; data := [JNum 3; JNum 1] |};
     totalResponses := 2;
     totalBrands := 2 |}.

(** Stored answers of configured providers only. *)
Definition known_tables : Tables :=
  {| preguntas := [{| id := 1; texto_pregunta := "shoes?" |}];
     respuestas := [respuesta 1 "Gemini" "Nike and NIKE";
                    respuesta 1 "Claude" "nike, acme"];
     marcas := [marca "Nike"; marca "Acme"] |}.

(** The body of every iteration over [known_tables]. *)
Definition known_dashboard : Dashboard :=
  {| brandMentions := [("Nike", JNum 3); ("Acme", JNum 1)];
     modelBrandMentions :=
       [("Nike", [("Gemini", JNum 2); ("ChatGPT", JNum 0); ("Claude", JNum 1)]);
        ("Acme", [("Gemini", JNum 0); ("ChatGPT", JNum 0); ("Claude", JNum 1)])];
     pieChartData := {| labels := ["Nike"; "Acme"]; data := [JNum 3; JNum 1] |};
     totalResponses := 2;
     totalBrands := 2 |}.

(* ================================================================== *)
(** * The keys of the counters *)
(* ================================================================== *)

(** The keys of an object after the write [o[name] = v], from its keys
    before. *)
Definition add_name (keys : list string) (name : string) : list string :=
  if String.eqb name "__proto__" then keys
  else if existsb (String.eqb name) keys then keys
  else keys ++ [name].

(** The brand names in the order of their first row, without
    [__proto__]. *)
Definition registry_names (marcas : list Marca) : list string :=
  fold_left (fun keys m => add_name keys (nombre_marca m)) marcas [].

(* ================================================================== *)
(** * The three ways a question request can end *)
(* ================================================================== *)

(** [run] is what [POST /api/preguntar] returned for [input] in the
    world [w]: rejected, stopped at the insert of the question, or
    through the provider loop. *)
Definition intake_cases (cl : string -> string -> option string)
           (input : option string) (w : World)
           (run : Response * World * list event) : Prop :=
  let '(r, w', tr) := run in
  let texto := text_of input in
  (falsy input = true /\ status r = 400 /\ w' = w /\ tr = [])
  \/
  (falsy input = false /\ hd false (faults w) = true /\ status r = 500 /\
   tables w' = tables w /\ tr = [InsertPregunta texto false])
  \/
  (falsy input = false /\ hd false (faults w) = false /\ status r = 200 /\
   preguntas (tables w') =
     preguntas (tables w) ++ [{| id := next_id w; texto_pregunta := texto |}] /\
   respuestas (tables w') =
     respuestas (tables w)
     ++ kept (generated_rows cl (next_id w) texto models) (tl (faults w)) /\
   marcas (tables w') = marcas (tables w) /\
   provider_calls tr = map (fun m => CallLLM m texto (is_some (cl m texto))) models).

(** Every stored answer references a stored question. *)
Definition references_kept (t : Tables) : Prop :=
  forall r, In r (respuestas t) ->
    exists p, In p (preguntas t) /\ id p = id_pregunta r.

(** The answers that a request added to the store, when [w] is the
    world before and [w'] the world after. *)
Definition stored_by (w w' : World) : list Respuesta :=
  skipn (List.length (respuestas (tables w))) (respuestas (tables w')).

(** A store whose question 1 has one answer. *)
Definition linked_tables : Tables :=
  {| preguntas := [{| id := 1; texto_pregunta := "shoes?" |}];
     respuestas := [respuesta 1 "Gemini" "Nike and NIKE"];
     marcas := [marca "Nike"] |}.

(** What a question request may do to the store: [run] is what the route
    returned for [input] in the world [w].  It appended the rows [qs] to
    the questions and [rs] to the answers and nothing else; [qs] is the
    one question row of the request exactly when the status is 200, and
    [rs] holds at most one answer per provider, each with the id of that
    question, its provider and the text that provider generated. *)
Definition only_appends (cl : string -> string -> option string)
           (input : option string) (w : World)
           (run : Response * World * list event) : Prop :=
  let '(r, w', tr) := run in
  exists qs rs,
    preguntas (tables w') = preguntas (tables w) ++ qs /\
    respuestas (tables w') = respuestas (tables w) ++ rs /\
    marcas (tables w') = marcas (tables w) /\
    (status r = 200 ->
     qs = [{| id := next_id w; texto_pregunta := text_of input |}]) /\
    (status r <> 200 -> qs = [] /\ rs = []) /\
    NoDup (map modelo_llm rs) /\
    (forall a, In a rs ->
       id_pregunta a = next_id w /\ In (modelo_llm a) models /\
       cl (modelo_llm a) (text_of input) = Some (texto_respuesta a)).

(** The provider calls of a question request: every provider once, in
    the order of [models] and with the text of the question, when the
    request answers 200; none otherwise. *)
Definition calls_every_provider (cl : string -> string -> option string)
           (input : option string) (run : Response * World * list event) : Prop :=
  let '(r, _, tr) := run in
  (status r = 200 ->
   provider_calls tr =
     map (fun m => CallLLM m (text_of input) (is_some (cl m (text_of input)))) models)
  /\ (status r <> 200 -> provider_calls tr = []).

(** The dashboards of [linked_tables] before and after the question
    "hola" went through iteration 1 with its mock answers. *)
Definition linked_dashboard : Dashboard :=
  {| brandMentions := [("Nike", JNum 2)];
     modelBrandMentions :=
       [("Nike", [("Gemini", JNum 2); ("ChatGPT", JNum 0); ("Claude", JNum 0)])];
     pieChartData := {| labels := ["Nike"]; data := [JNum 2] |};
     totalResponses := 1;
     totalBrands := 1 |}.

Definition linked_dashboard_after : Dashboard :=
  {| brandMentions := [("Nike", JNum 3)];
     modelBrandMentions :=
       [("Nike", [("Gemini", JNum 3); ("ChatGPT", JNum 0); ("Claude", JNum 0)])];
     pieChartData := {| labels := ["Nike"]; data := [JNum 3] |};
     totalResponses := 4;
     totalBrands := 1 |}.

(* ================================================================== *)
(** * The brand registry: [POST /api/marcas]

    The route of all three iterations: [src/index.js], lines 187-211
    and 392-399, and [src/unnamed/part_000], lines 115-122.  The store
    decides whether a row is accepted; a rejected insert is a store call
    that fails. *)
(* ================================================================== *)

Inductive marcas_body : Type :=
| MarcasError (error : string)
| MarcaCreated (row : Marca).

Record MarcasResponse : Type := {
  marcas_status : nat;
  marcas_json : marcas_body
}.

(** [supabase.from('marcas').insert([{ nombre_marca }]).select().single()]:
    the created row, or [None] for [{ data: null, error }]. *)
Definition insert_marca (name : string) (w : World) : option Marca * World :=
  let (failed, w1) := next_fault w in
  if failed then (None, w1)
  else
    let row := {| nombre_marca := name |} in
    (Some row,
     {| tables := {| preguntas := preguntas (tables w1);
                     respuestas := respuestas (tables w1);
                     marcas := marcas (tables w1) ++ [row] |};
        next_id := next_id w1;
        faults := faults w1 |}).

(** The route, with the two messages in which the iterations differ. *)
Definition post_marcas (required failed : string) (name : option string)
           (w : World) : MarcasResponse * World :=
  if falsy name then
    ({| marcas_status := 400; marcas_json := MarcasError required |}, w)
  else
    let (saved, w1) := insert_marca (text_of name) w in
    match saved with
    | None => ({| marcas_status := 500; marcas_json := MarcasError failed |}, w1)
    | Some row => ({| marcas_status := 200; marcas_json := MarcaCreated row |}, w1)
    end.

Definition post_marcas_v1 : option string -> World -> MarcasResponse * World :=
  post_marcas "nombre_marca is required" "Failed to add brand".

Definition post_marcas_v2 : option string -> World -> MarcasResponse * World :=
  post_marcas "nombre_marca requerido" "Error al guardar marca".

Definition post_marcas_v3 : option string -> World -> MarcasResponse * World :=
  post_marcas_v2.

(** What [POST /api/marcas] may do: [run] is what the route returned for
    [name] in the world [w]. *)
Definition marcas_outcome (required failed : string) (name : option string)
           (w : World) (run : MarcasResponse * World) : Prop :=
  let '(r, w') := run in
  preguntas (tables w') = preguntas (tables w) /\
  respuestas (tables w') = respuestas (tables w) /\
  next_id w' = next_id w /\
  ((falsy name = true /\
    r = {| marcas_status := 400; marcas_json := MarcasError required |} /\ w' = w)
   \/
   (falsy name = false /\ hd false (faults w) = true /\
    r = {| marcas_status := 500; marcas_json := MarcasError failed |} /\
    marcas (tables w') = marcas (tables w))
   \/
   (falsy name = false /\ hd false (faults w) = false /\
    r = {| marcas_status := 200; marcas_json := MarcaCreated (marca (text_of name)) |} /\
    marcas (tables w') = marcas (tables w) ++ [marca (text_of name)])).

(** The dashboard of [linked_tables] after the brand "and" was added:
    the answer stored before mentions it once. *)
Definition linked_dashboard_and : Dashboard :=
  {| brandMentions := [("Nike", JNum 2); ("and", JNum 1)];
     modelBrandMentions :=
       [("Nike", [("Gemini", JNum 2); ("ChatGPT", JNum 0); ("Claude", JNum 0)]);
        ("and", [("Gemini", JNum 1); ("ChatGPT", JNum 0); ("Claude", JNum 0)])];
     pieChartData := {| labels := ["Nike"; "and"]; data := [JNum 2; JNum 1] |};
     totalResponses := 1;
     totalBrands := 2 |}.

(* ================================================================== *)
(** * The entries of a breakdown *)
(* ================================================================== *)

(** The sum of all the own entries of a breakdown, when every one of
    them holds a number; [None] when one of them holds [NaN] or a
    string. *)
Fixpoint entries_sum (breakdown : obj jsval) : option nat :=
  match breakdown with
  | [] => Some 0
  | (_, v) :: rest =>
      match v, entries_sum rest with
      | JNum n, Some s => Some (n + s)
      | _, _ => None
      end
  end.

(** The entries of the breakdown of [name] in [d] are numbers, and
    their sum [s] and the total [t] of [name] satisfy [R s t]. *)
Definition entries_against_total (R : nat -> nat -> Prop) (d : Dashboard)
           (name : string) : Prop :=
  exists breakdown s t,
    own_get name (modelBrandMentions d) = Some breakdown /\
    entries_sum breakdown = Some s /\
    own_get name (brandMentions d) = Some (JNum t) /\
    R s t.

(** One brand and one stored answer whose provider is named like a
    member of [Object.prototype]. *)
Definition inherited_tables : Tables :=
  {| preguntas := [{| id := 1; texto_pregunta := "shoes?" |}];
     respuestas := [respuesta 1 "valueOf" "I like Nike"];
     marcas := [marca "Nike"] |}.

(** The body of iteration 1 over [inherited_tables]. *)
Definition inherited_dashboard : Dashboard :=
  {| brandMentions := [("Nike", JNum 1)];
     modelBrandMentions :=
       [("Nike", [("Gemini", JNum 0); ("ChatGPT", JNum 0); ("Claude", JNum 0);
                  ("valueOf", JText "function valueOf() { [native code] }1")])];
     pieChartData := {| labels := ["Nike"]; data := [JNum 1] |};
     totalResponses := 1;
     totalBrands := 1 |}.

(** The body of iterations 2 and 3 over [llama_tables]. *)
Definition llama_dashboard : Dashboard :=
  {| brandMentions := [("Nike", JNum 1)];
     modelBrandMentions :=
       [("Nike", [("Gemini", JNum 0); ("ChatGPT", JNum 0); ("Claude", JNum 0);
                  ("Llama", JNaN)])];
     pieChartData := {| labels := ["Nike"]; data := [JNum 1] |};
     totalResponses := 1;
     totalBrands := 1 |}.

(* ================================================================== *)
(** * Strings that differ in the case of letters only *)
(* ================================================================== *)

(** Two code units that are equal, or the capital and the small form of
    one of the letters A-Z. *)
Definition same_letter (a b : ascii) : bool :=
  let x := nat_of_ascii a in
  let y := nat_of_ascii b in
  (x =? y)
  || ((65 <=? x) && (x <=? 90) && (y =? x + 32))
  || ((65 <=? y) && (y <=? 90) && (x =? y + 32)).

Definition same_but_case (s s' : string) : Prop :=
  Forall2 (fun a b => same_letter a b = true) (units s) (units s').

(** Two answer rows with the same question and provider whose texts
    differ in the case of letters only. *)
Definition same_answer_but_case (r r' : Respuesta) : Prop :=
  id_pregunta r = id_pregunta r' /\
  modelo_llm r = modelo_llm r' /\
  same_but_case (texto_respuesta r) (texto_respuesta r').

(* ================================================================== *)
(** * What a question request returns and what it stores *)
(* ================================================================== *)

(** The question id and the result map in a response of
    [POST /api/preguntar]; an error body has neither. *)
Definition returned_id (r : Response) : option nat :=
  match json r with
  | PreguntarBody i _ _ => Some i
  | _ => None
  end.

Definition returned_map (r : Response) : obj string :=
  match json r with
  | PreguntarBody _ _ o => o
  | _ => []
  end.

(** The response of a question request in the world [w]: with status
    200 it carries the id that the store gave to the question and,
    under every provider that generated a text, that text; with
    another status it carries no id. *)
Definition answers_with_id (cl : string -> string -> option string)
           (input : option string) (w : World)
           (run : Response * World * list event) : Prop :=
  let '(r, _, _) := run in
  (status r = 200 ->
   returned_id r = Some (next_id w) /\
   forall m g, In m models -> cl m (text_of input) = Some g ->
               own_get m (returned_map r) = Some g)
  /\ (status r <> 200 -> returned_id r = None).

(** What a question request stores, against what it returns: [run] is
    what the route returned for [input] in the world [w].  It appended
    the rows [qs] to the questions and [rs] to the answers and did
    nothing else to the store.  With status 200 the response carries an
    id [i], [qs] is the one question row with that id and the text of
    the request, and every row of [rs] has the id [i] and the text that
    the response shows under the provider of the row.  With another
    status the response carries no id and nothing is stored.  [rs]
    holds at most one row per provider, each with the text that its
    provider generated. *)
Definition stores_what_it_returns (cl : string -> string -> option string)
           (input : option string) (w : World)
           (run : Response * World * list event) : Prop :=
  let '(r, w', _) := run in
  exists qs rs,
    preguntas (tables w') = preguntas (tables w) ++ qs /\
    respuestas (tables w') = respuestas (tables w) ++ rs /\
    marcas (tables w') = marcas (tables w) /\
    (status r = 200 ->
     exists i,
       returned_id r = Some i /\
       qs = [{| id := i; texto_pregunta := text_of input |}] /\
       forall a, In a rs ->
         id_pregunta a = i /\
         own_get (modelo_llm a) (returned_map r) = Some (texto_respuesta a)) /\
    (status r <> 200 -> returned_id r = None /\ qs = [] /\ rs = []) /\
    NoDup (map modelo_llm rs) /\
    (forall a, In a rs ->
       In (modelo_llm a) models /\
       cl (modelo_llm a) (text_of input) = Some (texto_respuesta a)).

(* ================================================================== *)
(** * Runs on concrete inputs *)
(* ================================================================== *)

Example match_count_nike :
  mentions_of "Nike" "NIKE shoes, nike socks and Nikes" = Count 3.
Proof. vm_compute. reflexivity. Qed.

Example match_count_empty_pattern : match_count EmptyString "abc" = Count 4.
Proof. vm_compute. reflexivity. Qed.

Example match_count_wildcard : match_count "a.c" "abc a-c ac" = Count 2.
Proof. vm_compute. reflexivity. Qed.

Example match_count_escaped : match_count "a\.c" "abc a.c" = Count 1.
Proof. vm_compute. reflexivity. Qed.

Example match_count_leading_quantifier : match_count "+1" "+1 +1" = Throws.
Proof. vm_compute. reflexivity. Qed.

Example keys_order :
  Object_keys (obj_set "7" 0 (obj_set "Nike" 1 (obj_set "10" 2
              (obj_set "007" 3 (obj_set "__proto__" 4 []))))) =
  ["7"; "10"; "007"; "Nike"].
Proof. vm_compute. reflexivity. Qed.

Example plus_assign_number :
  plus_assign "Claude" 2 [("Gemini", JNum 0); ("Claude", JNum 1)] =
  [("Gemini", JNum 0); ("Claude", JNum 3)].
Proof. reflexivity. Qed.

Example plus_assign_missing :
  plus_assign "Llama" 2 [("Gemini", JNum 0)] = [("Gemini", JNum 0); ("Llama", JNaN)].
Proof. reflexivity. Qed.

Example plus_assign_inherited :
  plus_assign "valueOf" 2 [("Gemini", JNum 0)] =
  [("Gemini", JNum 0); ("valueOf", JText "function valueOf() { [native code] }2")].
Proof. vm_compute. reflexivity. Qed.

Example aggregate_guarded :
  option_map (fun d => (brandMentions d, modelBrandMentions d))
    (aggregate modelled_count true
       [marca "Nike"; marca "Acme"]
       [respuesta 1 "Gemini" "Nike and NIKE"; respuesta 1 "Llama" "nike, acme"])
  = Some ([("Nike", JNum 3); ("Acme", JNum 1)],
          [("Nike", [("Gemini", JNum 2); ("ChatGPT", JNum 0); ("Claude", JNum 0)]);
           ("Acme", zero_breakdown)]).
Proof. vm_compute. reflexivity. Qed.

Example aggregate_unguarded :
  option_map (fun d => (brandMentions d, modelBrandMentions d))
    (aggregate modelled_count false
       [marca "Nike"; marca "Acme"]
       [respuesta 1 "Gemini" "Nike and NIKE"; respuesta 1 "Llama" "nike, acme"])
  = Some ([("Nike", JNum 3); ("Acme", JNum 1)],
          [("Nike", [("Gemini", JNum 2); ("ChatGPT", JNum 0); ("Claude", JNum 0);
                     ("Llama", JNaN)]);
           ("Acme", [("Gemini", JNum 0); ("ChatGPT", JNum 0); ("Claude", JNum 0);
                     ("Llama", JNaN)])]).
Proof. vm_compute. reflexivity. Qed.

Example preguntar_v1_run :
  post_preguntar_v1 (failing ["ChatGPT"]) (Some "hola") (world empty_tables 7 [false; true])
  = (res 200 (PreguntarBody 7 (Some "hola")
        [("Gemini", ("Gemini response to: " ++ dq ++ "hola" ++ dq)%string);
         ("ChatGPT", "Error getting response from ChatGPT");
         ("Claude", ("Claude response to: " ++ dq ++ "hola" ++ dq)%string)]),
     world {| preguntas := [{| id := 7; texto_pregunta := "hola" |}];
              respuestas := [respuesta 7 "Claude" ("Claude response to: " ++ dq ++ "hola" ++ dq)%string];
              marcas := [] |} 8 [],
     [InsertPregunta "hola" true;
      CallLLM "Gemini" "hola" true;
      InsertRespuesta (respuesta 7 "Gemini" ("Gemini response to: " ++ dq ++ "hola" ++ dq)%string) false;
      CallLLM "ChatGPT" "hola" false;
      CallLLM "Claude" "hola" true;
      InsertRespuesta (respuesta 7 "Claude" ("Claude response to: " ++ dq ++ "hola" ++ dq)%string) true]).
Proof. vm_compute. reflexivity. Qed.

(** The scenario of the specification: brands "Acme" and "co", one
    answer of a provider "X" that is not configured. *)
Example aggregate_acme_co :
  option_map (fun d => (brandMentions d, modelBrandMentions d, pieChartData d))
    (aggregate modelled_count true
       [marca "Acme"; marca "co"]
       [respuesta 1 "X" "Acme co makes acme products, co."])
  = Some ([("Acme", JNum 2); ("co", JNum 2)],
          [("Acme", zero_breakdown); ("co", zero_breakdown)],
          {| labels := ["Acme"; "co"]; data := [JNum 2; JNum 2] |}).
Proof. vm_compute. reflexivity. Qed.

(** A provider named like a member of [Object.prototype] passes the
    test [!== undefined] of iteration 1. *)
Example aggregate_inherited_name :
  option_map modelBrandMentions
    (aggregate modelled_count true [marca "Nike"]
       [respuesta 1 "valueOf" "nike"])
  = Some [("Nike", [("Gemini", JNum 0); ("ChatGPT", JNum 0); ("Claude", JNum 0);
                    ("valueOf", JText "function valueOf() { [native code] }1")])].
Proof. vm_compute. reflexivity. Qed.

(** A brand named [__proto__] is counted in [totalBrands] and has no
    entry in the counters. *)
Example aggregate_proto_brand :
  option_map (fun d => (brandMentions d, modelBrandMentions d, totalBrands d))
    (aggregate modelled_count false [marca "__proto__"; marca "Nike"]
       [respuesta 1 "Gemini" "__proto__ nike"])
  = Some ([("Nike", JNum 1)],
          [("Nike", [("Gemini", JNum 1); ("ChatGPT", JNum 0); ("Claude", JNum 0)])],
          2).
Proof. vm_compute. reflexivity. Qed.

(** A brand whose name starts with a quantifier makes [new RegExp]
    throw; iteration 1 answers 500 from its [catch]. *)
Example dashboard_syntax_error :
  fst (fst (get_dashboard_data_v1 modelled_count
              (world {| preguntas := []; respuestas := [respuesta 1 "Gemini" "+1"];
                        marcas := [marca "+1"] |} 2 [])))
  = res 500 (ErrorBody "Internal server error").
Proof. vm_compute. reflexivity. Qed.

(** A failed select: iteration 1 reports it, iteration 3 runs into
    [null.forEach]. *)
Example dashboard_select_fails :
  fst (fst (get_dashboard_data_v1 modelled_count (world sample_tables 2 [true])))
  = res 500 (ErrorBody "Failed to fetch brands") /\
  fst (fst (get_dashboard_data_v3 modelled_count (world sample_tables 2 [true])))
  = res 500 (ErrorBody "Error en dashboard-data").
Proof. vm_compute. auto. Qed.

(* ================================================================== *)
(** * The global match on literal patterns *)
(* ================================================================== *)

Lemma quantifier_is_syntax (c : ascii) :
  quantifier_character c = true -> syntax_character c = true.
Proof.
  unfold quantifier_character, syntax_character, one_of. simpl.
  intros H.
  repeat (apply orb_true_iff in H; destruct H as [H | H]);
    try discriminate;
    apply Ascii.eqb_eq in H; subst c; reflexivity.
Qed.

Lemma parse_terms_literal (p : list ascii) :
  forallb (fun c => negb (syntax_character c)) p = true ->
  parse_terms p = Matcher (map AChar p).
Proof.
  induction p as [| c p IH]; simpl; intros H.
  - reflexivity.
  - apply andb_true_iff in H. destruct H as [Hc Hp].
    apply negb_true_iff in Hc.
    destruct (Ascii.eqb_spec c "\"%char) as [-> | _].
    { discriminate Hc. }
    destruct (Ascii.eqb_spec c "."%char) as [-> | _].
    { discriminate Hc. }
    rewrite Hc, (IH Hp). reflexivity.
Qed.

Lemma RegExp_literal (p : list ascii) :
  forallb (fun c => negb (syntax_character c)) p = true ->
  RegExp p = Matcher (map AChar p).
Proof.
  intros H. unfold RegExp. destruct p as [| c p].
  - reflexivity.
  - destruct (quantifier_character c) eqn:Hq.
    + apply quantifier_is_syntax in Hq. simpl in H. rewrite Hq in H. discriminate.
    + apply parse_terms_literal. exact H.
Qed.

Lemma match_here_literal (needle input : list ascii) :
  match_here (map AChar needle) input =
  if prefix_of needle input then Some (List.length needle) else None.
Proof.
  revert input. induction needle as [| x needle IH]; intros input; simpl.
  - reflexivity.
  - destruct input as [| y input]; [reflexivity |].
    destruct (Ascii.eqb x y); simpl; [| reflexivity].
    rewrite IH. destruct (prefix_of needle input); reflexivity.
Qed.

Lemma prefix_of_length (needle hay : list ascii) :
  prefix_of needle hay = true -> List.length needle <= List.length hay.
Proof.
  revert hay. induction needle as [| x needle IH]; intros hay H; simpl in *.
  - lia.
  - destruct hay as [| y hay]; [discriminate |].
    apply andb_true_iff in H. destruct H as [_ H].
    apply IH in H. simpl. lia.
Qed.

(** Skipping [k] code units through the counter or beforehand is the
    same. *)
Lemma occurrences_from_skip (needle : list ascii) (k : nat) (hay : list ascii) :
  occurrences_from needle k hay = occurrences_from needle 0 (skipn k hay).
Proof.
  revert k. induction hay as [| c hay IH]; intros k.
  - destruct k; reflexivity.
  - destruct k as [| k]; [reflexivity |].
    simpl. apply IH.
Qed.

Lemma find_match_bounds (atoms : list atom) (input : list ascii) (idx i e : nat) :
  find_match atoms input idx = Some (i, e) -> idx <= i /\ i <= e.
Proof.
  revert idx. induction input as [| c input IH]; intros idx; simpl.
  - destruct (match_here atoms []); intros H; inversion H; subst; lia.
  - destruct (match_here atoms (c :: input)).
    + intros H; inversion H; subst; lia.
    + intros H. apply IH in H. lia.
Qed.

(** With extra fuel the loop computes the same count: it has stopped
    because no further match exists, not because the fuel ran out. *)
Lemma match_loop_fuel (atoms : list atom) (subject : list ascii)
      (extra fuel idx n : nat) :
  List.length subject + 2 <= fuel + idx ->
  match_loop (fuel + extra) atoms subject idx n = match_loop fuel atoms subject idx n.
Proof.
  revert idx n. induction fuel as [| fuel IH]; intros idx n Hfuel.
  - assert (Hout : exec atoms subject idx = None).
    { unfold exec. destruct (Nat.ltb_spec (List.length subject) idx); [reflexivity | lia]. }
    destruct extra; simpl; [reflexivity |]. rewrite Hout. reflexivity.
  - simpl. destruct (exec atoms subject idx) as [[i e] |] eqn:Hexec; [| reflexivity].
    apply IH. unfold exec in Hexec.
    destruct (List.length subject <? idx); [discriminate |].
    apply find_match_bounds in Hexec.
    destruct (Nat.eqb_spec e i); lia.
Qed.

Section Literal.

Variable needle : list ascii.
Hypothesis needle_not_empty : needle <> [].

Let L := List.length needle.

Lemma needle_length_positive : 1 <= L.
Proof.
  unfold L. destruct needle; [contradiction | simpl; lia].
Qed.

Lemma find_match_none (input : list ascii) (idx : nat) :
  find_match (map AChar needle) input idx = None ->
  occurrences_from needle 0 input = 0.
Proof.
  revert idx. induction input as [| c input IH]; intros idx; simpl.
  - reflexivity.
  - rewrite (match_here_literal needle (c :: input)).
    destruct (prefix_of needle (c :: input)); [discriminate |].
    apply IH.
Qed.

Lemma find_match_some (input : list ascii) (idx i e : nat) :
  find_match (map AChar needle) input idx = Some (i, e) ->
  exists j,
    i = idx + j /\ e = i + L /\ j + L <= List.length input /\
    occurrences_from needle 0 input =
    S (occurrences_from needle 0 (skipn (j + L) input)).
Proof.
  pose proof needle_length_positive as HL.
  revert idx. induction input as [| c input IH]; intros idx.
  - simpl. rewrite (match_here_literal needle []).
    destruct needle; [contradiction | discriminate].
  - cbn [find_match]. rewrite (match_here_literal needle (c :: input)).
    destruct (prefix_of needle (c :: input)) eqn:Hpre.
    + intros H. inversion H; subst i e. exists 0.
      splits; try lia.
      * apply prefix_of_length in Hpre. fold L in Hpre. simpl. simpl in Hpre. lia.
      * cbn [occurrences_from]. rewrite Hpre. f_equal.
        rewrite occurrences_from_skip. fold L.
        replace (0 + L) with (S (L - 1)) by lia. reflexivity.
    + intros H. apply IH in H. destruct H as (j & Hi & He & Hlen & Hocc).
      exists (S j). splits; try lia.
      * simpl. lia.
      * cbn [occurrences_from]. rewrite Hpre. rewrite Hocc. reflexivity.
Qed.

Lemma match_loop_literal (subject : list ascii) (fuel idx n : nat) :
  idx <= List.length subject ->
  List.length subject + 2 <= fuel + idx ->
  match_loop fuel (map AChar needle) subject idx n =
  n + occurrences_from needle 0 (skipn idx subject).
Proof.
  pose proof needle_length_positive as HL.
  revert idx n. induction fuel as [| fuel IH]; intros idx n Hidx Hfuel.
  - lia.
  - simpl. unfold exec.
    destruct (Nat.ltb_spec (List.length subject) idx) as [Hlt | _]; [lia |].
    destruct (find_match (map AChar needle) (skipn idx subject) idx)
      as [[i e] |] eqn:Hfind.
    + apply find_match_some in Hfind.
      destruct Hfind as (j & Hi & He & Hlen & Hocc).
      rewrite length_skipn in Hlen.
      destruct (Nat.eqb_spec e i) as [Heq | _]; [lia |].
      rewrite IH by lia.
      rewrite Hocc, skipn_skipn.
      replace (j + L + idx) with e by lia. lia.
    + apply find_match_none in Hfind. rewrite Hfind. lia.
Qed.

Lemma match_all_literal (subject : list ascii) :
  match_all (map AChar needle) subject = occurrences_from needle 0 subject.
Proof.
  unfold match_all. rewrite match_loop_literal by lia. reflexivity.
Qed.

End Literal.

Lemma units_empty (s : string) : units s = [] -> s = EmptyString.
Proof.
  destruct s; [reflexivity | discriminate].
Qed.

(** For a brand name without syntax characters the count of the route is
    the number of non-overlapping literal occurrences. *)
Lemma mentions_of_literal (nombre texto : string) :
  toLowerCase nombre <> EmptyString ->
  syntax_free (toLowerCase nombre) = true ->
  mentions_of nombre texto =
  Count (literal_occurrences (toLowerCase nombre) (toLowerCase texto)).
Proof.
  intros Hne Hfree. unfold mentions_of, match_count, literal_occurrences.
  unfold syntax_free in Hfree. rewrite (RegExp_literal _ Hfree).
  rewrite match_all_literal; [reflexivity |].
  intros Hnil. apply Hne, units_empty, Hnil.
Qed.

(** Lower-casing moves letters to letters: it neither makes nor removes
    a syntax character. *)
Lemma lower_unit_syntax (c : ascii) :
  syntax_character (lower_unit c) = syntax_character c.
Proof.
  destruct c as [[|] [|] [|] [|] [|] [|] [|] [|]]; reflexivity.
Qed.

Lemma toLowerCase_syntax_free (s : string) :
  syntax_free (toLowerCase s) = syntax_free s.
Proof.
  unfold syntax_free, units.
  induction s as [| c s IH]; simpl; [reflexivity |].
  rewrite lower_unit_syntax, IH. reflexivity.
Qed.

Lemma toLowerCase_not_empty (s : string) :
  s <> EmptyString -> toLowerCase s <> EmptyString.
Proof.
  destruct s; [contradiction | discriminate].
Qed.

(** The same, with the conditions on the brand name as it is stored. *)
Lemma mentions_of_plain_name (nombre texto : string) :
  nombre <> EmptyString ->
  syntax_free nombre = true ->
  mentions_of nombre texto =
  Count (literal_occurrences (toLowerCase nombre) (toLowerCase texto)).
Proof.
  intros Hne Hfree. apply mentions_of_literal.
  - apply toLowerCase_not_empty, Hne.
  - rewrite toLowerCase_syntax_free. exact Hfree.
Qed.

(* ================================================================== *)
(** * Plain objects: reads after writes *)
(* ================================================================== *)

Section ObjectFacts.

Context {V : Type}.
Implicit Types (k : string) (v : V) (o : obj V).

Lemma own_get_put_same k v o : own_get k (put k v o) = Some v.
Proof.
  induction o as [| [k' v'] o IH]; simpl.
  - rewrite String.eqb_refl. reflexivity.
  - destruct (String.eqb_spec k k') as [-> | Hne]; simpl.
    + rewrite String.eqb_refl. reflexivity.
    + destruct (String.eqb_spec k k'); [contradiction | exact IH].
Qed.

Lemma own_get_put_other k k' v o :
  k' <> k -> own_get k' (put k v o) = own_get k' o.
Proof.
  intros Hne. induction o as [| [k0 v0] o IH]; simpl.
  - destruct (String.eqb_spec k' k); [contradiction | reflexivity].
  - destruct (String.eqb_spec k k0) as [-> | Hk]; simpl.
    + destruct (String.eqb_spec k' k0); [contradiction | reflexivity].
    + rewrite IH. reflexivity.
Qed.

Lemma obj_set_proto v o : obj_set "__proto__" v o = o.
Proof. reflexivity. Qed.

Lemma own_get_set_same k v o :
  k <> "__proto__" -> own_get k (obj_set k v o) = Some v.
Proof.
  intros Hne. unfold obj_set.
  destruct (String.eqb_spec k "__proto__"); [contradiction |].
  apply own_get_put_same.
Qed.

Lemma own_get_set_other k k' v o :
  k' <> k -> own_get k' (obj_set k v o) = own_get k' o.
Proof.
  intros Hne. unfold obj_set.
  destruct (String.eqb k "__proto__"); [reflexivity |].
  apply own_get_put_other, Hne.
Qed.

(** A write keeps the keys that exist. *)
Lemma own_get_set_some k k' v v' o :
  own_get k' o = Some v' -> exists v'', own_get k' (obj_set k v o) = Some v''.
Proof.
  intros H. destruct (String.eqb_spec k' k) as [-> | Hne].
  - unfold obj_set. destruct (String.eqb k "__proto__"); [eauto |].
    rewrite own_get_put_same. eauto.
  - rewrite own_get_set_other by exact Hne. eauto.
Qed.

(** Overwriting an own property leaves the list of keys as it is. *)
Lemma put_keys k v v' o :
  own_get k o = Some v' -> map fst (put k v o) = map fst o.
Proof.
  induction o as [| [k0 v0] o IH]; simpl; [discriminate |].
  destruct (String.eqb_spec k k0) as [-> | Hne]; simpl.
  - reflexivity.
  - intros H. rewrite (IH H). reflexivity.
Qed.

Lemma obj_set_keys k v v' o :
  own_get k o = Some v' -> map fst (obj_set k v o) = map fst o.
Proof.
  intros H. unfold obj_set.
  destruct (String.eqb k "__proto__"); [reflexivity |].
  apply (put_keys _ _ _ _ H).
Qed.

End ObjectFacts.

Lemma js_get_found (k : string) (o : obj jsval) (v : jsval) :
  own_get k o = Some v -> js_get k o = Found v.
Proof.
  intros H. unfold js_get. rewrite H. reflexivity.
Qed.

Lemma models_not_proto (k : string) : In k models -> k <> "__proto__".
Proof.
  intros Hin ->. simpl in Hin.
  repeat (destruct Hin as [Hin | Hin]; [discriminate |]). exact Hin.
Qed.

Lemma models_not_inherited (k : string) : In k models -> inherited k = false.
Proof.
  intros Hin. simpl in Hin.
  repeat (destruct Hin as [<- | Hin]; [reflexivity |]). contradiction.
Qed.

Lemma models_NoDup : NoDup models.
Proof.
  unfold models. repeat constructor; simpl; intuition discriminate.
Qed.

(** ** Sums of provider entries *)

Lemma sum_entries_set_other (keys : list string) (k : string) (v : jsval)
      (o : obj jsval) :
  ~ In k keys -> sum_entries keys (obj_set k v o) = sum_entries keys o.
Proof.
  induction keys as [| k0 keys IH]; simpl; intros Hnot.
  - reflexivity.
  - rewrite own_get_set_other by intuition.
    rewrite IH by intuition. reflexivity.
Qed.

Lemma sum_entries_plus_other (keys : list string) (k : string) (m : nat)
      (o : obj jsval) :
  ~ In k keys -> sum_entries keys (plus_assign k m o) = sum_entries keys o.
Proof.
  intros Hnot. unfold plus_assign. apply sum_entries_set_other, Hnot.
Qed.

Lemma sum_entries_plus_in (keys : list string) (k : string) (m s : nat)
      (o : obj jsval) :
  NoDup keys -> In k keys -> k <> "__proto__" ->
  sum_entries keys o = Some s ->
  sum_entries keys (plus_assign k m o) = Some (s + m).
Proof.
  intros Hnd Hin Hproto. revert s.
  induction keys as [| k0 keys IH]; simpl; intros s Hsum; [contradiction |].
  inversion Hnd as [| ? ? Hk0 Hnd']; subst.
  destruct (own_get k0 o) as [[n0 | |] |] eqn:Hget; try discriminate.
  destruct (sum_entries keys o) as [s' |] eqn:Hrest; [| discriminate].
  inversion Hsum; subst s.
  destruct (String.eqb_spec k k0) as [-> | Hne].
  - unfold plus_assign at 1. rewrite own_get_set_same by exact Hproto.
    rewrite (js_get_found _ _ _ Hget). simpl.
    rewrite sum_entries_plus_other by exact Hk0.
    rewrite Hrest. f_equal. lia.
  - destruct Hin as [-> | Hin]; [contradiction |].
    unfold plus_assign at 1. rewrite own_get_set_other by congruence.
    rewrite Hget, (IH Hnd' Hin s' eq_refl). f_equal. lia.
Qed.

Lemma sum_entries_own (keys : list string) (k : string) (s : nat)
      (o : obj jsval) :
  In k keys -> sum_entries keys o = Some s -> exists n, own_get k o = Some (JNum n).
Proof.
  induction keys as [| k0 keys IH] in s |- *; simpl; intros Hin Hsum.
  - contradiction.
  - destruct (own_get k0 o) as [[n0 | |] |] eqn:Hget; try discriminate.
    destruct (sum_entries keys o) as [s' |] eqn:Hrest; [| discriminate].
    destruct Hin as [-> | Hin]; [eauto |].
    apply (IH s' Hin eq_refl).
Qed.

(* ================================================================== *)
(** * Mention counting *)
(* ================================================================== *)

(** ** Loops that may throw *)

Lemma for_each_invariant {A St : Type} (f : St -> A -> option St)
      (P : St -> Prop) (Q : A -> Prop) (l : list A) :
  (forall st x st', Q x -> P st -> f st x = Some st' -> P st') ->
  Forall Q l ->
  forall st st', P st -> for_each f l st = Some st' -> P st'.
Proof.
  intros Hstep HQ. induction HQ as [| x l Hx _ IH]; simpl; intros st st' HP Hrun.
  - inversion Hrun; subst. exact HP.
  - destruct (f st x) as [st1 |] eqn:Hf; [| discriminate].
    apply (IH st1 st'); [| exact Hrun].
    apply (Hstep st x st1 Hx HP Hf).
Qed.

Lemma for_each_total {A St : Type} (f : St -> A -> option St)
      (P : St -> Prop) (Q : A -> Prop) (l : list A) :
  (forall st x, Q x -> P st -> exists st', f st x = Some st' /\ P st') ->
  Forall Q l ->
  forall st, P st -> exists st', for_each f l st = Some st' /\ P st'.
Proof.
  intros Hstep HQ. induction HQ as [| x l Hx _ IH]; simpl; intros st HP.
  - eauto.
  - destruct (Hstep st x Hx HP) as (st1 & Hf & HP1).
    rewrite Hf. apply IH, HP1.
Qed.

Lemma Forall_True {A : Type} (l : list A) : Forall (fun _ => True) l.
Proof.
  induction l; constructor; auto.
Qed.

(** ** Initialisation *)

Lemma init_brand_fresh (st : counters) (m : Marca) :
  fresh st -> fresh (init_brand st m).
Proof.
  intros Hfresh name bd. unfold init_brand. simpl.
  destruct (String.eqb_spec (nombre_marca m) "__proto__") as [Hp | Hp].
  - rewrite Hp, !obj_set_proto. apply Hfresh.
  - destruct (String.eqb_spec name (nombre_marca m)) as [-> | Hne].
    + rewrite !own_get_set_same by exact Hp.
      intros H; inversion H; subst. split; reflexivity.
    + rewrite !own_get_set_other by exact Hne. apply Hfresh.
Qed.

Lemma fold_init_fresh (marcas : list Marca) (st : counters) :
  fresh st -> fresh (fold_left init_brand marcas st).
Proof.
  revert st. induction marcas as [| m marcas IH]; simpl; intros st H.
  - exact H.
  - apply IH, init_brand_fresh, H.
Qed.

Lemma init_counters_fresh (marcas : list Marca) : fresh (init_counters marcas).
Proof.
  apply fold_init_fresh. intros name bd H. discriminate H.
Qed.

Lemma fresh_balanced (R : nat -> nat -> Prop) (st : counters) :
  R 0 0 -> fresh st -> balanced R st.
Proof.
  intros HR Hfresh name bd Hget.
  destruct (Hfresh name bd Hget) as [-> Htot].
  exists 0, 0. splits; [reflexivity | exact Htot | exact HR].
Qed.

Lemma fresh_three_keys (st : counters) : fresh st -> three_keys st.
Proof.
  intros Hfresh name bd Hget.
  destruct (Hfresh name bd Hget) as [-> _]. reflexivity.
Qed.

Lemma fold_init_keeps (marcas : list Marca) (st : counters) (k : string)
      (bd : obj jsval) :
  own_get k (snd st) = Some bd ->
  exists bd', own_get k (snd (fold_left init_brand marcas st)) = Some bd'.
Proof.
  revert st bd. induction marcas as [| m marcas IH]; simpl; intros st bd H.
  - eauto.
  - destruct (own_get_set_some (nombre_marca m) k zero_breakdown bd (snd st) H)
      as [bd' Hbd'].
    apply (IH (init_brand st m) bd'). exact Hbd'.
Qed.

Lemma fold_init_covered (marcas : list Marca) (st : counters) :
  covered marcas (fold_left init_brand marcas st).
Proof.
  revert st. induction marcas as [| m marcas IH]; intros st x Hin.
  - contradiction.
  - simpl. destruct Hin as [<- | Hin].
    + destruct (String.eqb_spec (nombre_marca m) "__proto__") as [Hp | Hp];
        [left; exact Hp | right].
      apply (fold_init_keeps marcas (init_brand st m) _ zero_breakdown).
      simpl. apply own_get_set_same, Hp.
    + apply IH, Hin.
Qed.

Lemma init_counters_covered (marcas : list Marca) :
  covered marcas (init_counters marcas).
Proof.
  apply fold_init_covered.
Qed.

Section CountingFacts.

Variable rc : string -> string -> option nat.
Variable guarded : bool.

(** ** One brand, one answer: what the step can do *)

Lemma count_brand_step (texto modelo : string) (st st' : counters) (m : Marca) :
  count_brand rc guarded texto modelo st m = Some st' ->
  st' = st \/
  exists n,
    0 < n /\
    rc (toLowerCase (nombre_marca m)) texto = Some n /\
    fst st' = plus_assign (nombre_marca m) n (fst st) /\
    ((snd st' = snd st /\
      (own_get (nombre_marca m) (snd st) = None /\ nombre_marca m = "__proto__"
       \/ exists bd, own_get (nombre_marca m) (snd st) = Some bd /\
                     guarded = true /\ js_get modelo bd = Undefined))
     \/
     (exists bd, own_get (nombre_marca m) (snd st) = Some bd /\
                 (guarded = true -> is_defined (js_get modelo bd) = true) /\
                 snd st' = obj_set (nombre_marca m) (plus_assign modelo n bd) (snd st))).
Proof.
  unfold count_brand.
  destruct (rc (toLowerCase (nombre_marca m)) texto) as [n |]; [| discriminate].
  destruct (Nat.ltb_spec 0 n) as [Hpos | _].
  2:{ intros H; inversion H; auto. }
  destruct (own_get (nombre_marca m) (snd st)) as [bd |] eqn:Hbd.
  - destruct guarded eqn:Hg.
    + destruct (is_defined (js_get modelo bd)) eqn:Hdef;
        intros H; inversion H; subst; right; exists n;
        (split; [exact Hpos |]); (split; [reflexivity |]); (split; [reflexivity |]).
      * right. exists bd. auto.
      * left. split; [reflexivity |]. right. exists bd.
        destruct (js_get modelo bd); try discriminate. auto.
    + intros H; inversion H; subst. right; exists n.
      split; [exact Hpos |]. split; [reflexivity |]. split; [reflexivity |].
      right. exists bd. split; [reflexivity |]. split; [discriminate | reflexivity].
  - destruct (String.eqb_spec (nombre_marca m) "__proto__") as [Hp | Hp];
      [| discriminate].
    intros H; inversion H; subst. right; exists n.
    split; [exact Hpos |]. split; [reflexivity |]. split; [reflexivity |].
    left. split; [reflexivity |]. left. split; [reflexivity | exact Hp].
Qed.

Lemma count_brand_returns (texto modelo : string) (st : counters) (m : Marca) :
  rc (toLowerCase (nombre_marca m)) texto <> None ->
  (nombre_marca m = "__proto__" \/
   exists bd, own_get (nombre_marca m) (snd st) = Some bd) ->
  exists st', count_brand rc guarded texto modelo st m = Some st'.
Proof.
  intros Hrc Hcov. unfold count_brand.
  destruct (rc (toLowerCase (nombre_marca m)) texto) as [n |]; [| contradiction].
  destruct (0 <? n); [| eauto].
  destruct (own_get (nombre_marca m) (snd st)) as [bd |] eqn:Hbd.
  - destruct guarded; [destruct (is_defined (js_get modelo bd)) |]; eauto.
  - destruct Hcov as [-> | [bd Hbd']]; [simpl; eauto | discriminate].
Qed.

(** ** The keys of [modelBrandMentions] stay *)

Lemma count_brand_keeps (texto modelo : string) (st st' : counters) (m : Marca)
      (k : string) (bd : obj jsval) :
  count_brand rc guarded texto modelo st m = Some st' ->
  own_get k (snd st) = Some bd ->
  exists bd', own_get k (snd st') = Some bd'.
Proof.
  intros Hstep Hk. apply count_brand_step in Hstep.
  destruct Hstep as [-> | (n & _ & _ & _ & [[Hsame _] | (bd0 & _ & _ & Hset)])].
  - eauto.
  - rewrite Hsame. eauto.
  - rewrite Hset. apply (own_get_set_some _ _ _ _ _ Hk).
Qed.

Lemma count_brand_covered (marcas : list Marca) (texto modelo : string)
      (st st' : counters) (m : Marca) :
  covered marcas st ->
  count_brand rc guarded texto modelo st m = Some st' ->
  covered marcas st'.
Proof.
  intros Hcov Hstep x Hin.
  destruct (Hcov x Hin) as [Hp | [bd Hbd]]; [left; exact Hp | right].
  apply (count_brand_keeps _ _ _ _ _ _ _ Hstep Hbd).
Qed.

(** ** The breakdown stays within the total *)

Lemma count_brand_balanced (R : nat -> nat -> Prop) (texto modelo : string)
      (st st' : counters) (m : Marca) :
  (forall s t n, R s t -> R (s + n) (t + n)) ->
  ((forall s t n, R s t -> R s (t + n)) \/ In modelo models) ->
  balanced R st ->
  count_brand rc guarded texto modelo st m = Some st' ->
  balanced R st'.
Proof.
  intros Hboth Hone Hbal Hstep.
  apply count_brand_step in Hstep.
  destruct Hstep as [-> | (n & Hpos & _ & Hfst & Hsnd)]; [exact Hbal |].
  intros name bd' Hget'.
  destruct (String.eqb_spec (nombre_marca m) "__proto__") as [Hp | Hp].
  { (* the writes under [__proto__] create nothing *)
    assert (Hs : snd st' = snd st).
    { destruct Hsnd as [[Hs _] | (bd & _ & _ & Hs)]; [exact Hs |].
      rewrite Hs, Hp. apply obj_set_proto. }
    rewrite Hs in Hget'. rewrite Hfst, Hp. unfold plus_assign.
    rewrite obj_set_proto. apply Hbal, Hget'. }
  destruct (String.eqb_spec name (nombre_marca m)) as [-> | Hne].
  - destruct Hsnd as [[Hs Hwhy] | (bd & Hbd & _ & Hs)].
    + rewrite Hs in Hget'.
      destruct (Hbal _ _ Hget') as (s & t & Hsum & Htot & HR).
      exists s, (t + n). split; [exact Hsum |]. split.
      * rewrite Hfst. unfold plus_assign.
        rewrite own_get_set_same by exact Hp.
        rewrite (js_get_found _ _ _ Htot). reflexivity.
      * destruct Hone as [Hle | Hin]; [apply Hle, HR |].
        destruct Hwhy as [[Hnone _] | (bd & Hbd & _ & Hundef)].
        { rewrite Hnone in Hget'. discriminate. }
        rewrite Hbd in Hget'. inversion Hget'; subst bd'.
        destruct (sum_entries_own _ _ _ _ Hin Hsum) as [v Hv].
        rewrite (js_get_found _ _ _ Hv) in Hundef. discriminate.
    + rewrite Hs, own_get_set_same in Hget' by exact Hp.
      inversion Hget'; subst bd'.
      destruct (Hbal _ _ Hbd) as (s & t & Hsum & Htot & HR).
      assert (Htot' : own_get (nombre_marca m) (fst st') = Some (JNum (t + n))).
      { rewrite Hfst. unfold plus_assign.
        rewrite own_get_set_same by exact Hp.
        rewrite (js_get_found _ _ _ Htot). reflexivity. }
      destruct (in_dec string_dec modelo models) as [Hin | Hout].
      * exists (s + n), (t + n). splits; [| exact Htot' | apply Hboth, HR].
        apply sum_entries_plus_in;
          [apply models_NoDup | exact Hin | apply models_not_proto, Hin | exact Hsum].
      * exists s, (t + n). splits; [| exact Htot' |].
        -- unfold breakdown_sum. rewrite sum_entries_plus_other by exact Hout.
           exact Hsum.
        -- destruct Hone as [Hle | Hin]; [apply Hle, HR | contradiction].
  - assert (Hs : own_get name (snd st') = own_get name (snd st)).
    { destruct Hsnd as [[Hs _] | (bd & _ & _ & Hs)]; rewrite Hs; [reflexivity |].
      apply own_get_set_other, Hne. }
    rewrite Hs in Hget'.
    destruct (Hbal _ _ Hget') as (s & t & Hsum & Htot & HR).
    exists s, t. splits; [exact Hsum | | exact HR].
    rewrite Hfst. unfold plus_assign.
    rewrite own_get_set_other by exact Hne. exact Htot.
Qed.

Lemma count_answer_balanced (R : nat -> nat -> Prop) (marcas : list Marca)
      (st st' : counters) (r : Respuesta) :
  (forall s t n, R s t -> R (s + n) (t + n)) ->
  ((forall s t n, R s t -> R s (t + n)) \/ known r) ->
  balanced R st ->
  count_answer rc guarded marcas st r = Some st' ->
  balanced R st'.
Proof.
  intros Hboth Hone. unfold count_answer.
  apply for_each_invariant with (Q := fun _ => True); [| apply Forall_True].
  intros st0 x st1 _ H0 Hstep.
  apply (count_brand_balanced R _ _ _ _ _ Hboth Hone H0 Hstep).
Qed.

Lemma count_answer_covered (marcas l : list Marca) (st st' : counters)
      (texto modelo : string) :
  covered marcas st ->
  for_each (count_brand rc guarded texto modelo) l st = Some st' ->
  covered marcas st'.
Proof.
  apply for_each_invariant with (Q := fun _ => True); [| apply Forall_True].
  intros st0 x st1 _ H0 Hstep.
  apply (count_brand_covered _ _ _ _ _ _ H0 Hstep).
Qed.

End CountingFacts.

Lemma own_get_of_key {V : Type} (k : string) (o : obj V) :
  In k (map fst o) -> exists v, own_get k o = Some v.
Proof.
  induction o as [| [k0 v0] o IH]; simpl; intros Hin; [contradiction |].
  destruct (String.eqb_spec k k0) as [_ | Hne]; [eauto |].
  destruct Hin as [Heq | Hin]; [congruence | apply IH, Hin].
Qed.

Lemma own_get_not_key {V : Type} (k : string) (o : obj V) :
  ~ In k (map fst o) -> own_get k o = None.
Proof.
  induction o as [| [k0 v0] o IH]; simpl; intros Hnot; [reflexivity |].
  destruct (String.eqb_spec k k0) as [-> | Hne]; [intuition |].
  apply IH. intuition.
Qed.

Section AggregateFacts.

Variable rc : string -> string -> option nat.
Variable guarded : bool.

(** The total of a brand grows by the count, whatever the provider
    and whatever the iteration. *)
Lemma count_brand_total (texto modelo : string) (st st' : counters) (m : Marca)
      (n t : nat) :
  count_brand rc guarded texto modelo st m = Some st' ->
  rc (toLowerCase (nombre_marca m)) texto = Some n ->
  nombre_marca m <> "__proto__" ->
  own_get (nombre_marca m) (fst st) = Some (JNum t) ->
  own_get (nombre_marca m) (fst st') = Some (JNum (t + n)).
Proof.
  intros Hstep Hrc Hp Htot. unfold count_brand in Hstep. rewrite Hrc in Hstep.
  destruct (Nat.ltb_spec 0 n) as [Hpos | Hzero].
  - assert (Hfst : fst st' = plus_assign (nombre_marca m) n (fst st)).
    { destruct (own_get (nombre_marca m) (snd st)) as [bd |].
      - destruct guarded; [destruct (is_defined (js_get modelo bd)) |];
          inversion Hstep; reflexivity.
      - destruct (String.eqb (nombre_marca m) "__proto__");
          inversion Hstep; reflexivity. }
    rewrite Hfst. unfold plus_assign.
    rewrite own_get_set_same by exact Hp.
    rewrite (js_get_found _ _ _ Htot). reflexivity.
  - inversion Hstep; subst st'. replace (t + n) with t by lia. exact Htot.
Qed.

Lemma count_brand_three_keys (texto modelo : string) (st st' : counters)
      (m : Marca) :
  (guarded = true /\ inherited modelo = false) \/ In modelo models ->
  three_keys st ->
  count_brand rc guarded texto modelo st m = Some st' ->
  three_keys st'.
Proof.
  intros Hwhy Hkeys Hstep. apply count_brand_step in Hstep.
  destruct Hstep as [-> | (n & _ & _ & _ & [[Hs _] | (bd & Hbd & Hdef & Hs)])].
  - exact Hkeys.
  - intros name bd'. rewrite Hs. apply Hkeys.
  - intros name bd'. rewrite Hs.
    destruct (String.eqb_spec (nombre_marca m) "__proto__") as [Hp | Hp].
    { rewrite Hp, obj_set_proto. apply Hkeys. }
    destruct (String.eqb_spec name (nombre_marca m)) as [-> | Hne].
    + rewrite own_get_set_same by exact Hp. intros H; inversion H; subst bd'.
      pose proof (Hkeys _ _ Hbd) as Hbdkeys.
      assert (Hown : exists v, own_get modelo bd = Some v).
      { destruct Hwhy as [[Hg Hinh] | Hin].
        - specialize (Hdef Hg). unfold js_get in Hdef.
          destruct (own_get modelo bd); [eauto |].
          rewrite Hinh in Hdef. discriminate.
        - apply own_get_of_key. rewrite Hbdkeys. exact Hin. }
      destruct Hown as [v Hv].
      unfold plus_assign. rewrite (obj_set_keys _ _ _ _ Hv). exact Hbdkeys.
    + rewrite own_get_set_other by exact Hne. apply Hkeys.
Qed.

Lemma count_mentions_balanced_le (marcas : list Marca) (rs : list Respuesta)
      (st : counters) :
  count_mentions rc guarded marcas rs = Some st -> balanced le st.
Proof.
  unfold count_mentions.
  apply for_each_invariant with (Q := fun _ => True); [| apply Forall_True |].
  - intros st0 r st1 _ H0 Hstep.
    apply (count_answer_balanced rc guarded le marcas st0 st1 r);
      [intros; lia | left; intros; lia | exact H0 | exact Hstep].
  - apply fresh_balanced; [lia | apply init_counters_fresh].
Qed.

Lemma count_mentions_balanced_eq (marcas : list Marca) (rs : list Respuesta)
      (st : counters) :
  Forall known rs ->
  count_mentions rc guarded marcas rs = Some st -> balanced eq st.
Proof.
  intros Hknown. unfold count_mentions.
  apply for_each_invariant with (Q := known); [| exact Hknown |].
  - intros st0 r st1 Hr H0 Hstep.
    apply (count_answer_balanced rc guarded eq marcas st0 st1 r);
      [intros; lia | right; exact Hr | exact H0 | exact Hstep].
  - apply fresh_balanced; [reflexivity | apply init_counters_fresh].
Qed.

Lemma count_mentions_covered (marcas : list Marca) (rs : list Respuesta)
      (st : counters) :
  count_mentions rc guarded marcas rs = Some st -> covered marcas st.
Proof.
  unfold count_mentions.
  apply for_each_invariant with (Q := fun _ => True); [| apply Forall_True |].
  - intros st0 r st1 _ H0 Hstep. unfold count_answer in Hstep.
    apply (count_answer_covered rc guarded marcas marcas st0 st1 _ _ H0 Hstep).
  - apply init_counters_covered.
Qed.

Lemma count_mentions_three_keys (marcas : list Marca) (rs : list Respuesta)
      (st : counters) :
  Forall (fun r => (guarded = true /\ inherited (modelo_llm r) = false)
                   \/ known r) rs ->
  count_mentions rc guarded marcas rs = Some st -> three_keys st.
Proof.
  intros Hrs. unfold count_mentions.
  apply for_each_invariant
    with (Q := fun r => (guarded = true /\ inherited (modelo_llm r) = false)
                        \/ known r); [| exact Hrs |].
  - intros st0 r st1 Hr H0. unfold count_answer.
    apply for_each_invariant with (Q := fun _ => True);
      [| apply Forall_True | exact H0].
    intros st2 x st3 _ H2 Hstep.
    apply (count_brand_three_keys _ _ _ _ _ Hr H2 Hstep).
  - apply fresh_three_keys, init_counters_fresh.
Qed.

(** Counting throws only when [new RegExp] does. *)
Lemma count_mentions_returns (marcas : list Marca) (rs : list Respuesta) :
  (forall m r, In m marcas -> In r rs ->
     rc (toLowerCase (nombre_marca m)) (toLowerCase (texto_respuesta r)) <> None) ->
  exists st, count_mentions rc guarded marcas rs = Some st.
Proof.
  intros Hrc. unfold count_mentions.
  destruct (for_each_total (count_answer rc guarded marcas) (covered marcas)
              (fun r => In r rs) rs) with (st := init_counters marcas)
    as (st & Hst & _); [| | apply init_counters_covered | eauto].
  - intros st r Hr Hcov. unfold count_answer.
    apply (for_each_total _ (covered marcas) (fun m => In m marcas)); [| | exact Hcov].
    + intros st0 m Hm Hcov0.
      destruct (count_brand_returns rc guarded (toLowerCase (texto_respuesta r))
                  (modelo_llm r) st0 m (Hrc m r Hm Hr) (Hcov0 m Hm)) as [st1 Hst1].
      exists st1. split; [exact Hst1 |].
      apply (count_brand_covered _ _ _ _ _ _ _ _ Hcov0 Hst1).
    + apply Forall_forall. auto.
  - apply Forall_forall. auto.
Qed.

Lemma aggregate_returns (marcas : list Marca) (rs : list Respuesta) :
  (forall m r, In m marcas -> In r rs ->
     rc (toLowerCase (nombre_marca m)) (toLowerCase (texto_respuesta r)) <> None) ->
  exists d, aggregate rc guarded marcas rs = Some d.
Proof.
  intros Hrc. unfold aggregate.
  destruct (count_mentions_returns marcas rs Hrc) as [[bm mbm] Hst].
  rewrite Hst. eauto.
Qed.

Lemma aggregate_counters (marcas : list Marca) (rs : list Respuesta)
      (d : Dashboard) :
  aggregate rc guarded marcas rs = Some d ->
  count_mentions rc guarded marcas rs = Some (brandMentions d, modelBrandMentions d).
Proof.
  unfold aggregate.
  destruct (count_mentions rc guarded marcas rs) as [[bm mbm] |]; [| discriminate].
  intros H; inversion H; reflexivity.
Qed.

End AggregateFacts.

(** Every brand of the table but [__proto__] has its total and its
    breakdown in the result. *)
Lemma every_brand_in_result (rc : string -> string -> option nat) (guarded : bool)
      (marcas : list Marca) (rs : list Respuesta) (d : Dashboard) (m : Marca) :
  aggregate rc guarded marcas rs = Some d ->
  In m marcas ->
  nombre_marca m <> "__proto__" ->
  exists breakdown t,
    own_get (nombre_marca m) (modelBrandMentions d) = Some breakdown /\
    own_get (nombre_marca m) (brandMentions d) = Some (JNum t).
Proof.
  intros Hd Hin Hp. apply aggregate_counters in Hd.
  destruct (count_mentions_covered _ _ _ _ _ Hd m Hin) as [Hproto | [bd Hbd]];
    [contradiction |].
  destruct (count_mentions_balanced_le _ _ _ _ _ Hd _ _ Hbd) as (s & t & _ & Htot & _).
  exists bd, t. split; [exact Hbd | exact Htot].
Qed.

(** ** An answer of an unknown provider, step by step *)

(** Iteration 1: the breakdowns stay as they are through the whole
    answer, when the provider is neither configured nor the name of a
    member of [Object.prototype]. *)
Lemma count_answer_unknown_guarded (rc : string -> string -> option nat)
      (marcas : list Marca) (st st' : counters) (r : Respuesta) :
  three_keys st ->
  ~ known r -> inherited (modelo_llm r) = false ->
  count_answer rc true marcas st r = Some st' ->
  snd st' = snd st.
Proof.
  intros Hkeys Hunknown Hinh. unfold count_answer.
  apply for_each_invariant with (P := fun st0 : counters => snd st0 = snd st)
                                (Q := fun _ => True);
    [| apply Forall_True | reflexivity].
  intros st0 m st1 _ H0 Hstep. apply count_brand_step in Hstep.
  destruct Hstep as [-> | (n & _ & _ & _ & [[Hs _] | (bd & Hbd & Hdef & _)])].
  - exact H0.
  - congruence.
  - exfalso. rewrite H0 in Hbd. specialize (Hdef eq_refl).
    unfold js_get in Hdef. rewrite own_get_not_key in Hdef.
    + rewrite Hinh in Hdef. discriminate.
    + rewrite (Hkeys _ _ Hbd). exact Hunknown.
Qed.

Lemma is_known_spec (r : Respuesta) : is_known r = true <-> known r.
Proof.
  unfold is_known, known. rewrite existsb_exists. split.
  - intros (x & Hin & Heq). apply String.eqb_eq in Heq. subst x. exact Hin.
  - intros Hin. exists (modelo_llm r). split; [exact Hin | apply String.eqb_refl].
Qed.

(** What a step does to the breakdowns depends on the breakdowns only,
    not on the totals. *)
Lemma count_brand_breakdowns (rc : string -> string -> option nat) (guarded : bool)
      (texto modelo : string) (st1 st2 st1' : counters) (m : Marca) :
  snd st1 = snd st2 ->
  count_brand rc guarded texto modelo st1 m = Some st1' ->
  exists st2',
    count_brand rc guarded texto modelo st2 m = Some st2' /\ snd st1' = snd st2'.
Proof.
  intros Hsnd. unfold count_brand. rewrite <- Hsnd.
  destruct (rc (toLowerCase (nombre_marca m)) texto) as [n |]; [| discriminate].
  destruct (0 <? n).
  - destruct (own_get (nombre_marca m) (snd st1)) as [bd |].
    + destruct guarded; [destruct (is_defined (js_get modelo bd)) |];
        intros H; inversion H; subst; eexists; split; reflexivity.
    + destruct (String.eqb (nombre_marca m) "__proto__"); [| discriminate].
      intros H; inversion H; subst; eexists; split; reflexivity.
  - intros H; inversion H; subst. eexists; split; [reflexivity | exact Hsnd].
Qed.

Lemma count_answer_breakdowns (rc : string -> string -> option nat) (guarded : bool)
      (marcas : list Marca) (r : Respuesta) (st1 st2 st1' : counters) :
  snd st1 = snd st2 ->
  count_answer rc guarded marcas st1 r = Some st1' ->
  exists st2',
    count_answer rc guarded marcas st2 r = Some st2' /\ snd st1' = snd st2'.
Proof.
  unfold count_answer. revert st1 st2.
  induction marcas as [| m marcas IH]; simpl; intros st1 st2 Hsnd Hrun.
  - inversion Hrun; subst. eauto.
  - destruct (count_brand rc guarded (toLowerCase (texto_respuesta r)) (modelo_llm r)
                st1 m) as [sta |] eqn:Hstep; [| discriminate].
    destruct (count_brand_breakdowns _ _ _ _ _ st2 _ _ Hsnd Hstep) as (stb & Hb & Hab).
    rewrite Hb. apply (IH sta stb Hab Hrun).
Qed.

Lemma count_answer_three_keys (rc : string -> string -> option nat) (guarded : bool)
      (marcas : list Marca) (r : Respuesta) (st st' : counters) :
  (guarded = true /\ inherited (modelo_llm r) = false) \/ known r ->
  three_keys st ->
  count_answer rc guarded marcas st r = Some st' ->
  three_keys st'.
Proof.
  intros Hr. unfold count_answer.
  apply for_each_invariant with (Q := fun _ => True); [| apply Forall_True].
  intros st2 x st3 _ H2 Hstep.
  apply (count_brand_three_keys _ _ _ _ _ _ _ Hr H2 Hstep).
Qed.

(** Iteration 1, the whole aggregation: the breakdowns are those of the
    answers of the configured providers alone, when no stored provider
    is named like a member of [Object.prototype]. *)
Lemma guarded_breakdowns_of_known_answers (rc : string -> string -> option nat)
      (marcas : list Marca) (rs : list Respuesta) (d : Dashboard) :
  Forall (fun r => inherited (modelo_llm r) = false) rs ->
  aggregate rc true marcas rs = Some d ->
  exists d',
    aggregate rc true marcas (filter is_known rs) = Some d' /\
    modelBrandMentions d' = modelBrandMentions d.
Proof.
  intros Hplain Hd. apply aggregate_counters in Hd.
  assert (Hgen : forall st1 st2 st1',
             snd st1 = snd st2 -> three_keys st1 ->
             for_each (count_answer rc true marcas) rs st1 = Some st1' ->
             exists st2',
               for_each (count_answer rc true marcas) (filter is_known rs) st2
                 = Some st2' /\ snd st1' = snd st2').
  { clear Hd. induction Hplain as [| r rs Hr _ IH]; simpl;
      intros st1 st2 st1' Hsnd Hkeys Hrun.
    - inversion Hrun; subst. eauto.
    - destruct (count_answer rc true marcas st1 r) as [sta |] eqn:Hstep;
        [| discriminate].
      assert (Hkeys' : three_keys sta).
      { apply (count_answer_three_keys rc true marcas r st1 sta); auto. }
      destruct (is_known r) eqn:Hk.
      + destruct (count_answer_breakdowns _ _ _ _ _ st2 _ Hsnd Hstep)
          as (stb & Hb & Hab).
        simpl. rewrite Hb. apply (IH sta stb st1' Hab Hkeys' Hrun).
      + assert (Hunknown : ~ known r).
        { intros Hin. apply is_known_spec in Hin. congruence. }
        pose proof (count_answer_unknown_guarded rc marcas st1 sta r Hkeys
                      Hunknown Hr Hstep) as Hsame.
        apply (IH sta st2 st1'); [congruence | exact Hkeys' | exact Hrun]. }
  unfold count_mentions in Hd.
  destruct (Hgen _ (init_counters marcas) _ eq_refl
              (fresh_three_keys _ (init_counters_fresh marcas)) Hd)
    as ([bm' mbm'] & Hrun' & Hsnd').
  unfold aggregate, count_mentions. rewrite Hrun'.
  eexists. split; [reflexivity |]. simpl in *. congruence.
Qed.

(** Iterations 2 and 3: the same step writes NaN under the unknown
    name into the breakdown of the brand. *)
Lemma count_brand_unknown_unguarded (rc : string -> string -> option nat)
      (texto modelo : string) (st : counters) (m : Marca) (n : nat)
      (bd : obj jsval) :
  rc (toLowerCase (nombre_marca m)) texto = Some n -> 0 < n ->
  nombre_marca m <> "__proto__" ->
  own_get (nombre_marca m) (snd st) = Some bd ->
  js_get modelo bd = Undefined ->
  exists st',
    count_brand rc false texto modelo st m = Some st' /\
    own_get (nombre_marca m) (snd st') = Some (put modelo JNaN bd) /\
    own_get modelo (put modelo JNaN bd) = Some JNaN.
Proof.
  intros Hrc Hpos Hp Hbd Hundef. unfold count_brand. rewrite Hrc.
  destruct (Nat.ltb_spec 0 n) as [_ | Hle]; [| lia].
  rewrite Hbd. eexists. split; [reflexivity |]. simpl snd.
  rewrite own_get_set_same by exact Hp.
  assert (Hmp : String.eqb modelo "__proto__" = false).
  { destruct (String.eqb_spec modelo "__proto__") as [-> | _]; [| reflexivity].
    unfold js_get in Hundef. destruct (own_get "__proto__" bd); discriminate. }
  unfold plus_assign, obj_set. rewrite Hmp, Hundef. simpl.
  split; [reflexivity | apply own_get_put_same].
Qed.

(* ================================================================== *)
(** * Question intake: the provider loop *)
(* ================================================================== *)

Lemma kept_length (rows : list Respuesta) (fs : list bool) :
  List.length (kept rows fs) + failed_among (List.length rows) fs = List.length rows.
Proof.
  unfold failed_among. revert fs.
  induction rows as [| r rows IH]; intros fs; simpl; [reflexivity |].
  destruct fs as [| [|] fs]; simpl.
  - specialize (IH []). rewrite firstn_nil in IH. simpl in IH. lia.
  - specialize (IH fs). lia.
  - specialize (IH fs). lia.
Qed.

Lemma kept_all (rows : list Respuesta) (fs : list bool) :
  failed_among (List.length rows) fs = 0 -> kept rows fs = rows.
Proof.
  unfold failed_among. revert fs.
  induction rows as [| r rows IH]; intros fs; simpl; [reflexivity |].
  destruct fs as [| [|] fs]; simpl; intros H.
  - f_equal. apply IH. rewrite firstn_nil. reflexivity.
  - discriminate.
  - f_equal. apply IH, H.
Qed.

Lemma kept_incl (rows : list Respuesta) (fs : list bool) (r : Respuesta) :
  In r (kept rows fs) -> In r rows.
Proof.
  revert fs. induction rows as [| r0 rows IH]; intros fs; simpl; [auto |].
  destruct fs as [| [|] fs]; simpl; intros H.
  - destruct H as [H | H]; [auto | right; apply (IH _ H)].
  - right. apply (IH _ H).
  - destruct H as [H | H]; [auto | right; apply (IH _ H)].
Qed.

Section IntakeFacts.

Variable cl : string -> string -> option string.
Variable ph : string -> string.
Variable pid : nat.
Variable q : string.

Lemma generated_rows_length (remaining : list string) :
  List.length (generated_rows cl pid q remaining) =
  List.length (filter (fun m => is_some (cl m q)) remaining).
Proof.
  induction remaining as [| m rest IH]; simpl; [reflexivity |].
  destruct (cl m q); simpl; rewrite IH; reflexivity.
Qed.

Lemma generated_rows_tagged (remaining : list string) (r : Respuesta) :
  In r (generated_rows cl pid q remaining) ->
  id_pregunta r = pid /\ In (modelo_llm r) remaining /\
  cl (modelo_llm r) q = Some (texto_respuesta r).
Proof.
  induction remaining as [| m rest IH]; simpl; [contradiction |].
  destruct (cl m q) as [g |] eqn:Hg.
  - intros [<- | Hin]; simpl; [auto |].
    destruct (IH Hin) as (? & ? & ?). auto.
  - intros Hin. destruct (IH Hin) as (? & ? & ?). auto.
Qed.

Lemma entry_some (m g : string) : cl m q = Some g -> entry cl ph q m = g.
Proof.
  intros H. unfold entry. rewrite H. reflexivity.
Qed.

Lemma entry_none (m : string) : cl m q = None -> entry cl ph q m = ph m.
Proof.
  intros H. unfold entry. rewrite H. reflexivity.
Qed.

(** The loop, turn by turn: result map, store and events. *)
Lemma ask_models_spec (remaining : list string) :
  forall (responses : obj string) (w : World) responses' w' tr,
    ask_models cl ph pid q remaining responses w = (responses', w', tr) ->
    responses' = fold_left (fun o m => obj_set m (entry cl ph q m) o)
                           remaining responses /\
    preguntas (tables w') = preguntas (tables w) /\
    marcas (tables w') = marcas (tables w) /\
    next_id w' = next_id w /\
    respuestas (tables w') =
      respuestas (tables w) ++ kept (generated_rows cl pid q remaining) (faults w) /\
    List.length (insert_attempts tr) =
      List.length (generated_rows cl pid q remaining) /\
    provider_calls tr = map (fun m => CallLLM m q (is_some (cl m q))) remaining /\
    (forall e, In e tr -> is_call e || is_insert_respuesta e = true).
Proof.
  induction remaining as [| m rest IH]; intros responses w responses' w' tr Hrun.
  - inversion Hrun; subst. simpl. rewrite app_nil_r. splits; auto; contradiction.
  - cbn [ask_models] in Hrun. unfold bind at 1, call_llm in Hrun.
    cbn [fold_left generated_rows map].
    destruct (cl m q) as [g |] eqn:Hg.
    + unfold bind at 1, insert_respuesta, next_fault in Hrun.
      destruct (faults w) as [| f fs] eqn:Hfs; [| destruct f];
        cbn [fst snd] in Hrun;
        match type of Hrun with
        | context [ask_models cl ph pid q rest ?o ?w1] =>
            destruct (ask_models cl ph pid q rest o w1) as [[o' w1'] tr1] eqn:Hrest
        end;
        inversion Hrun; subst; clear Hrun;
        apply IH in Hrest;
        destruct Hrest as (Ho & Hp & Hm & Hn & Hr & Ha & Hc & He);
        cbn [tables preguntas marcas respuestas next_id faults] in *;
        rewrite (entry_some _ _ Hg);
        (splits; [exact Ho | exact Hp | exact Hm | exact Hn | | | |]);
        try (rewrite Hr, ?Hfs, <- ?app_assoc; reflexivity);
        try (simpl; rewrite Ha; reflexivity);
        try (simpl; rewrite Hc; reflexivity);
        intros e [<- | [<- | Hin]]; auto.
    + destruct (ask_models cl ph pid q rest
                  (obj_set m (ph m) responses) w) as [[o' w1'] tr1] eqn:Hrest.
      inversion Hrun; subst; clear Hrun.
      apply IH in Hrest.
      destruct Hrest as (Ho & Hp & Hm & Hn & Hr & Ha & Hc & He).
      rewrite (entry_none _ Hg).
      splits; auto.
      * simpl. rewrite Hc. reflexivity.
      * intros e [<- | Hin]; auto.
Qed.

End IntakeFacts.

(* ================================================================== *)
(** * Question intake: the route *)
(* ================================================================== *)

Lemma falsy_text (texto : string) : texto <> EmptyString -> falsy (Some texto) = false.
Proof.
  destruct texto; [contradiction | reflexivity].
Qed.

Lemma result_map_models (cl : string -> string -> option string)
      (ph : string -> string) (q : string) :
  fold_left (fun o m => obj_set m (entry cl ph q m) o) models [] =
  map (fun m => (m, entry cl ph q m)) models.
Proof. reflexivity. Qed.

Lemma result_map_lookup (cl : string -> string -> option string)
      (ph : string -> string) (q m : string) :
  In m models ->
  own_get m (map (fun m => (m, entry cl ph q m)) models) = Some (entry cl ph q m).
Proof.
  intros Hin. simpl in Hin.
  repeat (destruct Hin as [<- | Hin]; [reflexivity |]). contradiction.
Qed.

Lemma failed_providers_count (cl : string -> string -> option string) (q : string)
      (l : list string) :
  List.length (filter (fun m => is_some (cl m q)) l) =
  List.length l - List.length (filter (fun m => negb (is_some (cl m q))) l).
Proof.
  induction l as [| m l IH]; [reflexivity |].
  pose proof (filter_length_le (fun m => negb (is_some (cl m q))) l) as Hle.
  cbn [filter]. destruct (is_some (cl m q)); cbn [negb List.length]; lia.
Qed.

(** The events of the question insert are no Answer insert. *)
Lemma insert_attempts_after_question (texto : string) (ok : bool) (tr : list event) :
  insert_attempts ((InsertPregunta texto ok :: nil) ++ tr ++ nil) = insert_attempts tr.
Proof.
  simpl. rewrite app_nil_r. reflexivity.
Qed.

Section RouteFacts.

Variable cl : string -> string -> option string.

(** A request with a text whose question is stored, in any of the
    iterations: [route] is the route, [ph] its placeholder and [echo]
    what it sends back as [pregunta]. *)
Lemma fan_out_reached (ph : string -> string) (echo : option string)
      (texto : string) (w : World) (run : Response * World * list event) :
  texto <> EmptyString ->
  hd false (faults w) = false ->
  (let saved := insert_pregunta texto w in
   exists pregunta w1 o w2 tr2,
     saved = (Some pregunta, w1, [InsertPregunta texto true]) /\
     ask_models cl ph (id pregunta) texto models [] w1 = (o, w2, tr2) /\
     run = (res 200 (PreguntarBody (id pregunta) echo o), w2,
            [InsertPregunta texto true] ++ tr2 ++ [])) ->
  fan_out_outcome cl ph echo texto w
    (List.length (failed_providers cl texto)) run.
Proof.
  intros Hne Hok (pregunta & w1 & o & w2 & tr2 & Hsaved & Hloop & ->).
  unfold insert_pregunta, next_fault in Hsaved.
  assert (Hw1 : id pregunta = next_id w /\
                respuestas (tables w1) = respuestas (tables w) /\
                faults w1 = tl (faults w)).
  { revert Hsaved Hok.
    destruct (faults w) as [| f fs] eqn:Hf; simpl; intros Hsaved Hok.
    - inversion Hsaved; subst; simpl; rewrite ?Hf; auto.
    - subst f. inversion Hsaved; subst; simpl; auto. }
  destruct Hw1 as (Hid & Hresp & Hfaults).
  apply ask_models_spec in Hloop.
  destruct Hloop as (Ho & _ & _ & _ & Hr & Ha & _ & _).
  rewrite result_map_models in Ho. rewrite Hid, Hresp, Hfaults in *.
  pose proof (failed_providers_count cl texto models) as Hcount.
  fold (failed_providers cl texto) in Hcount.
  pose proof (generated_rows_length cl (next_id w) texto models) as Hrows.
  unfold fan_out_outcome. subst o. cbv zeta.
  splits.
  - reflexivity.
  - reflexivity.
  - intros m g Hin Hg. rewrite result_map_lookup by exact Hin.
    rewrite (entry_some cl ph texto m g Hg). reflexivity.
  - intros m Hin Hg. rewrite result_map_lookup by exact Hin.
    rewrite (entry_none cl ph texto m Hg). reflexivity.
  - exact Hcount.
  - rewrite insert_attempts_after_question, Ha, Hrows. exact Hcount.
  - rewrite Hrows. exact Hcount.
  - intros row Hrow. apply (generated_rows_tagged _ _ _ _ _ Hrow).
  - exact Hr.
  - rewrite <- Hcount, <- Hrows. apply kept_length.
  - intros Hnone. rewrite Hr. f_equal. apply kept_all.
    rewrite Hrows, Hcount. exact Hnone.
Qed.

Lemma insert_pregunta_ok (texto : string) (w : World) :
  hd false (faults w) = false ->
  exists pregunta w1,
    insert_pregunta texto w = (Some pregunta, w1, [InsertPregunta texto true]).
Proof.
  unfold insert_pregunta, next_fault.
  destruct (faults w) as [| f fs]; simpl; intros Hok; subst; eauto.
Qed.

Lemma post_preguntar_v1_outcome (texto : string) (w : World) :
  texto <> EmptyString ->
  hd false (faults w) = false ->
  fan_out_outcome cl placeholder_v1 (Some texto) texto w
    (List.length (failed_providers cl texto))
    (post_preguntar_v1 cl (Some texto) w).
Proof.
  intros Hne Hok. apply fan_out_reached; [exact Hne | exact Hok |].
  destruct (insert_pregunta_ok texto w Hok) as (pregunta & w1 & Hsaved).
  cbv zeta.
  destruct (ask_models cl placeholder_v1 (id pregunta) texto models [] w1)
    as [[o w2] tr2] eqn:Hloop.
  exists pregunta, w1, o, w2, tr2. splits; [exact Hsaved | exact Hloop |].
  unfold post_preguntar_v1. rewrite (falsy_text _ Hne).
  cbv zeta. unfold bind at 1. cbn [text_of]. rewrite Hsaved.
  unfold bind at 1. rewrite Hloop. reflexivity.
Qed.

Lemma post_preguntar_v2_outcome (texto : string) (w : World) :
  texto <> EmptyString ->
  hd false (faults w) = false ->
  fan_out_outcome cl placeholder_v2 None texto w
    (List.length (failed_providers cl texto))
    (post_preguntar_v2 cl (Some texto) w).
Proof.
  intros Hne Hok. apply fan_out_reached; [exact Hne | exact Hok |].
  destruct (insert_pregunta_ok texto w Hok) as (pregunta & w1 & Hsaved).
  cbv zeta.
  destruct (ask_models cl placeholder_v2 (id pregunta) texto models [] w1)
    as [[o w2] tr2] eqn:Hloop.
  exists pregunta, w1, o, w2, tr2. splits; [exact Hsaved | exact Hloop |].
  unfold post_preguntar_v2. rewrite (falsy_text _ Hne).
  cbv zeta. unfold bind at 1. cbn [text_of]. rewrite Hsaved.
  unfold bind at 1. rewrite Hloop. reflexivity.
Qed.

End RouteFacts.

(* ================================================================== *)
(** * The dashboard route *)
(* ================================================================== *)

Section DashboardFacts.

Variable rc : string -> string -> option nat.

(** With both selects answered, iteration 1 is the aggregation of the
    two tables. *)
Lemma get_dashboard_data_v1_reads (w : World) :
  reads_succeed w ->
  get_dashboard_data_v1 rc w =
  (match aggregate rc true (marcas (tables w)) (respuestas (tables w)) with
   | Some d => res 200 (DashboardBody d)
   | None => res 500 (ErrorBody "Internal server error")
   end,
   world (tables w) (next_id w) (skipn 2 (faults w)),
   [SelectMarcas true; SelectRespuestas true]).
Proof.
  destruct w as [t n fs]. unfold reads_succeed, failed_among. simpl.
  unfold get_dashboard_data_v1, bind, select_marcas, select_respuestas, next_fault.
  destruct fs as [| [|] [| [|] fs]]; simpl; try discriminate; intros _;
    destruct (aggregate rc true (marcas t) (respuestas t)); reflexivity.
Qed.

Lemma get_dashboard_data_unchecked_reads (message : string) (w : World) :
  reads_succeed w ->
  get_dashboard_data_unchecked rc message w =
  (match aggregate rc false (marcas (tables w)) (respuestas (tables w)) with
   | Some d => res 200 (DashboardBody d)
   | None => res 500 (ErrorBody message)
   end,
   world (tables w) (next_id w) (skipn 2 (faults w)),
   [SelectMarcas true; SelectRespuestas true]).
Proof.
  destruct w as [t n fs]. unfold reads_succeed, failed_among. simpl.
  unfold get_dashboard_data_unchecked, bind, select_marcas, select_respuestas,
    next_fault.
  destruct fs as [| [|] [| [|] fs]]; simpl; try discriminate; intros _;
    destruct (aggregate rc false (marcas t) (respuestas t)); reflexivity.
Qed.

(** The route writes nothing, whatever the store answers. *)
Lemma get_dashboard_data_v1_tables (w : World) :
  tables (snd (fst (get_dashboard_data_v1 rc w))) = tables w.
Proof.
  destruct w as [t n fs].
  unfold get_dashboard_data_v1, bind, select_marcas, select_respuestas, next_fault.
  destruct fs as [| [|] [| [|] fs]]; simpl;
    try destruct (aggregate rc true (marcas t) (respuestas t)); reflexivity.
Qed.

Lemma get_dashboard_data_v1_body (w w' : World) (tr : list event) (d : Dashboard) :
  get_dashboard_data_v1 rc w = (res 200 (DashboardBody d), w', tr) ->
  aggregate rc true (marcas (tables w)) (respuestas (tables w)) = Some d.
Proof.
  destruct w as [t n fs].
  unfold get_dashboard_data_v1, bind, select_marcas, select_respuestas, next_fault.
  destruct fs as [| [|] [| [|] fs]]; simpl;
    try destruct (aggregate rc true (marcas t) (respuestas t));
    intros H; inversion H; reflexivity.
Qed.

End DashboardFacts.

(* ================================================================== *)
(** * The sum of the entries of a breakdown *)
(* ================================================================== *)

(** A breakdown with the three provider keys and no other has no entry
    beyond those that [breakdown_sum] adds up. *)
Lemma entries_sum_three_keys (breakdown : obj jsval) :
  map fst breakdown = models -> entries_sum breakdown = breakdown_sum breakdown.
Proof.
  destruct breakdown as [| [k1 v1] [| [k2 v2] [| [k3 v3] [| e rest]]]];
    simpl; intros H; try discriminate.
  inversion H; subst. unfold breakdown_sum. simpl.
  destruct v1, v2, v3; reflexivity.
Qed.

(** When every stored answer comes from a configured provider, every
    breakdown of the result has the three provider entries and no
    other, and they sum to the total of the brand: with or without the
    test of iteration 1. *)
Lemma known_breakdown_sums_to_total (rc : string -> string -> option nat)
      (guarded : bool) (marcas : list Marca) (rs : list Respuesta) (d : Dashboard)
      (name : string) (breakdown : obj jsval) :
  aggregate rc guarded marcas rs = Some d ->
  Forall known rs ->
  own_get name (modelBrandMentions d) = Some breakdown ->
  map fst breakdown = models /\ entries_against_total eq d name.
Proof.
  intros Hd Hknown Hbd. apply aggregate_counters in Hd.
  assert (Hrs : Forall (fun r => (guarded = true /\ inherited (modelo_llm r) = false)
                                 \/ known r) rs).
  { apply Forall_impl with (P := known); [auto | exact Hknown]. }
  pose proof (count_mentions_three_keys rc guarded _ _ _ Hrs Hd name breakdown Hbd)
    as Hkeys.
  destruct (count_mentions_balanced_eq rc guarded _ _ _ Hknown Hd name breakdown Hbd)
    as (s & t & Hsum & Htot & Heq).
  split; [exact Hkeys |].
  exists breakdown, s, t. simpl in *.
  rewrite (entries_sum_three_keys _ Hkeys). auto.
Qed.

(** In iteration 1, when no stored answer names its provider like a
    member of [Object.prototype], every breakdown of the result has the
    three provider entries and no other, and they sum to at most the
    total of the brand. *)
Lemma guarded_breakdown_within_total (rc : string -> string -> option nat)
      (marcas : list Marca) (rs : list Respuesta) (d : Dashboard)
      (name : string) (breakdown : obj jsval) :
  aggregate rc true marcas rs = Some d ->
  Forall (fun r => inherited (modelo_llm r) = false) rs ->
  own_get name (modelBrandMentions d) = Some breakdown ->
  map fst breakdown = models /\ entries_against_total le d name.
Proof.
  intros Hd Hplain Hbd. apply aggregate_counters in Hd.
  assert (Hrs : Forall (fun r => (true = true /\ inherited (modelo_llm r) = false)
                                 \/ known r) rs).
  { apply Forall_impl with (P := fun r => inherited (modelo_llm r) = false);
      [auto | exact Hplain]. }
  pose proof (count_mentions_three_keys rc true _ _ _ Hrs Hd name breakdown Hbd)
    as Hkeys.
  destruct (count_mentions_balanced_le rc true _ _ _ Hd name breakdown Hbd)
    as (s & t & Hsum & Htot & Hle).
  split; [exact Hkeys |].
  exists breakdown, s, t. simpl in *.
  rewrite (entries_sum_three_keys _ Hkeys). auto.
Qed.

(** Whatever the providers of the stored answers, the entries under the
    three configured providers are numbers that sum to at most the
    total of the brand, in every iteration; what else the breakdown
    holds is not in this sum. *)
Lemma configured_entries_within_total (rc : string -> string -> option nat)
      (guarded : bool) (marcas : list Marca) (rs : list Respuesta) (d : Dashboard)
      (name : string) (breakdown : obj jsval) :
  aggregate rc guarded marcas rs = Some d ->
  own_get name (modelBrandMentions d) = Some breakdown ->
  exists s t,
    breakdown_sum breakdown = Some s /\
    own_get name (brandMentions d) = Some (JNum t) /\
    s <= t.
Proof.
  intros Hd Hbd. apply aggregate_counters in Hd.
  exact (count_mentions_balanced_le rc guarded _ _ _ Hd name breakdown Hbd).
Qed.

(* ================================================================== *)
(** * The properties of the specification *)
(* ================================================================== *)

(** ** Validation and fail-fast *)

(** C5.  For an empty or a missing [texto_pregunta] the route answers
    with status 400 and "texto_pregunta is required" (the
    ValidationError of the specification), leaves the world as it found
    it and causes no event: no question and no answer is written and no
    provider is called.  This holds in the three iterations. *)
Theorem empty_question_rejected :
  forall (cl : string -> string -> option string) (input : option string)
         (w : World),
    falsy input = true ->
    post_preguntar_v1 cl input w =
      (res 400 (ErrorBody "texto_pregunta is required"), w, []) /\
    post_preguntar_v2 cl input w =
      (res 400 (ErrorBody "texto_pregunta is required"), w, []) /\
    post_preguntar_v3 cl input w =
      (res 400 (ErrorBody "texto_pregunta is required"), w, []).
Proof.
  intros cl input w Hfalsy.
  unfold post_preguntar_v3, post_preguntar_v2, post_preguntar_v1.
  rewrite Hfalsy. auto.
Qed.

(** The theorem on an empty text. *)
Lemma empty_question_rejected_witness :
  falsy (Some EmptyString) = true /\
  post_preguntar_v1 (callLLMAPI_mock mockLLMResponses_v1) (Some EmptyString)
                    (world sample_tables 2 []) =
    (res 400 (ErrorBody "texto_pregunta is required"), world sample_tables 2 [], []).
Proof.
  split; [reflexivity |].
  apply (empty_question_rejected (callLLMAPI_mock mockLLMResponses_v1)
           (Some EmptyString) (world sample_tables 2 [])).
  reflexivity.
Defined.

(** C6.  When the insert of the question fails, the route answers with
    status 500 and "Failed to save question" (the StorageError of the
    specification) and stops: the failed insert is its only event, so no
    provider is called and no answer insert is attempted, and the tables
    are as before.  Iterations 2 and 3 do the same under their own
    message. *)
Theorem question_insert_failure_aborts :
  forall (cl : string -> string -> option string) (texto : string) (w : World)
         (fs : list bool),
    texto <> EmptyString ->
    faults w = true :: fs ->
    post_preguntar_v1 cl (Some texto) w =
      (res 500 (ErrorBody "Failed to save question"),
       world (tables w) (next_id w) fs,
       [InsertPregunta texto false]) /\
    post_preguntar_v2 cl (Some texto) w =
      (res 500 (ErrorBody "Error al guardar la pregunta"),
       world (tables w) (next_id w) fs,
       [InsertPregunta texto false]).
Proof.
  intros cl texto w fs Hne Hfs.
  unfold post_preguntar_v2, post_preguntar_v1.
  rewrite (falsy_text _ Hne). cbv zeta.
  unfold bind, insert_pregunta, next_fault. rewrite Hfs. simpl. auto.
Qed.

(** The theorem on a store whose first call fails. *)
Lemma question_insert_failure_aborts_witness :
  "hola" <> EmptyString /\
  faults (world sample_tables 2 [true; false]) = true :: [false] /\
  post_preguntar_v1 (callLLMAPI_mock mockLLMResponses_v1) (Some "hola")
                    (world sample_tables 2 [true; false]) =
    (res 500 (ErrorBody "Failed to save question"),
     world sample_tables 2 [false],
     [InsertPregunta "hola" false]).
Proof.
  split; [discriminate |]. split; [reflexivity |].
  apply (question_insert_failure_aborts (callLLMAPI_mock mockLLMResponses_v1)
           "hola" (world sample_tables 2 [true; false]) [false]).
  - discriminate.
  - reflexivity.
Defined.

(** ** The provider loop *)

(** C3.  Iterations 2 and 3 answer a non-empty question with
    [{ pregunta_id, respuestas }]: the question id and one entry per
    provider, and no field for the original question text.  Iteration 1
    sends the text back as [pregunta]. *)
Theorem question_text_not_sent_back :
  let cl := callLLMAPI_mock mockLLMResponses_v2 in
  let w := world empty_tables 1 [] in
  fst (fst (post_preguntar_v2 cl (Some "hola") w)) =
    res 200 (PreguntarBody 1 None hola_answers) /\
  fst (fst (post_preguntar_v3 cl (Some "hola") w)) =
    res 200 (PreguntarBody 1 None hola_answers) /\
  fst (fst (post_preguntar_v1 cl (Some "hola") w)) =
    res 200 (PreguntarBody 1 (Some "hola") hola_answers).
Proof.
  vm_compute. auto.
Qed.

(** C4, as the specification states it, fails when an Answer insert
    fails: no provider fails (k = 0 of n = 3), the second store call
    (the insert of the first answer) answers with an error that the
    route does not read, and two answers are stored, not three. *)
Lemma answer_insert_lost :
  let cl := callLLMAPI_mock mockLLMResponses_v1 in
  let w := world empty_tables 1 [false; true] in
  let w' := snd (fst (post_preguntar_v1 cl (Some "hola") w)) in
  failed_providers cl "hola" = [] /\
  List.length (respuestas (tables w')) = 2 /\
  List.length (respuestas (tables w')) <>
    List.length models - List.length (failed_providers cl "hola").
Proof.
  vm_compute. splits; [reflexivity | reflexivity | discriminate].
Qed.

(** C4, amended.  In a request with a non-empty text whose question is
    stored and in which [k] of the [n] providers fail, the response has
    [n] entries, one per provider: the generated text for the [n - k]
    providers that answered and the placeholder for the [k] that failed.
    [n - k] Answer inserts are attempted, one per generated text, each
    tagged with the question id and the provider; the answers stored
    are those whose insert succeeds: [n - k] less the failed inserts,
    and exactly [n - k] when no insert fails.  This is
    [fan_out_outcome], for iteration 1 and for iteration 3. *)
Theorem fan_out_counts :
  forall (cl : string -> string -> option string) (texto : string) (w : World)
         (k : nat),
    texto <> EmptyString ->
    hd false (faults w) = false ->
    List.length (failed_providers cl texto) = k ->
    fan_out_outcome cl placeholder_v1 (Some texto) texto w k
      (post_preguntar_v1 cl (Some texto) w) /\
    fan_out_outcome cl placeholder_v2 None texto w k
      (post_preguntar_v3 cl (Some texto) w).
Proof.
  intros cl texto w k Hne Hok <-. split.
  - apply post_preguntar_v1_outcome; assumption.
  - apply post_preguntar_v2_outcome; assumption.
Qed.

(** The theorem on a gateway where ChatGPT is down and a store that
    loses the first answer. *)
Lemma fan_out_counts_witness :
  "hola" <> EmptyString /\
  hd false (faults (world empty_tables 1 [false; true])) = false /\
  List.length (failed_providers (failing ["ChatGPT"]) "hola") = 1 /\
  fan_out_outcome (failing ["ChatGPT"]) placeholder_v1 (Some "hola") "hola"
    (world empty_tables 1 [false; true]) 1
    (post_preguntar_v1 (failing ["ChatGPT"]) (Some "hola")
                       (world empty_tables 1 [false; true])).
Proof.
  split; [discriminate |]. split; [reflexivity |]. split; [reflexivity |].
  apply (fan_out_counts (failing ["ChatGPT"]) "hola"
           (world empty_tables 1 [false; true]) 1).
  - discriminate.
  - reflexivity.
  - reflexivity.
Defined.

(** C9.  Whenever a provider generates a text in a request that reached
    the loop, the response has status 200 and holds that text under the
    provider, and it is the same response whatever the outcomes of the
    Answer inserts are: the route does not read the result of those
    inserts.  Stated for iteration 1 and for iteration 3; [outcomes] are
    the outcomes of the store calls after the insert of the question. *)
Theorem generated_text_returned :
  forall (cl : string -> string -> option string) (texto : string) (w : World)
         (m g : string),
    texto <> EmptyString ->
    hd false (faults w) = false ->
    In m models ->
    cl m texto = Some g ->
    exists result1 result3,
      own_get m result1 = Some g /\
      own_get m result3 = Some g /\
      fst (fst (post_preguntar_v1 cl (Some texto) w))
        = res 200 (PreguntarBody (next_id w) (Some texto) result1) /\
      fst (fst (post_preguntar_v3 cl (Some texto) w))
        = res 200 (PreguntarBody (next_id w) None result3) /\
      forall outcomes : list bool,
        let w0 := world (tables w) (next_id w) (false :: outcomes) in
        fst (fst (post_preguntar_v1 cl (Some texto) w0))
          = res 200 (PreguntarBody (next_id w) (Some texto) result1) /\
        fst (fst (post_preguntar_v3 cl (Some texto) w0))
          = res 200 (PreguntarBody (next_id w) None result3).
Proof.
  intros cl texto w m g Hne Hok Hin Hg.
  assert (H1 : forall w0, hd false (faults w0) = false ->
             fst (fst (post_preguntar_v1 cl (Some texto) w0)) =
             res 200 (PreguntarBody (next_id w0) (Some texto)
                        (map (fun m => (m, entry cl placeholder_v1 texto m)) models))).
  { intros w0 H0.
    pose proof (post_preguntar_v1_outcome cl texto w0 Hne H0) as H.
    unfold fan_out_outcome in H.
    destruct (post_preguntar_v1 cl (Some texto) w0) as [[r w'] tr].
    destruct H as [H _]. exact H. }
  assert (H3 : forall w0, hd false (faults w0) = false ->
             fst (fst (post_preguntar_v3 cl (Some texto) w0)) =
             res 200 (PreguntarBody (next_id w0) None
                        (map (fun m => (m, entry cl placeholder_v2 texto m)) models))).
  { intros w0 H0. unfold post_preguntar_v3.
    pose proof (post_preguntar_v2_outcome cl texto w0 Hne H0) as H.
    unfold fan_out_outcome in H.
    destruct (post_preguntar_v2 cl (Some texto) w0) as [[r w'] tr].
    destruct H as [H _]. exact H. }
  exists (map (fun m => (m, entry cl placeholder_v1 texto m)) models),
         (map (fun m => (m, entry cl placeholder_v2 texto m)) models).
  splits.
  - rewrite result_map_lookup by exact Hin.
    rewrite (entry_some cl placeholder_v1 texto m g Hg). reflexivity.
  - rewrite result_map_lookup by exact Hin.
    rewrite (entry_some cl placeholder_v2 texto m g Hg). reflexivity.
  - apply H1, Hok.
  - apply H3, Hok.
  - intros outcomes w0. split; [apply (H1 w0) | apply (H3 w0)]; reflexivity.
Qed.

(** The theorem on a gateway where ChatGPT is down, for the text of
    Gemini. *)
Lemma generated_text_returned_witness :
  "hola" <> EmptyString /\
  hd false (faults (world empty_tables 1 [false; true])) = false /\
  In "Gemini" models /\
  failing ["ChatGPT"] "Gemini" "hola" =
    Some ("Gemini response to: " ++ dq ++ "hola" ++ dq)%string /\
  exists result1 result3,
    own_get "Gemini" result1 = Some ("Gemini response to: " ++ dq ++ "hola" ++ dq)%string /\
    own_get "Gemini" result3 = Some ("Gemini response to: " ++ dq ++ "hola" ++ dq)%string /\
    fst (fst (post_preguntar_v1 (failing ["ChatGPT"]) (Some "hola")
                (world empty_tables 1 [false; true])))
      = res 200 (PreguntarBody 1 (Some "hola") result1) /\
    fst (fst (post_preguntar_v3 (failing ["ChatGPT"]) (Some "hola")
                (world empty_tables 1 [false; true])))
      = res 200 (PreguntarBody 1 None result3) /\
    forall outcomes : list bool,
      let w0 := world empty_tables 1 (false :: outcomes) in
      fst (fst (post_preguntar_v1 (failing ["ChatGPT"]) (Some "hola") w0))
        = res 200 (PreguntarBody 1 (Some "hola") result1) /\
      fst (fst (post_preguntar_v3 (failing ["ChatGPT"]) (Some "hola") w0))
        = res 200 (PreguntarBody 1 None result3).
Proof.
  split; [discriminate |]. split; [reflexivity |].
  split; [simpl; auto |]. split; [reflexivity |].
  apply (generated_text_returned (failing ["ChatGPT"]) "hola"
           (world empty_tables 1 [false; true])
           "Gemini" ("Gemini response to: " ++ dq ++ "hola" ++ dq)%string).
  - discriminate.
  - reflexivity.
  - simpl. auto.
  - reflexivity.
Defined.

(** ** Mention counting *)

(** C7.  The brand "aa" is counted once in the answer "aaa": the match
    at 0 consumes the first two code units and no match starts at 2.
    The total of the dashboard for that brand is 1. *)
Theorem overlapping_occurrence_counted_once :
  mentions_of "aa" "aaa" = Count 1 /\
  option_map brandMentions
    (aggregate modelled_count true [marca "aa"] [respuesta 1 "Gemini" "aaa"])
  = Some [("aa", JNum 1)].
Proof.
  vm_compute. auto.
Qed.

(** C2.  The brand name goes to [new RegExp] as it is, so its syntax
    characters act as a pattern: the dot of "Amazon.com" matches the
    space of "Amazon com", and the route counts one mention where the
    lower-cased name does not occur in the lower-cased text.  (For a
    name without syntax characters the two counts agree:
    [mentions_of_literal].) *)
Theorem brand_name_read_as_pattern :
  mentions_of "Amazon.com" "Search Amazon com for deals" = Count 1 /\
  literal_occurrences (toLowerCase "Amazon.com")
                      (toLowerCase "Search Amazon com for deals") = 0 /\
  option_map brandMentions
    (aggregate modelled_count true [marca "Amazon.com"]
       [respuesta 1 "Gemini" "Search Amazon com for deals"])
  = Some [("Amazon.com", JNum 1)].
Proof.
  vm_compute. auto.
Qed.

(** C1.  An answer of the provider "Llama", which is not configured,
    mentions the brand once.  Iterations 2 and 3 add the count to the
    total and then run [modelBrandMentions[..]["Llama"] += 1] with no
    test: the breakdown of the brand gets the entry Llama: NaN.
    Iteration 1 tests the entry first and leaves the breakdown as it
    was.  No iteration raises an error. *)
Theorem unknown_provider_written_to_breakdown :
  let w := world llama_tables 2 [] in
  let nan_breakdown :=
    [("Gemini", JNum 0); ("ChatGPT", JNum 0); ("Claude", JNum 0); ("Llama", JNaN)] in
  (exists d,
     fst (fst (get_dashboard_data_v3 modelled_count w)) = res 200 (DashboardBody d) /\
     brandMentions d = [("Nike", JNum 1)] /\
     modelBrandMentions d = [("Nike", nan_breakdown)]) /\
  (exists d,
     fst (fst (get_dashboard_data_v2 modelled_count w)) = res 200 (DashboardBody d) /\
     brandMentions d = [("Nike", JNum 1)] /\
     modelBrandMentions d = [("Nike", nan_breakdown)]) /\
  (exists d,
     fst (fst (get_dashboard_data_v1 modelled_count w)) = res 200 (DashboardBody d) /\
     brandMentions d = [("Nike", JNum 1)] /\
     modelBrandMentions d = [("Nike", zero_breakdown)]).
Proof.
  cbv zeta. splits; eexists; (split; [vm_compute; reflexivity |]); split; reflexivity.
Qed.

(** C8.  The dashboard of iteration 1 reads and does not write: the
    tables are the same after the request, and two requests that find
    the same tables and whose selects are answered give the same
    response (totals, breakdowns, chart data and counts), whatever else
    differs between the two worlds. *)
Theorem dashboard_repeatable :
  forall (rc : string -> string -> option nat) (w1 w2 : World),
    tables w1 = tables w2 ->
    reads_succeed w1 ->
    reads_succeed w2 ->
    fst (fst (get_dashboard_data_v1 rc w1)) = fst (fst (get_dashboard_data_v1 rc w2)) /\
    tables (snd (fst (get_dashboard_data_v1 rc w1))) = tables w1 /\
    tables (snd (fst (get_dashboard_data_v1 rc w2))) = tables w2.
Proof.
  intros rc w1 w2 Htables H1 H2.
  rewrite !get_dashboard_data_v1_tables.
  rewrite (get_dashboard_data_v1_reads rc w1 H1), (get_dashboard_data_v1_reads rc w2 H2).
  simpl. rewrite Htables. auto.
Qed.

(** The theorem on two worlds over [sample_tables]. *)
Lemma dashboard_repeatable_witness :
  tables (world sample_tables 2 []) = tables (world sample_tables 9 [false; false; true]) /\
  reads_succeed (world sample_tables 2 []) /\
  reads_succeed (world sample_tables 9 [false; false; true]) /\
  fst (fst (get_dashboard_data_v1 modelled_count (world sample_tables 2 []))) =
  fst (fst (get_dashboard_data_v1 modelled_count
              (world sample_tables 9 [false; false; true]))) /\
  tables (snd (fst (get_dashboard_data_v1 modelled_count (world sample_tables 2 []))))
    = tables (world sample_tables 2 []) /\
  tables (snd (fst (get_dashboard_data_v1 modelled_count
                      (world sample_tables 9 [false; false; true]))))
    = tables (world sample_tables 9 [false; false; true]).
Proof.
  split; [reflexivity |]. split; [reflexivity |]. split; [reflexivity |].
  apply (dashboard_repeatable modelled_count (world sample_tables 2 [])
           (world sample_tables 9 [false; false; true])); reflexivity.
Defined.

(** C10.  The sum of the entries of a breakdown is not always at most
    the total of the brand.  In iteration 1 a stored answer whose
    provider is named [valueOf] passes the test [!== undefined], for the
    read finds the member of [Object.prototype], and the update stores
    a string under that provider.  In iterations 2 and 3 a stored
    answer of a provider that is not configured, "Llama", gets the
    entry [NaN].  In both the route answers 200, the total of the brand
    is 1 and the entries of its breakdown have no numeric sum. *)
Theorem breakdown_entry_outside_total :
  fst (fst (get_dashboard_data_v1 modelled_count (world inherited_tables 2 [])))
    = res 200 (DashboardBody inherited_dashboard) /\
  fst (fst (get_dashboard_data_v2 modelled_count (world llama_tables 2 [])))
    = res 200 (DashboardBody llama_dashboard) /\
  fst (fst (get_dashboard_data_v3 modelled_count (world llama_tables 2 [])))
    = res 200 (DashboardBody llama_dashboard) /\
  own_get "Nike" (brandMentions inherited_dashboard) = Some (JNum 1) /\
  own_get "Nike" (brandMentions llama_dashboard) = Some (JNum 1) /\
  ~ entries_against_total le inherited_dashboard "Nike" /\
  ~ entries_against_total le llama_dashboard "Nike".
Proof.
  splits; try (vm_compute; reflexivity).
  - intros (breakdown & s & t & Hbd & Hsum & _).
    vm_compute in Hbd. inversion Hbd; subst. discriminate Hsum.
  - intros (breakdown & s & t & Hbd & Hsum & _).
    vm_compute in Hbd. inversion Hbd; subst. discriminate Hsum.
Qed.

(* ================================================================== *)
(** * Further properties of the dashboard *)
(* ================================================================== *)

Section ClosedForms.

Variable rc : string -> string -> option nat.
Variable guarded : bool.

Lemma count_brand_counted (texto modelo : string) (st st' : counters) (m : Marca) :
  count_brand rc guarded texto modelo st m = Some st' ->
  exists n, rc (toLowerCase (nombre_marca m)) texto = Some n.
Proof.
  unfold count_brand.
  destruct (rc (toLowerCase (nombre_marca m)) texto) as [n |]; [eauto | discriminate].
Qed.

Lemma count_brand_other (texto modelo : string) (st st' : counters) (m : Marca)
      (name : string) :
  count_brand rc guarded texto modelo st m = Some st' ->
  name <> nombre_marca m ->
  own_get name (fst st') = own_get name (fst st) /\
  own_get name (snd st') = own_get name (snd st).
Proof.
  intros Hstep Hne. apply count_brand_step in Hstep.
  destruct Hstep as [-> | (n & _ & _ & Hfst & Hsnd)]; [auto |].
  split.
  - rewrite Hfst. unfold plus_assign. apply own_get_set_other, Hne.
  - destruct Hsnd as [[Hs _] | (bd & _ & _ & Hs)]; rewrite Hs; [reflexivity |].
    apply own_get_set_other, Hne.
Qed.

Lemma count_brand_entry (texto modelo : string) (st st' : counters) (m : Marca)
      (n b : nat) (bd : obj jsval) (p : string) :
  count_brand rc guarded texto modelo st m = Some st' ->
  rc (toLowerCase (nombre_marca m)) texto = Some n ->
  nombre_marca m <> "__proto__" ->
  own_get (nombre_marca m) (snd st) = Some bd ->
  In p models ->
  own_get p bd = Some (JNum b) ->
  exists bd',
    own_get (nombre_marca m) (snd st') = Some bd' /\
    own_get p bd' = Some (JNum (b + if String.eqb modelo p then n else 0)).
Proof.
  intros Hstep Hrc Hproto Hbd Hp Hb. unfold count_brand in Hstep.
  rewrite Hrc, Hbd in Hstep.
  assert (Hadded : own_get p (plus_assign modelo n bd) =
                   Some (JNum (b + if String.eqb modelo p then n else 0))).
  { unfold plus_assign. destruct (String.eqb_spec modelo p) as [-> | Hne].
    - rewrite own_get_set_same by (apply models_not_proto, Hp).
      rewrite (js_get_found _ _ _ Hb). reflexivity.
    - rewrite own_get_set_other by congruence. rewrite Hb, Nat.add_0_r.
      reflexivity. }
  destruct (Nat.ltb_spec 0 n) as [Hpos | Hzero].
  - destruct guarded; [destruct (is_defined (js_get modelo bd)) eqn:Hdef |];
      inversion Hstep; subst; simpl.
    + exists (plus_assign modelo n bd). split; [apply own_get_set_same, Hproto | exact Hadded].
    + exists bd. split; [exact Hbd |].
      destruct (String.eqb_spec modelo p) as [-> | _].
      * rewrite (js_get_found _ _ _ Hb) in Hdef. discriminate.
      * rewrite Nat.add_0_r. exact Hb.
    + exists (plus_assign modelo n bd). split; [apply own_get_set_same, Hproto | exact Hadded].
  - inversion Hstep; subst. exists bd. split; [exact Hbd |].
    replace n with 0 by lia. destruct (String.eqb modelo p); rewrite Nat.add_0_r; exact Hb.
Qed.

(** The inner loop, for one answer. *)
Lemma brands_loop_counts (r : Respuesta) (name : string) (l : list Marca) :
  name <> "__proto__" ->
  forall (st st' : counters) (t : nat),
    for_each (count_brand rc guarded (toLowerCase (texto_respuesta r)) (modelo_llm r))
             l st = Some st' ->
    own_get name (fst st) = Some (JNum t) ->
    own_get name (fst st') = Some (JNum (t + brand_count rc l name r)) /\
    forall bd p b,
      own_get name (snd st) = Some bd -> In p models -> own_get p bd = Some (JNum b) ->
      exists bd',
        own_get name (snd st') = Some bd' /\
        own_get p bd' =
          Some (JNum (b + if String.eqb (modelo_llm r) p
                          then brand_count rc l name r else 0)).
Proof.
  intros Hproto. unfold brand_count.
  induction l as [| m l IH]; simpl; intros st st' t Hrun Htot.
  - inversion Hrun; subst. rewrite Nat.add_0_r. split; [exact Htot |].
    intros bd p b Hbd _ Hb. exists bd. split; [exact Hbd |].
    destruct (String.eqb (modelo_llm r) p); rewrite Nat.add_0_r; exact Hb.
  - destruct (count_brand rc guarded (toLowerCase (texto_respuesta r)) (modelo_llm r)
                st m) as [sta |] eqn:Hstep; [| discriminate].
    destruct (count_brand_counted _ _ _ _ _ Hstep) as [n Hn].
    destruct (String.eqb_spec (nombre_marca m) name) as [Heq | Hne].
    + subst name. simpl.
      assert (Hcount : count_of rc m r = n) by (unfold count_of; rewrite Hn; reflexivity).
      rewrite Hcount.
      pose proof (count_brand_total rc guarded _ _ _ _ _ _ _ Hstep Hn Hproto Htot) as Hta.
      destruct (IH sta st' (t + n) Hrun Hta) as [Htot' Hbds]. split.
      * rewrite Htot'. do 2 f_equal. lia.
      * intros bd p b Hbd Hp Hb.
        destruct (count_brand_entry _ _ _ _ _ _ _ _ _ Hstep Hn Hproto Hbd Hp Hb)
          as (bda & Hbda & Hpa).
        destruct (Hbds bda p _ Hbda Hp Hpa) as (bd' & Hbd' & Hp').
        exists bd'. split; [exact Hbd' |]. rewrite Hp'. do 2 f_equal.
        destruct (String.eqb (modelo_llm r) p); lia.
    + assert (Hne' : name <> nombre_marca m) by congruence.
      destruct (count_brand_other _ _ _ _ _ name Hstep Hne') as [Hf Hs].
      rewrite <- Hf in Htot.
      destruct (IH sta st' t Hrun Htot) as [Htot' Hbds]. split; [exact Htot' |].
      intros bd p b Hbd Hp Hb. rewrite <- Hs in Hbd.
      apply (Hbds bd p b Hbd Hp Hb).
Qed.

(** The outer loop, over the answers. *)
Lemma answers_loop_counts (marcas : list Marca) (name : string)
      (rs : list Respuesta) :
  name <> "__proto__" ->
  forall (st st' : counters) (t : nat),
    for_each (count_answer rc guarded marcas) rs st = Some st' ->
    own_get name (fst st) = Some (JNum t) ->
    own_get name (fst st') = Some (JNum (t + total_of rc marcas rs name)) /\
    forall bd p b,
      own_get name (snd st) = Some bd -> In p models -> own_get p bd = Some (JNum b) ->
      exists bd',
        own_get name (snd st') = Some bd' /\
        own_get p bd' = Some (JNum (b + provider_total rc marcas rs name p)).
Proof.
  intros Hproto. unfold provider_total, total_of.
  induction rs as [| r rs IH]; simpl; intros st st' t Hrun Htot.
  - inversion Hrun; subst. rewrite Nat.add_0_r. split; [exact Htot |].
    intros bd p b Hbd _ Hb. exists bd. rewrite Nat.add_0_r. auto.
  - destruct (count_answer rc guarded marcas st r) as [sta |] eqn:Hstep;
      [| discriminate].
    unfold count_answer in Hstep.
    destruct (brands_loop_counts r name marcas Hproto st sta t Hstep Htot)
      as [Hta Hbda].
    destruct (IH sta st' _ Hrun Hta) as [Htot' Hbds]. split.
    + rewrite Htot'. do 2 f_equal. lia.
    + intros bd p b Hbd Hp Hb.
      destruct (Hbda bd p b Hbd Hp Hb) as (bda & Hbda' & Hpa).
      destruct (Hbds bda p _ Hbda' Hp Hpa) as (bd' & Hbd' & Hp').
      exists bd'. split; [exact Hbd' |]. rewrite Hp'. do 2 f_equal.
      destruct (String.eqb (modelo_llm r) p); simpl; lia.
Qed.

End ClosedForms.

Lemma init_counters_entries (marcas : list Marca) (m : Marca) :
  In m marcas ->
  nombre_marca m <> "__proto__" ->
  own_get (nombre_marca m) (fst (init_counters marcas)) = Some (JNum 0) /\
  own_get (nombre_marca m) (snd (init_counters marcas)) = Some zero_breakdown.
Proof.
  intros Hin Hproto.
  destruct (init_counters_covered marcas m Hin) as [Hp | [bd Hbd]]; [contradiction |].
  destruct (init_counters_fresh marcas _ _ Hbd) as [-> Htot]. auto.
Qed.

Lemma zero_breakdown_entry (p : string) :
  In p models -> own_get p zero_breakdown = Some (JNum 0).
Proof.
  intros Hin. simpl in Hin.
  repeat (destruct Hin as [<- | Hin]; [reflexivity |]). contradiction.
Qed.

Lemma aggregate_total_of (rc : string -> string -> option nat) (guarded : bool)
      (marcas : list Marca) (rs : list Respuesta) (d : Dashboard) (m : Marca) :
  aggregate rc guarded marcas rs = Some d ->
  In m marcas ->
  nombre_marca m <> "__proto__" ->
  own_get (nombre_marca m) (brandMentions d) =
    Some (JNum (total_of rc marcas rs (nombre_marca m))).
Proof.
  intros Hd Hin Hproto.
  apply aggregate_counters in Hd. unfold count_mentions in Hd.
  destruct (init_counters_entries marcas m Hin Hproto) as [Htot _].
  destruct (answers_loop_counts rc guarded marcas _ rs Hproto _ _ 0 Hd Htot)
    as [H _].
  exact H.
Qed.

(** X1.  The total of a brand in the dashboard is the sum, over all
    stored answers, of the counts of the brand rows with that name,
    whatever the providers of the answers are; the three iterations
    compute the same totals. *)
Theorem total_is_sum_of_counts :
  forall (rc : string -> string -> option nat) (guarded : bool)
         (marcas : list Marca) (rs : list Respuesta) (d : Dashboard) (m : Marca),
    aggregate rc guarded marcas rs = Some d ->
    In m marcas ->
    nombre_marca m <> "__proto__" ->
    own_get (nombre_marca m) (brandMentions d) =
      Some (JNum (total_of rc marcas rs (nombre_marca m))).
Proof.
  intros rc guarded marcas rs d m. apply aggregate_total_of.
Qed.

(** The theorem on [sample_tables], for the brand Nike. *)
Lemma total_is_sum_of_counts_witness :
  aggregate modelled_count true (marcas sample_tables) (respuestas sample_tables)
    = Some sample_dashboard /\
  In (marca "Nike") (marcas sample_tables) /\
  nombre_marca (marca "Nike") <> "__proto__" /\
  own_get "Nike" (brandMentions sample_dashboard) =
    Some (JNum (total_of modelled_count (marcas sample_tables)
                         (respuestas sample_tables) "Nike")).
Proof.
  split; [vm_compute; reflexivity |]. split; [simpl; auto |].
  split; [discriminate |].
  apply (total_is_sum_of_counts modelled_count true (marcas sample_tables)
           (respuestas sample_tables) sample_dashboard (marca "Nike")).
  - vm_compute. reflexivity.
  - simpl. auto.
  - discriminate.
Defined.

(** X2.  The entry of a configured provider in the breakdown of a brand
    is the sum of the counts of the brand over the stored answers of
    that provider, in every iteration.  A brand named [__proto__] is
    left aside: it has no breakdown in the result. *)
Theorem breakdown_is_sum_per_provider :
  forall (rc : string -> string -> option nat) (guarded : bool)
         (marcas : list Marca) (rs : list Respuesta) (d : Dashboard) (m : Marca)
         (p : string),
    aggregate rc guarded marcas rs = Some d ->
    In m marcas ->
    nombre_marca m <> "__proto__" ->
    In p models ->
    exists breakdown,
      own_get (nombre_marca m) (modelBrandMentions d) = Some breakdown /\
      own_get p breakdown =
        Some (JNum (provider_total rc marcas rs (nombre_marca m) p)).
Proof.
  intros rc guarded marcas rs d m p Hd Hin Hproto Hp.
  apply aggregate_counters in Hd. unfold count_mentions in Hd.
  destruct (init_counters_entries marcas m Hin Hproto) as [Htot Hbd].
  destruct (answers_loop_counts rc guarded marcas _ rs Hproto _ _ 0 Hd Htot)
    as [_ H].
  apply (H zero_breakdown p 0 Hbd Hp (zero_breakdown_entry p Hp)).
Qed.

(** The theorem on [sample_tables], for Nike and Gemini, in
    iteration 3. *)
Lemma breakdown_is_sum_per_provider_witness :
  aggregate modelled_count false (marcas sample_tables) (respuestas sample_tables)
    = Some sample_dashboard_unguarded /\
  In (marca "Nike") (marcas sample_tables) /\
  nombre_marca (marca "Nike") <> "__proto__" /\
  In "Gemini" models /\
  exists breakdown,
    own_get "Nike" (modelBrandMentions sample_dashboard_unguarded) = Some breakdown /\
    own_get "Gemini" breakdown =
      Some (JNum (provider_total modelled_count (marcas sample_tables)
                                 (respuestas sample_tables) "Nike" "Gemini")).
Proof.
  split; [vm_compute; reflexivity |]. split; [simpl; auto |].
  split; [discriminate |]. split; [simpl; auto |].
  apply (breakdown_is_sum_per_provider modelled_count false (marcas sample_tables)
           (respuestas sample_tables) sample_dashboard_unguarded (marca "Nike")
           "Gemini").
  - vm_compute. reflexivity.
  - simpl. auto.
  - discriminate.
  - simpl. auto.
Defined.

(** ** The iterations against each other *)

Lemma for_each_agree {A St : Type} (f g : St -> A -> option St) (P : St -> Prop)
      (l : list A) :
  (forall st x, P st -> f st x = g st x) ->
  (forall st x st', P st -> f st x = Some st' -> P st') ->
  forall st, P st -> for_each f l st = for_each g l st.
Proof.
  intros Hsame Hkeep. induction l as [| x l IH]; simpl; intros st HP.
  - reflexivity.
  - rewrite <- (Hsame st x HP).
    destruct (f st x) as [st' |] eqn:Hf; [| reflexivity].
    apply IH, (Hkeep st x st' HP Hf).
Qed.

(** For a configured provider the test of iteration 1 always passes. *)
Lemma count_brand_guard_passes (rc : string -> string -> option nat)
      (texto modelo : string) (st : counters) (m : Marca) :
  three_keys st ->
  In modelo models ->
  count_brand rc true texto modelo st m = count_brand rc false texto modelo st m.
Proof.
  intros Hkeys Hin. unfold count_brand.
  destruct (rc (toLowerCase (nombre_marca m)) texto) as [n |]; [| reflexivity].
  destruct (0 <? n); [| reflexivity].
  destruct (own_get (nombre_marca m) (snd st)) as [bd |] eqn:Hbd; [| reflexivity].
  destruct (own_get_of_key modelo bd) as [v Hv].
  { rewrite (Hkeys _ _ Hbd). exact Hin. }
  rewrite (js_get_found _ _ _ Hv). reflexivity.
Qed.

Lemma count_answer_guard_passes (rc : string -> string -> option nat)
      (marcas : list Marca) (st : counters) (r : Respuesta) :
  three_keys st ->
  known r ->
  count_answer rc true marcas st r = count_answer rc false marcas st r.
Proof.
  intros Hkeys Hr. unfold count_answer.
  apply for_each_agree with (P := three_keys); [| | exact Hkeys].
  - intros st0 m H0. apply count_brand_guard_passes; assumption.
  - intros st0 m st1 H0 Hstep.
    apply (count_brand_three_keys rc true _ _ _ _ _ (or_intror Hr) H0 Hstep).
Qed.

Lemma aggregate_guard_passes (rc : string -> string -> option nat)
      (marcas : list Marca) (rs : list Respuesta) :
  Forall known rs ->
  aggregate rc true marcas rs = aggregate rc false marcas rs.
Proof.
  intros Hknown. unfold aggregate, count_mentions.
  assert (Hgen : forall st, three_keys st ->
            for_each (count_answer rc true marcas) rs st =
            for_each (count_answer rc false marcas) rs st).
  { induction Hknown as [| r rs Hr _ IH]; simpl; intros st Hkeys; [reflexivity |].
    rewrite <- (count_answer_guard_passes rc marcas st r Hkeys Hr).
    destruct (count_answer rc true marcas st r) as [st' |] eqn:Hstep; [| reflexivity].
    apply IH.
    apply (count_answer_three_keys rc true marcas r st st' (or_intror Hr) Hkeys Hstep). }
  rewrite (Hgen _ (fresh_three_keys _ (init_counters_fresh marcas))). reflexivity.
Qed.

(** X3.  When every stored answer comes from a configured provider and
    both selects are answered, the dashboards of the three iterations
    send the same body: iteration 1 answers 200 with [d] exactly when
    iterations 2 and 3 do. *)
Theorem iterations_agree_on_known_providers :
  forall (rc : string -> string -> option nat) (w : World) (d : Dashboard),
    reads_succeed w ->
    Forall known (respuestas (tables w)) ->
    (fst (fst (get_dashboard_data_v1 rc w)) = res 200 (DashboardBody d) <->
     fst (fst (get_dashboard_data_v2 rc w)) = res 200 (DashboardBody d)) /\
    (fst (fst (get_dashboard_data_v1 rc w)) = res 200 (DashboardBody d) <->
     fst (fst (get_dashboard_data_v3 rc w)) = res 200 (DashboardBody d)).
Proof.
  intros rc w d Hreads Hknown.
  unfold get_dashboard_data_v2, get_dashboard_data_v3.
  rewrite (get_dashboard_data_v1_reads rc w Hreads).
  rewrite !(get_dashboard_data_unchecked_reads rc _ w Hreads).
  rewrite (aggregate_guard_passes rc _ _ Hknown). simpl.
  destruct (aggregate rc false (marcas (tables w)) (respuestas (tables w)));
    split; split; intros H; try exact H; discriminate H.
Qed.

(** The theorem on [known_tables]; both sides hold there. *)
Lemma iterations_agree_on_known_providers_witness :
  reads_succeed (world known_tables 2 []) /\
  Forall known (respuestas (tables (world known_tables 2 []))) /\
  fst (fst (get_dashboard_data_v1 modelled_count (world known_tables 2 [])))
     = res 200 (DashboardBody known_dashboard) /\
  (fst (fst (get_dashboard_data_v1 modelled_count (world known_tables 2 [])))
     = res 200 (DashboardBody known_dashboard) <->
   fst (fst (get_dashboard_data_v2 modelled_count (world known_tables 2 [])))
     = res 200 (DashboardBody known_dashboard)) /\
  (fst (fst (get_dashboard_data_v1 modelled_count (world known_tables 2 [])))
     = res 200 (DashboardBody known_dashboard) <->
   fst (fst (get_dashboard_data_v3 modelled_count (world known_tables 2 [])))
     = res 200 (DashboardBody known_dashboard)).
Proof.
  split; [reflexivity |].
  assert (Hknown : Forall known (respuestas (tables (world known_tables 2 [])))).
  { apply Forall_cons; [unfold known; simpl; auto |].
    apply Forall_cons; [unfold known; simpl; auto |]. apply Forall_nil. }
  split; [exact Hknown |].
  split; [vm_compute; reflexivity |].
  apply (iterations_agree_on_known_providers modelled_count
           (world known_tables 2 []) known_dashboard).
  - reflexivity.
  - exact Hknown.
Defined.

(** ** When the dashboard answers 200 and when it answers 500 *)

Lemma for_each_hits (A St : Type) (f : St -> A -> option St) (x : A) (l : list A) :
  In x l ->
  (forall st, f st x = None) ->
  forall st, for_each f l st = None.
Proof.
  intros Hin Hx. induction l as [| y l IH]; simpl; intros st; [contradiction |].
  destruct Hin as [-> | Hin].
  - rewrite Hx. reflexivity.
  - destruct (f st y); [apply IH, Hin | reflexivity].
Qed.

(** X4.  With both selects answered, the dashboard answers 200 in every
    iteration unless [new RegExp] throws for a brand name: nothing else
    in the counting can throw.  The body reports the number of stored
    answers and of brand rows. *)
Theorem dashboard_succeeds :
  forall (rc : string -> string -> option nat) (w : World),
    reads_succeed w ->
    (forall m r, In m (marcas (tables w)) -> In r (respuestas (tables w)) ->
       rc (toLowerCase (nombre_marca m)) (toLowerCase (texto_respuesta r)) <> None) ->
    exists d1 d2,
      fst (fst (get_dashboard_data_v1 rc w)) = res 200 (DashboardBody d1) /\
      fst (fst (get_dashboard_data_v2 rc w)) = res 200 (DashboardBody d2) /\
      fst (fst (get_dashboard_data_v3 rc w)) = res 200 (DashboardBody d2) /\
      totalResponses d1 = List.length (respuestas (tables w)) /\
      totalBrands d1 = List.length (marcas (tables w)) /\
      totalResponses d2 = List.length (respuestas (tables w)) /\
      totalBrands d2 = List.length (marcas (tables w)).
Proof.
  intros rc w Hreads Hrc.
  unfold get_dashboard_data_v2, get_dashboard_data_v3.
  rewrite (get_dashboard_data_v1_reads rc w Hreads).
  rewrite !(get_dashboard_data_unchecked_reads rc _ w Hreads).
  destruct (count_mentions_returns rc true _ _ Hrc) as [[bm1 mbm1] H1].
  destruct (count_mentions_returns rc false _ _ Hrc) as [[bm2 mbm2] H2].
  unfold aggregate. rewrite H1, H2. simpl.
  eexists. eexists. splits; reflexivity.
Qed.

(** The theorem on [sample_tables]. *)
Lemma dashboard_succeeds_witness :
  reads_succeed (world sample_tables 2 []) /\
  (forall m r, In m (marcas sample_tables) -> In r (respuestas sample_tables) ->
     modelled_count (toLowerCase (nombre_marca m)) (toLowerCase (texto_respuesta r))
       <> None) /\
  exists d1 d2,
    fst (fst (get_dashboard_data_v1 modelled_count (world sample_tables 2 [])))
      = res 200 (DashboardBody d1) /\
    fst (fst (get_dashboard_data_v2 modelled_count (world sample_tables 2 [])))
      = res 200 (DashboardBody d2) /\
    fst (fst (get_dashboard_data_v3 modelled_count (world sample_tables 2 [])))
      = res 200 (DashboardBody d2) /\
    totalResponses d1 = 2 /\ totalBrands d1 = 2 /\
    totalResponses d2 = 2 /\ totalBrands d2 = 2.
Proof.
  assert (Hrc : forall m r, In m (marcas sample_tables) ->
                  In r (respuestas sample_tables) ->
                  modelled_count (toLowerCase (nombre_marca m))
                                 (toLowerCase (texto_respuesta r)) <> None).
  { intros m r Hm Hr. simpl in Hm, Hr.
    destruct Hm as [<- | [<- | []]]; destruct Hr as [<- | [<- | []]];
      vm_compute; discriminate. }
  split; [reflexivity |]. split; [exact Hrc |].
  apply (dashboard_succeeds modelled_count (world sample_tables 2 []));
    [reflexivity | exact Hrc].
Defined.

(** X5.  One brand whose name [new RegExp] rejects makes the whole
    dashboard fail as soon as one answer is stored: every iteration
    answers 500 from its [catch], with no count for any brand.  With no
    stored answer the pattern is never built and the answer is 200. *)
Theorem rejected_brand_name_fails_dashboard :
  forall (rc : string -> string -> option nat) (w : World) (m : Marca),
    reads_succeed w ->
    In m (marcas (tables w)) ->
    (forall texto, rc (toLowerCase (nombre_marca m)) texto = None) ->
    (respuestas (tables w) <> [] ->
     fst (fst (get_dashboard_data_v1 rc w)) = res 500 (ErrorBody "Internal server error") /\
     fst (fst (get_dashboard_data_v2 rc w))
       = res 500 (ErrorBody "Error interno al procesar dashboard") /\
     fst (fst (get_dashboard_data_v3 rc w)) = res 500 (ErrorBody "Error en dashboard-data")) /\
    (respuestas (tables w) = [] ->
     exists d,
       fst (fst (get_dashboard_data_v1 rc w)) = res 200 (DashboardBody d) /\
       totalResponses d = 0).
Proof.
  intros rc w m Hreads Hin Hbad.
  unfold get_dashboard_data_v2, get_dashboard_data_v3.
  rewrite (get_dashboard_data_v1_reads rc w Hreads).
  rewrite !(get_dashboard_data_unchecked_reads rc _ w Hreads).
  split.
  - intros Hne.
    assert (Hnone : forall guarded,
              aggregate rc guarded (marcas (tables w)) (respuestas (tables w)) = None).
    { intros guarded. unfold aggregate, count_mentions.
      destruct (respuestas (tables w)) as [| r rs]; [contradiction |].
      simpl. unfold count_answer at 1.
      rewrite (for_each_hits _ _ _ m (marcas (tables w)) Hin); [reflexivity |].
      intros st. unfold count_brand. rewrite Hbad. reflexivity. }
    rewrite !Hnone. simpl. auto.
  - intros Hempty. unfold aggregate, count_mentions. rewrite Hempty. simpl.
    destruct (init_counters (marcas (tables w))) as [bm mbm]. simpl.
    eexists. split; reflexivity.
Qed.

(** The theorem for the brand "+1". *)
Lemma rejected_brand_name_fails_dashboard_witness :
  let w := world {| preguntas := []; respuestas := [respuesta 1 "Gemini" "+1"];
                    marcas := [marca "Nike"; marca "+1"] |} 2 [] in
  reads_succeed w /\
  In (marca "+1") (marcas (tables w)) /\
  (forall texto, modelled_count (toLowerCase (nombre_marca (marca "+1"))) texto = None) /\
  (respuestas (tables w) <> [] ->
   fst (fst (get_dashboard_data_v1 modelled_count w))
     = res 500 (ErrorBody "Internal server error") /\
   fst (fst (get_dashboard_data_v2 modelled_count w))
     = res 500 (ErrorBody "Error interno al procesar dashboard") /\
   fst (fst (get_dashboard_data_v3 modelled_count w))
     = res 500 (ErrorBody "Error en dashboard-data")) /\
  (respuestas (tables w) = [] ->
   exists d,
     fst (fst (get_dashboard_data_v1 modelled_count w)) = res 200 (DashboardBody d) /\
     totalResponses d = 0).
Proof.
  cbv zeta.
  split; [reflexivity |]. split; [simpl; auto |]. split; [intros texto; reflexivity |].
  apply (rejected_brand_name_fails_dashboard modelled_count
           (world {| preguntas := []; respuestas := [respuesta 1 "Gemini" "+1"];
                     marcas := [marca "Nike"; marca "+1"] |} 2 [])
           (marca "+1")).
  - reflexivity.
  - simpl. auto.
  - intros texto. reflexivity.
Defined.

(** X6.  When one of the two selects fails, every iteration answers
    500.  Iteration 1 names the select that failed and stops there: after
    a failed select of the brands it does not select the answers.
    Iterations 2 and 3 read no [error], issue both selects and answer
    from their [catch]. *)
Theorem failed_select_gives_500 :
  forall (rc : string -> string -> option nat) (w : World),
    ~ reads_succeed w ->
    let '(r1, _, tr1) := get_dashboard_data_v1 rc w in
    let '(r2, _, tr2) := get_dashboard_data_v2 rc w in
    let '(r3, _, tr3) := get_dashboard_data_v3 rc w in
    r1 = res 500 (ErrorBody (if hd false (faults w)
                             then "Failed to fetch brands"
                             else "Failed to fetch responses")) /\
    tr1 = (if hd false (faults w)
           then [SelectMarcas false]
           else [SelectMarcas true; SelectRespuestas false]) /\
    r2 = res 500 (ErrorBody "Error interno al procesar dashboard") /\
    r3 = res 500 (ErrorBody "Error en dashboard-data") /\
    tr2 = [SelectMarcas (negb (hd false (faults w)));
           SelectRespuestas (negb (hd false (tl (faults w))))] /\
    tr3 = tr2.
Proof.
  intros rc [t n fs]. unfold reads_succeed, failed_among. simpl.
  unfold get_dashboard_data_v2, get_dashboard_data_v3, get_dashboard_data_unchecked,
    get_dashboard_data_v1, bind, select_marcas, select_respuestas, next_fault.
  destruct fs as [| [|] [| [|] fs]]; simpl; intros Hfail;
    try (exfalso; apply Hfail; reflexivity); splits; reflexivity.
Qed.

(** The theorem on a store whose second call fails. *)
Lemma failed_select_gives_500_witness :
  ~ reads_succeed (world sample_tables 2 [false; true]) /\
  let '(r1, _, tr1) := get_dashboard_data_v1 modelled_count
                         (world sample_tables 2 [false; true]) in
  let '(r2, _, tr2) := get_dashboard_data_v2 modelled_count
                         (world sample_tables 2 [false; true]) in
  let '(r3, _, tr3) := get_dashboard_data_v3 modelled_count
                         (world sample_tables 2 [false; true]) in
  r1 = res 500 (ErrorBody "Failed to fetch responses") /\
  tr1 = [SelectMarcas true; SelectRespuestas false] /\
  r2 = res 500 (ErrorBody "Error interno al procesar dashboard") /\
  r3 = res 500 (ErrorBody "Error en dashboard-data") /\
  tr2 = [SelectMarcas true; SelectRespuestas false] /\
  tr3 = tr2.
Proof.
  split; [discriminate |].
  apply (failed_select_gives_500 modelled_count (world sample_tables 2 [false; true])).
  discriminate.
Defined.

(** ** The chart data *)

Lemma existsb_key {V : Type} (k : string) (o : obj V) :
  existsb (String.eqb k) (map fst o) = is_some (own_get k o).
Proof.
  induction o as [| [k0 v0] o IH]; simpl; [reflexivity |].
  destruct (String.eqb k k0); [reflexivity | exact IH].
Qed.

Lemma put_keys_new {V : Type} (k : string) (v : V) (o : obj V) :
  own_get k o = None -> map fst (put k v o) = map fst o ++ [k].
Proof.
  induction o as [| [k0 v0] o IH]; simpl; [reflexivity |].
  destruct (String.eqb k k0); [discriminate |].
  intros H. simpl. rewrite (IH H). reflexivity.
Qed.

Lemma obj_set_add_name {V : Type} (k : string) (v : V) (o : obj V) :
  map fst (obj_set k v o) = add_name (map fst o) k.
Proof.
  unfold obj_set, add_name.
  destruct (String.eqb k "__proto__"); [reflexivity |].
  rewrite existsb_key.
  destruct (own_get k o) as [v' |] eqn:Hk; simpl.
  - apply (put_keys _ _ _ _ Hk).
  - apply put_keys_new, Hk.
Qed.

Lemma add_name_In (keys : list string) (k x : string) :
  In x (add_name keys k) <-> In x keys \/ (x = k /\ k <> "__proto__").
Proof.
  unfold add_name.
  destruct (String.eqb_spec k "__proto__") as [Hp | Hp].
  - split; [auto | intros [H | [_ H]]; [exact H | contradiction]].
  - destruct (existsb (String.eqb k) keys) eqn:Hex.
    + apply existsb_exists in Hex. destruct Hex as (y & Hy & Heq).
      apply String.eqb_eq in Heq. subst y.
      split; [auto | intros [H | [-> _]]; assumption].
    + rewrite in_app_iff. simpl. split.
      * intros [H | [<- | []]]; auto.
      * intros [H | [-> _]]; auto.
Qed.

Lemma add_name_NoDup (keys : list string) (k : string) :
  NoDup keys -> NoDup (add_name keys k).
Proof.
  intros Hnd. unfold add_name.
  destruct (String.eqb k "__proto__"); [exact Hnd |].
  destruct (existsb (String.eqb k) keys) eqn:Hex; [exact Hnd |].
  apply NoDup_app; [exact Hnd | repeat constructor; simpl; tauto |].
  intros x Hx [Heq | []]. subst x.
  assert (Htrue : existsb (String.eqb k) keys = true).
  { apply existsb_exists. exists k. split; [exact Hx | apply String.eqb_refl]. }
  congruence.
Qed.

Lemma fold_add_name_In (marcas : list Marca) (keys : list string) (x : string) :
  In x (fold_left (fun keys m => add_name keys (nombre_marca m)) marcas keys) <->
  In x keys \/ (x <> "__proto__" /\ exists m, In m marcas /\ nombre_marca m = x).
Proof.
  revert keys. induction marcas as [| m marcas IH]; simpl; intros keys.
  - split; [auto | intros [H | (_ & m & [] & _)]; exact H].
  - rewrite IH, add_name_In. split.
    + intros [[H | [-> Hp]] | (Hp & m' & Hin & Heq)].
      * auto.
      * right. split; [exact Hp |]. exists m. auto.
      * right. split; [exact Hp |]. exists m'. auto.
    + intros [H | (Hp & m' & [<- | Hin] & Heq)].
      * auto.
      * left. right. subst x. auto.
      * right. split; [exact Hp |]. exists m'. auto.
Qed.

Lemma fold_add_name_NoDup (marcas : list Marca) (keys : list string) :
  NoDup keys ->
  NoDup (fold_left (fun keys m => add_name keys (nombre_marca m)) marcas keys).
Proof.
  revert keys. induction marcas as [| m marcas IH]; simpl; intros keys Hnd.
  - exact Hnd.
  - apply IH, add_name_NoDup, Hnd.
Qed.

Lemma registry_names_In (marcas : list Marca) (x : string) :
  In x (registry_names marcas) <->
  x <> "__proto__" /\ exists m, In m marcas /\ nombre_marca m = x.
Proof.
  unfold registry_names. rewrite fold_add_name_In. simpl. tauto.
Qed.

Lemma registry_names_NoDup (marcas : list Marca) : NoDup (registry_names marcas).
Proof.
  apply fold_add_name_NoDup. constructor.
Qed.

(** Distinct names, none of them [__proto__]: the names as the table
    lists them. *)
Lemma registry_names_distinct (marcas : list Marca) :
  NoDup (map nombre_marca marcas) ->
  ~ In "__proto__" (map nombre_marca marcas) ->
  registry_names marcas = map nombre_marca marcas.
Proof.
  unfold registry_names.
  assert (Hgen : forall keys,
            NoDup (keys ++ map nombre_marca marcas) ->
            ~ In "__proto__" (map nombre_marca marcas) ->
            fold_left (fun keys m => add_name keys (nombre_marca m)) marcas keys
            = keys ++ map nombre_marca marcas).
  { induction marcas as [| m marcas IH]; simpl; intros keys Hnd Hp.
    - rewrite app_nil_r. reflexivity.
    - assert (Hadd : add_name keys (nombre_marca m) = keys ++ [nombre_marca m]).
      { unfold add_name.
        destruct (String.eqb_spec (nombre_marca m) "__proto__") as [Heq | _];
          [exfalso; apply Hp; left; exact Heq |].
        destruct (existsb (String.eqb (nombre_marca m)) keys) eqn:Hex; [| reflexivity].
        apply existsb_exists in Hex. destruct Hex as (y & Hy & Heq).
        apply String.eqb_eq in Heq. subst y.
        apply NoDup_remove_2 in Hnd. exfalso. apply Hnd.
        apply in_or_app. left. exact Hy. }
      rewrite Hadd, IH.
      + rewrite <- app_assoc. reflexivity.
      + rewrite <- app_assoc. exact Hnd.
      + intros H. apply Hp. right. exact H. }
  intros Hnd Hp. apply (Hgen [] Hnd Hp).
Qed.

Lemma init_counters_keys (marcas : list Marca) :
  map fst (fst (init_counters marcas)) = registry_names marcas.
Proof.
  unfold init_counters, registry_names.
  assert (Hgen : forall st,
            map fst (fst (fold_left init_brand marcas st)) =
            fold_left (fun keys m => add_name keys (nombre_marca m)) marcas
                      (map fst (fst st))).
  { induction marcas as [| m marcas IH]; simpl; intros st; [reflexivity |].
    rewrite IH. simpl. rewrite obj_set_add_name. reflexivity. }
  apply (Hgen ([], [])).
Qed.

Section ChartFacts.

Variable rc : string -> string -> option nat.
Variable guarded : bool.

(** Counting writes under names that are keys already. *)
Lemma count_brand_total_keys (texto modelo : string) (st st' : counters) (m : Marca) :
  nombre_marca m = "__proto__" \/ In (nombre_marca m) (map fst (fst st)) ->
  count_brand rc guarded texto modelo st m = Some st' ->
  map fst (fst st') = map fst (fst st).
Proof.
  intros Hkey Hstep. apply count_brand_step in Hstep.
  destruct Hstep as [-> | (n & _ & _ & Hfst & _)]; [reflexivity |].
  rewrite Hfst. unfold plus_assign.
  destruct Hkey as [-> | Hin]; [reflexivity |].
  destruct (own_get_of_key _ _ Hin) as [v Hv].
  apply (obj_set_keys _ _ _ _ Hv).
Qed.

Lemma count_mentions_total_keys (marcas : list Marca) (rs : list Respuesta)
      (st : counters) :
  count_mentions rc guarded marcas rs = Some st ->
  map fst (fst st) = registry_names marcas.
Proof.
  unfold count_mentions.
  apply for_each_invariant
    with (P := fun st0 : counters => map fst (fst st0) = registry_names marcas)
         (Q := fun _ : Respuesta => True);
    [| apply Forall_True | apply init_counters_keys].
  intros st0 r st1 _ H0. unfold count_answer. revert H0.
  apply for_each_invariant
    with (P := fun st0 : counters => map fst (fst st0) = registry_names marcas)
         (Q := fun m => In m marcas);
    [| apply Forall_forall; auto].
  intros st2 m st3 Hm H2 Hstep.
  rewrite <- H2. apply (count_brand_total_keys _ _ _ _ _) with (2 := Hstep).
  destruct (String.eqb_spec (nombre_marca m) "__proto__") as [Hp | Hp]; [auto |].
  right. rewrite H2. apply registry_names_In. split; [exact Hp |]. exists m. auto.
Qed.

End ChartFacts.

(** ** [Object.keys] and [Object.values] *)

Lemma insert_index_perm {V : Type} (e : string * V) (l : obj V) :
  Permutation (insert_index e l) (e :: l).
Proof.
  induction l as [| e' l IH]; simpl; [apply Permutation_refl |].
  destruct (index_leb (fst e) (fst e')); [apply Permutation_refl |].
  apply perm_trans with (e' :: e :: l); [apply perm_skip, IH | apply perm_swap].
Qed.

Lemma sort_index_perm {V : Type} (l : obj V) :
  Permutation (fold_right insert_index [] l) l.
Proof.
  induction l as [| e l IH]; simpl; [apply perm_nil |].
  apply perm_trans with (e :: fold_right insert_index [] l);
    [apply insert_index_perm | apply perm_skip, IH].
Qed.

Lemma filter_split_perm {A : Type} (f : A -> bool) (l : list A) :
  Permutation (filter f l ++ filter (fun x => negb (f x)) l) l.
Proof.
  induction l as [| a l IH]; simpl; [apply perm_nil |].
  destruct (f a); simpl.
  - apply perm_skip, IH.
  - apply Permutation_sym, Permutation_cons_app, Permutation_sym, IH.
Qed.

Lemma own_entries_perm {V : Type} (o : obj V) : Permutation (own_entries o) o.
Proof.
  unfold own_entries.
  apply perm_trans with (filter (fun e => array_index (fst e)) o ++
                         filter (fun e => negb (array_index (fst e))) o).
  - apply Permutation_app_tail, sort_index_perm.
  - apply filter_split_perm.
Qed.

Lemma filter_none {A : Type} (f : A -> bool) (l : list A) :
  forallb (fun x => negb (f x)) l = true ->
  filter f l = [] /\ filter (fun x => negb (f x)) l = l.
Proof.
  induction l as [| a l IH]; simpl; [auto |].
  intros H. apply andb_true_iff in H. destruct H as [Ha Hl].
  destruct (IH Hl) as [H1 H2]. rewrite Ha.
  apply negb_true_iff in Ha. rewrite Ha, H1, H2. auto.
Qed.

(** Without array indices among the keys, the enumeration is the
    creation order. *)
Lemma own_entries_plain {V : Type} (o : obj V) :
  forallb (fun e => negb (array_index (fst e))) o = true -> own_entries o = o.
Proof.
  intros H. unfold own_entries.
  destruct (filter_none (fun e : string * V => array_index (fst e)) o H) as [H1 H2].
  rewrite H1, H2. reflexivity.
Qed.

Lemma own_get_of_entry {V : Type} (k : string) (v : V) (o : obj V) :
  NoDup (map fst o) -> In (k, v) o -> own_get k o = Some v.
Proof.
  induction o as [| [k0 v0] o IH]; simpl; intros Hnd Hin; [contradiction |].
  inversion Hnd as [| ? ? Hk0 Hnd']; subst.
  destruct (String.eqb_spec k k0) as [-> | Hne].
  - destruct Hin as [Heq | Hin]; [congruence |].
    exfalso. apply Hk0. apply (in_map fst) in Hin. exact Hin.
  - destruct Hin as [Heq | Hin]; [congruence | apply IH; assumption].
Qed.

Lemma nth_error_entry {V : Type} (e : obj V) (i : nat) (k : string) (v : V) :
  nth_error (map fst e) i = Some k ->
  nth_error (map snd e) i = Some v ->
  nth_error e i = Some (k, v).
Proof.
  rewrite !nth_error_map.
  destruct (nth_error e i) as [[k' v'] |]; simpl; [| discriminate].
  intros H1 H2. congruence.
Qed.

(** X7.  The chart data of the dashboard: [labels] holds every brand
    name of the table once ([__proto__] apart), [data] holds at each
    position the total of the brand named at that position, and the
    labels come in the order of the brands' first rows when no brand
    name is an array index (a canonical number below 2^32 - 1), which
    [Object.keys] would list first. *)
Theorem chart_lists_totals :
  forall (rc : string -> string -> option nat) (guarded : bool)
         (marcas : list Marca) (rs : list Respuesta) (d : Dashboard),
    aggregate rc guarded marcas rs = Some d ->
    Permutation (labels (pieChartData d)) (registry_names marcas) /\
    (forallb (fun m => negb (array_index (nombre_marca m))) marcas = true ->
     labels (pieChartData d) = registry_names marcas) /\
    (forall i name,
       nth_error (labels (pieChartData d)) i = Some name ->
       nth_error (data (pieChartData d)) i =
         Some (JNum (total_of rc marcas rs name))).
Proof.
  intros rc guarded marcas rs d Hd.
  pose proof (aggregate_counters rc guarded marcas rs d Hd) as Hcount.
  pose proof (count_mentions_total_keys rc guarded marcas rs _ Hcount) as Hkeys.
  simpl in Hkeys.
  assert (Hchart : labels (pieChartData d) = Object_keys (brandMentions d) /\
                   data (pieChartData d) = Object_values (brandMentions d)).
  { unfold aggregate in Hd.
    destruct (count_mentions rc guarded marcas rs) as [[bm mbm] |]; [| discriminate].
    inversion Hd; subst d. simpl. auto. }
  destruct Hchart as [Hlabels Hdata]. rewrite Hlabels, Hdata.
  unfold Object_keys, Object_values. splits.
  - rewrite <- Hkeys. apply Permutation_map, own_entries_perm.
  - intros Hplain. rewrite own_entries_plain; [exact Hkeys |].
    apply forallb_forall. intros [k v] Hin. simpl.
    assert (Hk : In k (registry_names marcas)).
    { rewrite <- Hkeys. apply (in_map fst) in Hin. exact Hin. }
    apply registry_names_In in Hk. destruct Hk as (_ & m & Hm & <-).
    rewrite forallb_forall in Hplain. apply (Hplain m Hm).
  - intros i name Hname.
    destruct (nth_error (map snd (own_entries (brandMentions d))) i) as [v |] eqn:Hv.
    2:{ rewrite nth_error_map in Hname, Hv.
        destruct (nth_error (own_entries (brandMentions d)) i); discriminate. }
    pose proof (nth_error_entry _ _ _ _ Hname Hv) as Hentry.
    apply nth_error_In in Hentry.
    apply (Permutation_in _ (own_entries_perm (brandMentions d))) in Hentry.
    apply own_get_of_entry in Hentry;
      [| rewrite Hkeys; apply registry_names_NoDup].
    assert (Hk : In name (registry_names marcas)).
    { rewrite <- Hkeys.
      destruct (in_dec string_dec name (map fst (brandMentions d))) as [H | H];
        [exact H |].
      rewrite (own_get_not_key _ _ H) in Hentry. discriminate. }
    apply registry_names_In in Hk. destruct Hk as (Hp & m & Hm & <-).
    rewrite (aggregate_total_of rc guarded marcas rs d m Hd Hm Hp) in Hentry.
    congruence.
Qed.

(** The theorem on [sample_tables]. *)
Lemma chart_lists_totals_witness :
  aggregate modelled_count true (marcas sample_tables) (respuestas sample_tables)
    = Some sample_dashboard /\
  Permutation (labels (pieChartData sample_dashboard))
              (registry_names (marcas sample_tables)) /\
  (forallb (fun m => negb (array_index (nombre_marca m))) (marcas sample_tables) = true ->
   labels (pieChartData sample_dashboard) = registry_names (marcas sample_tables)) /\
  (forall i name,
     nth_error (labels (pieChartData sample_dashboard)) i = Some name ->
     nth_error (data (pieChartData sample_dashboard)) i =
       Some (JNum (total_of modelled_count (marcas sample_tables)
                            (respuestas sample_tables) name))).
Proof.
  split; [vm_compute; reflexivity |].
  apply (chart_lists_totals modelled_count true (marcas sample_tables)
           (respuestas sample_tables) sample_dashboard).
  vm_compute. reflexivity.
Defined.

(* ================================================================== *)
(** * Further properties of the count *)
(* ================================================================== *)

Lemma same_letter_lower (a b : ascii) :
  same_letter a b = true -> lower_unit a = lower_unit b.
Proof.
  unfold same_letter, lower_unit. cbv zeta.
  pose proof (ascii_nat_embedding a) as Ea.
  pose proof (ascii_nat_embedding b) as Eb.
  remember (nat_of_ascii a) as x eqn:Hx.
  remember (nat_of_ascii b) as y eqn:Hy.
  rewrite <- Ea, <- Eb. clear Ea Eb Hx Hy.
  repeat match goal with
         | |- context [?n <=? ?m] => destruct (Nat.leb_spec n m)
         | |- context [?n =? ?m] => destruct (Nat.eqb_spec n m)
         end;
    simpl; intros Hsame; try discriminate; try (exfalso; lia);
    try reflexivity; try (f_equal; lia).
Qed.

Lemma same_but_case_lower (s s' : string) :
  same_but_case s s' -> toLowerCase s = toLowerCase s'.
Proof.
  unfold same_but_case, units. revert s'.
  induction s as [| c s IH]; intros [| c' s'] H; simpl in H; inversion H; subst.
  - reflexivity.
  - simpl. rewrite (same_letter_lower c c'), (IH s'); auto.
Qed.

Lemma count_answer_case (rc : string -> string -> option nat) (guarded : bool)
      (marcas : list Marca) (st : counters) (r r' : Respuesta) :
  same_answer_but_case r r' ->
  count_answer rc guarded marcas st r = count_answer rc guarded marcas st r'.
Proof.
  intros (_ & Hm & Ht). unfold count_answer.
  rewrite (same_but_case_lower _ _ Ht), Hm. reflexivity.
Qed.

Lemma count_of_case (rc : string -> string -> option nat) (m m' : Marca)
      (r r' : Respuesta) :
  same_but_case (nombre_marca m) (nombre_marca m') ->
  same_answer_but_case r r' ->
  count_of rc m r = count_of rc m' r'.
Proof.
  intros Hn (_ & _ & Ht). unfold count_of.
  rewrite (same_but_case_lower _ _ Hn), (same_but_case_lower _ _ Ht). reflexivity.
Qed.

(** X8.  The dashboard does not depend on the case of the letters A-Z:
    stored answers whose texts differ in the case of such letters only
    give the same dashboard, whatever the engine, and a brand written
    in another case has the same count in every answer, since the route
    lower-cases the text and the name before it matches. *)
Theorem dashboard_ignores_case :
  forall (rc : string -> string -> option nat) (guarded : bool)
         (marcas : list Marca) (rs rs' : list Respuesta) (m m' : Marca),
    Forall2 same_answer_but_case rs rs' ->
    same_but_case (nombre_marca m) (nombre_marca m') ->
    aggregate rc guarded marcas rs = aggregate rc guarded marcas rs' /\
    map (count_of rc m) rs = map (count_of rc m') rs' /\
    (forall texto texto',
       same_but_case texto texto' ->
       mentions_of (nombre_marca m) texto = mentions_of (nombre_marca m') texto').
Proof.
  intros rc guarded marcas rs rs' m m' Hrs Hn. splits.
  - unfold aggregate, count_mentions.
    rewrite (Forall2_length Hrs).
    generalize (init_counters marcas) as st. intros st.
    assert (Hloop : for_each (count_answer rc guarded marcas) rs st
                    = for_each (count_answer rc guarded marcas) rs' st).
    { revert st. induction Hrs as [| r r' rs rs' Hr _ IH]; intros st; simpl.
      - reflexivity.
      - rewrite (count_answer_case rc guarded marcas st r r' Hr).
        destruct (count_answer rc guarded marcas st r'); [apply IH | reflexivity]. }
    rewrite Hloop. reflexivity.
  - induction Hrs as [| r r' rs rs' Hr _ IH]; simpl; [reflexivity |].
    rewrite (count_of_case rc m m' r r' Hn Hr), IH. reflexivity.
  - intros texto texto' Ht. unfold mentions_of.
    rewrite (same_but_case_lower _ _ Hn), (same_but_case_lower _ _ Ht). reflexivity.
Qed.

(** The theorem for the brand "Nike", written "NIKE", and one answer
    in two spellings: both dashboards count the brand twice. *)
Lemma dashboard_ignores_case_witness :
  let rs := [respuesta 1 "Gemini" "Nike and NIKE"] in
  let rs' := [respuesta 1 "Gemini" "nIKE AND nike"] in
  Forall2 same_answer_but_case rs rs' /\
  same_but_case "Nike" "NIKE" /\
  aggregate modelled_count true [marca "Nike"] rs = Some linked_dashboard /\
  aggregate modelled_count true [marca "Nike"] rs
    = aggregate modelled_count true [marca "Nike"] rs' /\
  map (count_of modelled_count (marca "Nike")) rs
    = map (count_of modelled_count (marca "NIKE")) rs' /\
  (forall texto texto',
     same_but_case texto texto' ->
     mentions_of "Nike" texto = mentions_of "NIKE" texto').
Proof.
  cbv zeta.
  assert (Hrs : Forall2 same_answer_but_case
                  [respuesta 1 "Gemini" "Nike and NIKE"]
                  [respuesta 1 "Gemini" "nIKE AND nike"]).
  { constructor; [| constructor].
    unfold same_answer_but_case, same_but_case. simpl. repeat constructor. }
  assert (Hn : same_but_case "Nike" "NIKE").
  { unfold same_but_case. simpl. repeat constructor. }
  split; [exact Hrs |]. split; [exact Hn |]. split; [vm_compute; reflexivity |].
  exact (dashboard_ignores_case modelled_count true [marca "Nike"]
           [respuesta 1 "Gemini" "Nike and NIKE"]
           [respuesta 1 "Gemini" "nIKE AND nike"]
           (marca "Nike") (marca "NIKE") Hrs Hn).
Defined.

Lemma units_length (s : string) : List.length (units s) = String.length s.
Proof.
  unfold units. induction s as [| c s IH]; simpl; [reflexivity |].
  rewrite IH. reflexivity.
Qed.

Lemma prefix_of_spec (needle hay : list ascii) :
  prefix_of needle hay = true <-> exists post, hay = needle ++ post.
Proof.
  revert hay. induction needle as [| x needle IH]; intros hay; simpl.
  - split; [intros _; exists hay; reflexivity | reflexivity].
  - destruct hay as [| y hay].
    + split; [discriminate | intros [post H]; discriminate].
    + rewrite andb_true_iff, IH. split.
      * intros [Heq [post ->]]. apply Ascii.eqb_eq in Heq. subst y.
        exists post. reflexivity.
      * intros [post H]. inversion H; subst. split; [apply Ascii.eqb_refl | eauto].
Qed.

Lemma occurrences_found (needle : list ascii) (k : nat) (hay : list ascii) :
  0 < occurrences_from needle k hay ->
  exists pre post, hay = pre ++ needle ++ post.
Proof.
  revert k. induction hay as [| c hay IH]; intros k; simpl; [lia |].
  destruct k as [| k].
  - destruct (prefix_of needle (c :: hay)) eqn:Hpre.
    + intros _. apply prefix_of_spec in Hpre. destruct Hpre as [post ->].
      exists [], post. reflexivity.
    + intros H. destruct (IH 0 H) as (pre & post & ->).
      exists (c :: pre), post. reflexivity.
  - intros H. destruct (IH k H) as (pre & post & ->).
    exists (c :: pre), post. reflexivity.
Qed.

Lemma occurrences_of_substring (needle pre post : list ascii) :
  needle <> [] ->
  0 < occurrences_from needle 0 (pre ++ needle ++ post).
Proof.
  intros Hne. induction pre as [| c pre IH].
  - simpl. destruct needle as [| x needle]; [contradiction |].
    cbn [app occurrences_from].
    assert (Hpre : prefix_of (x :: needle) (x :: needle ++ post) = true).
    { apply prefix_of_spec. exists post. reflexivity. }
    rewrite Hpre. lia.
  - cbn [app occurrences_from].
    destruct (prefix_of needle (c :: pre ++ needle ++ post)); [lia | exact IH].
Qed.

(** X9.  Matching is by substring: a brand name without syntax
    characters is counted at least once in an answer exactly when the
    lower-cased name occurs somewhere in the lower-cased text, inside a
    longer word or not. *)
Theorem mentioned_iff_substring :
  forall nombre texto : string,
    nombre <> EmptyString ->
    syntax_free nombre = true ->
    (exists n, mentions_of nombre texto = Count (S n)) <->
    (exists pre post,
       units (toLowerCase texto) = pre ++ units (toLowerCase nombre) ++ post).
Proof.
  intros nombre texto Hne Hfree.
  rewrite (mentions_of_plain_name nombre texto Hne Hfree).
  unfold literal_occurrences. split.
  - intros [n Hn]. inversion Hn as [Hocc].
    apply (occurrences_found _ 0). rewrite Hocc. lia.
  - intros (pre & post & Heq). rewrite Heq.
    pose proof (occurrences_of_substring (units (toLowerCase nombre)) pre post) as H.
    destruct (occurrences_from (units (toLowerCase nombre)) 0
                (pre ++ units (toLowerCase nombre) ++ post)) as [| n].
    + exfalso. assert (0 < 0); [| lia]. apply H.
      intros Hnil. apply (toLowerCase_not_empty _ Hne), units_empty, Hnil.
    + exists n. reflexivity.
Qed.

(** The theorem for the brand "co" in a text with "company". *)
Lemma mentioned_iff_substring_witness :
  "co" <> EmptyString /\
  syntax_free "co" = true /\
  ((exists n, mentions_of "co" "A Company" = Count (S n)) <->
   (exists pre post,
      units (toLowerCase "A Company") = pre ++ units (toLowerCase "co") ++ post)).
Proof.
  split; [discriminate |]. split; [reflexivity |].
  apply (mentioned_iff_substring "co" "A Company"); [discriminate | reflexivity].
Defined.

Lemma occurrences_bound (needle : list ascii) (k : nat) (hay : list ascii) :
  needle <> [] ->
  occurrences_from needle k hay * List.length needle + Nat.min k (List.length hay)
  <= List.length hay.
Proof.
  intros Hne. revert k. induction hay as [| c hay IH]; intros k.
  - simpl. lia.
  - cbn [occurrences_from List.length]. destruct k as [| k].
    + destruct (prefix_of needle (c :: hay)) eqn:Hpre.
      * apply prefix_of_length in Hpre. cbn [List.length] in Hpre.
        specialize (IH (List.length needle - 1)).
        assert (0 < List.length needle) by (destruct needle; [contradiction | simpl; lia]).
        lia.
      * specialize (IH 0). lia.
    + specialize (IH k). lia.
Qed.

(** X10.  A brand name without syntax characters is never counted more
    often than it fits into the answer: the count times the length of
    the lower-cased name is at most the length of the lower-cased text,
    the two strings that the route matches. *)
Theorem count_fits_text :
  forall (nombre texto : string) (n : nat),
    nombre <> EmptyString ->
    syntax_free nombre = true ->
    mentions_of nombre texto = Count n ->
    n * String.length (toLowerCase nombre) <= String.length (toLowerCase texto).
Proof.
  intros nombre texto n Hne Hfree.
  rewrite (mentions_of_plain_name nombre texto Hne Hfree).
  intros H. inversion H as [Hn]. unfold literal_occurrences.
  pose proof (occurrences_bound (units (toLowerCase nombre)) 0
                (units (toLowerCase texto))) as Hbound.
  rewrite !units_length in Hbound.
  assert (units (toLowerCase nombre) <> []).
  { intros Hnil. apply (toLowerCase_not_empty _ Hne), units_empty, Hnil. }
  specialize (Hbound H0). lia.
Qed.

(** The theorem for "AA" in "aaaaa". *)
Lemma count_fits_text_witness :
  "AA" <> EmptyString /\
  syntax_free "AA" = true /\
  mentions_of "AA" "aaaaa" = Count 2 /\
  2 * String.length (toLowerCase "AA") <= String.length (toLowerCase "aaaaa").
Proof.
  split; [discriminate |]. split; [reflexivity |]. split; [vm_compute; reflexivity |].
  apply (count_fits_text "AA" "aaaaa" 2);
    [discriminate | reflexivity | vm_compute; reflexivity].
Defined.

(* ================================================================== *)
(** * Further properties of the question intake *)
(* ================================================================== *)

Section IntakeCases.

Variable cl : string -> string -> option string.

(** The part of a route after validation, for any placeholder, any
    message of the failed insert and any way to build the response. *)
Lemma intake_cases_reached (ph : string -> string) (message : string)
      (respond : Pregunta -> obj string -> Response) (input : option string)
      (w : World) :
  falsy input = false ->
  (forall p o, status (respond p o) = 200) ->
  intake_cases cl input w
    ((saved <- insert_pregunta (text_of input) ;;
      match saved with
      | None => ret (res 500 (ErrorBody message))
      | Some pregunta =>
          o <- ask_models cl ph (id pregunta) (text_of input) models [] ;;
          ret (respond pregunta o)
      end) w).
Proof.
  intros Hfalsy Hstatus. unfold intake_cases, bind at 1, insert_pregunta, next_fault.
  destruct (faults w) as [| [|] fs] eqn:Hfs; cbn [fst snd].
  - (* no outcome scripted: the insert succeeds *)
    unfold bind at 1.
    match goal with
    | |- context [ask_models cl ph ?i ?q models [] ?w1] =>
        destruct (ask_models cl ph i q models [] w1) as [[o w2] tr2] eqn:Hloop
    end.
    apply ask_models_spec in Hloop.
    destruct Hloop as (_ & Hp & Hm & _ & Hr & _ & Hc & _).
    cbn [tables preguntas marcas respuestas faults id] in *.
    right. right. unfold ret. cbn [hd tl].
    splits; auto.
    + rewrite Hr, Hfs. reflexivity.
    + cbn [app provider_calls filter is_call]. rewrite app_nil_r. exact Hc.
  - right. left. unfold ret. cbn [hd]. splits; auto.
  - unfold bind at 1.
    match goal with
    | |- context [ask_models cl ph ?i ?q models [] ?w1] =>
        destruct (ask_models cl ph i q models [] w1) as [[o w2] tr2] eqn:Hloop
    end.
    apply ask_models_spec in Hloop.
    destruct Hloop as (_ & Hp & Hm & _ & Hr & _ & Hc & _).
    cbn [tables preguntas marcas respuestas faults id] in *.
    right. right. unfold ret. cbn [hd tl].
    splits; auto.
    cbn [app provider_calls filter is_call]. rewrite app_nil_r. exact Hc.
Qed.

Lemma post_preguntar_v1_cases (input : option string) (w : World) :
  intake_cases cl input w (post_preguntar_v1 cl input w).
Proof.
  unfold post_preguntar_v1. destruct (falsy input) eqn:Hfalsy.
  - unfold intake_cases, ret. left. auto.
  - cbv zeta.
    apply (intake_cases_reached placeholder_v1 "Failed to save question"
             (fun p o => res 200 (PreguntarBody (id p) (Some (text_of input)) o))
             input w Hfalsy).
    reflexivity.
Qed.

Lemma post_preguntar_v2_cases (input : option string) (w : World) :
  intake_cases cl input w (post_preguntar_v2 cl input w).
Proof.
  unfold post_preguntar_v2. destruct (falsy input) eqn:Hfalsy.
  - unfold intake_cases, ret. left. auto.
  - cbv zeta.
    apply (intake_cases_reached placeholder_v2 "Error al guardar la pregunta"
             (fun p o => res 200 (PreguntarBody (id p) None o))
             input w Hfalsy).
    reflexivity.
Qed.

(** The response of the part of a route after validation, for any way
    to build it that shows the id of the stored question and the result
    map of the loop. *)
Lemma intake_response_reached (ph : string -> string) (message : string)
      (respond : Pregunta -> obj string -> Response) (input : option string)
      (w : World) :
  (forall p o, status (respond p o) = 200) ->
  (forall p o, returned_id (respond p o) = Some (id p)) ->
  (forall p o, returned_map (respond p o) = o) ->
  answers_with_id cl input w
    ((saved <- insert_pregunta (text_of input) ;;
      match saved with
      | None => ret (res 500 (ErrorBody message))
      | Some pregunta =>
          o <- ask_models cl ph (id pregunta) (text_of input) models [] ;;
          ret (respond pregunta o)
      end) w).
Proof.
  intros Hstatus Hid Hmap.
  assert (Hloop : forall p w1 o w2 tr2,
             ask_models cl ph (id p) (text_of input) models [] w1 = (o, w2, tr2) ->
             id p = next_id w ->
             returned_id (respond p o) = Some (next_id w) /\
             forall m g, In m models -> cl m (text_of input) = Some g ->
                         own_get m (returned_map (respond p o)) = Some g).
  { intros p w1 o w2 tr2 Hrun Hp. apply ask_models_spec in Hrun.
    destruct Hrun as (Ho & _). rewrite result_map_models in Ho.
    rewrite Hid, Hmap, Hp. split; [reflexivity |].
    intros m g Hin Hg. rewrite Ho, (result_map_lookup cl ph _ m Hin).
    rewrite (entry_some cl ph _ m g Hg). reflexivity. }
  unfold answers_with_id, bind at 1, insert_pregunta, next_fault.
  destruct (faults w) as [| [|] fs]; cbn [fst snd].
  - unfold bind at 1.
    match goal with
    | |- context [ask_models cl ph ?i ?q models [] ?w1] =>
        destruct (ask_models cl ph i q models [] w1) as [[o w2] tr2] eqn:Hrun
    end.
    unfold ret. cbn [fst snd]. split.
    + intros _. apply (Hloop _ _ _ _ _ Hrun). reflexivity.
    + intros Hs. rewrite Hstatus in Hs. contradiction.
  - unfold ret. cbn [fst snd]. split; [discriminate | reflexivity].
  - unfold bind at 1.
    match goal with
    | |- context [ask_models cl ph ?i ?q models [] ?w1] =>
        destruct (ask_models cl ph i q models [] w1) as [[o w2] tr2] eqn:Hrun
    end.
    unfold ret. cbn [fst snd]. split.
    + intros _. apply (Hloop _ _ _ _ _ Hrun). reflexivity.
    + intros Hs. rewrite Hstatus in Hs. contradiction.
Qed.

Lemma post_preguntar_v1_response (input : option string) (w : World) :
  answers_with_id cl input w (post_preguntar_v1 cl input w).
Proof.
  unfold post_preguntar_v1. destruct (falsy input) eqn:Hfalsy.
  - unfold answers_with_id, ret. split; [discriminate | reflexivity].
  - cbv zeta.
    apply (intake_response_reached placeholder_v1 "Failed to save question"
             (fun p o => res 200 (PreguntarBody (id p) (Some (text_of input)) o))
             input w); reflexivity.
Qed.

Lemma post_preguntar_v2_response (input : option string) (w : World) :
  answers_with_id cl input w (post_preguntar_v2 cl input w).
Proof.
  unfold post_preguntar_v2. destruct (falsy input) eqn:Hfalsy.
  - unfold answers_with_id, ret. split; [discriminate | reflexivity].
  - cbv zeta.
    apply (intake_response_reached placeholder_v2 "Error al guardar la pregunta"
             (fun p o => res 200 (PreguntarBody (id p) None o))
             input w); reflexivity.
Qed.

End IntakeCases.

Lemma generated_rows_providers (cl : string -> string -> option string)
      (pid : nat) (q : string) (l : list string) :
  map modelo_llm (generated_rows cl pid q l) = filter (fun m => is_some (cl m q)) l.
Proof.
  induction l as [| m l IH]; simpl; [reflexivity |].
  destruct (cl m q); simpl; rewrite IH; reflexivity.
Qed.

Lemma kept_NoDup (rows : list Respuesta) (fs : list bool) :
  NoDup (map modelo_llm rows) -> NoDup (map modelo_llm (kept rows fs)).
Proof.
  revert fs. induction rows as [| r rows IH]; intros fs Hnd; simpl; [constructor |].
  inversion Hnd as [| ? ? Hr Hnd']; subst.
  assert (Hnotin : forall fs', ~ In (modelo_llm r) (map modelo_llm (kept rows fs'))).
  { intros fs' Hin. apply Hr. apply in_map_iff in Hin.
    destruct Hin as (x & Hx & Hin). apply kept_incl in Hin.
    rewrite <- Hx. apply in_map, Hin. }
  destruct fs as [| [|] fs]; simpl.
  - constructor; [apply Hnotin | apply IH, Hnd'].
  - apply IH, Hnd'.
  - constructor; [apply Hnotin | apply IH, Hnd'].
Qed.

Lemma kept_rows_of_loop (cl : string -> string -> option string) (pid : nat)
      (q : string) (fs : list bool) :
  NoDup (map modelo_llm (kept (generated_rows cl pid q models) fs)) /\
  forall a, In a (kept (generated_rows cl pid q models) fs) ->
    id_pregunta a = pid /\ In (modelo_llm a) models /\
    cl (modelo_llm a) q = Some (texto_respuesta a).
Proof.
  split.
  - apply kept_NoDup. rewrite generated_rows_providers.
    apply NoDup_filter, models_NoDup.
  - intros a Ha. apply kept_incl in Ha.
    apply (generated_rows_tagged _ _ _ _ _ Ha).
Qed.

(** What [intake_cases] says about the store, for any of the routes. *)
Lemma intake_cases_store (cl : string -> string -> option string)
      (input : option string) (w : World) (run : Response * World * list event) :
  intake_cases cl input w run -> only_appends cl input w run.
Proof.
  destruct run as [[r w'] tr]. unfold intake_cases, only_appends.
  intros [(_ & Hs & -> & _) | [(_ & _ & Hs & Ht & _) | (_ & _ & Hs & Hp & Hr & Hm & _)]].
  - exists [], []. rewrite !app_nil_r. splits; auto.
    + intros H. rewrite Hs in H. discriminate.
    + constructor.
    + intros a [].
  - exists [], []. rewrite !app_nil_r, Ht. splits; auto.
    + intros H. rewrite Hs in H. discriminate.
    + constructor.
    + intros a [].
  - eexists. eexists. splits; [exact Hp | exact Hr | exact Hm | auto | | |].
    + intros H. contradiction.
    + apply kept_rows_of_loop.
    + apply kept_rows_of_loop.
Qed.

(** The store and the response of a request, put together. *)
Lemma stored_and_returned (cl : string -> string -> option string)
      (input : option string) (w : World) (run : Response * World * list event) :
  only_appends cl input w run ->
  answers_with_id cl input w run ->
  stores_what_it_returns cl input w run.
Proof.
  destruct run as [[r w'] tr]. unfold only_appends, answers_with_id, stores_what_it_returns.
  intros (qs & rs & Hp & Hr & Hm & H200 & Hnot & Hnd & Htag) [Hok Herr].
  exists qs, rs. splits; [exact Hp | exact Hr | exact Hm | | | exact Hnd |].
  - intros Hs. destruct (Hok Hs) as [Hid Hshown].
    exists (next_id w). splits; [exact Hid | exact (H200 Hs) |].
    intros a Ha. destruct (Htag a Ha) as (Hi & Hin & Hg).
    split; [exact Hi | exact (Hshown _ _ Hin Hg)].
  - intros Hs. destruct (Hnot Hs) as [Hq Hnil].
    splits; [exact (Herr Hs) | exact Hq | exact Hnil].
  - intros a Ha. destruct (Htag a Ha) as (_ & Hin & Hg).
    split; [exact Hin | exact Hg].
Qed.

(** X11.  A question request only appends, and what it stores is what
    it returns: it changes and removes no stored row and never touches
    the brands.  With status 200 it has stored one question row, under
    the id that the response carries and with the text of the request,
    and at most one answer per provider, each with that id, its
    provider and the generated text that the response shows under that
    provider.  With status 400 or 500 the response carries no id and
    nothing is stored.  This is [stores_what_it_returns], for
    iterations 1, 2 and 3, any input, any gateway and any store. *)
Theorem intake_stores_what_it_returns :
  forall (cl : string -> string -> option string) (input : option string)
         (w : World),
    stores_what_it_returns cl input w (post_preguntar_v1 cl input w) /\
    stores_what_it_returns cl input w (post_preguntar_v2 cl input w) /\
    stores_what_it_returns cl input w (post_preguntar_v3 cl input w).
Proof.
  intros cl input w. splits.
  - apply stored_and_returned;
      [apply intake_cases_store, post_preguntar_v1_cases
      | apply post_preguntar_v1_response].
  - apply stored_and_returned;
      [apply intake_cases_store, post_preguntar_v2_cases
      | apply post_preguntar_v2_response].
  - apply stored_and_returned;
      [apply intake_cases_store; apply post_preguntar_v2_cases
      | apply post_preguntar_v2_response].
Qed.

Lemma only_appends_references (cl : string -> string -> option string)
      (input : option string) (w : World) (run : Response * World * list event) :
  only_appends cl input w run ->
  references_kept (tables w) ->
  references_kept (tables (snd (fst run))).
Proof.
  destruct run as [[r w'] tr]. simpl.
  intros (qs & rs & Hp & Hr & _ & H200 & Hnot & _ & Htag) Hrefs a Ha.
  rewrite Hr in Ha. rewrite Hp. apply in_app_or in Ha. destruct Ha as [Ha | Ha].
  - destruct (Hrefs a Ha) as (p & Hin & Hid).
    exists p. split; [apply in_or_app; left; exact Hin | exact Hid].
  - destruct (Nat.eq_dec (status r) 200) as [Hs | Hs].
    + rewrite (H200 Hs). eexists. split; [apply in_or_app; right; left; reflexivity |].
      simpl. destruct (Htag a Ha) as [Hid _]. symmetry. exact Hid.
    + destruct (Hnot Hs) as [_ Hnil]. rewrite Hnil in Ha. contradiction.
Qed.

(** X12.  Referential integrity is kept: when every stored answer
    references a stored question before a question request, it does so
    after the request, in every iteration and whatever the providers
    and the store do. *)
Theorem intake_keeps_references :
  forall (cl : string -> string -> option string) (input : option string)
         (w : World),
    references_kept (tables w) ->
    references_kept (tables (snd (fst (post_preguntar_v1 cl input w)))) /\
    references_kept (tables (snd (fst (post_preguntar_v2 cl input w)))) /\
    references_kept (tables (snd (fst (post_preguntar_v3 cl input w)))).
Proof.
  intros cl input w Hrefs. splits.
  - apply (only_appends_references cl input w); [| exact Hrefs].
    apply intake_cases_store, post_preguntar_v1_cases.
  - apply (only_appends_references cl input w); [| exact Hrefs].
    apply intake_cases_store, post_preguntar_v2_cases.
  - apply (only_appends_references cl input w); [| exact Hrefs].
    apply intake_cases_store. apply post_preguntar_v2_cases.
Qed.

(** The theorem on [linked_tables], with ChatGPT down and a store that
    loses the first answer. *)
Lemma intake_keeps_references_witness :
  references_kept (tables (world linked_tables 2 [false; true])) /\
  references_kept
    (tables (snd (fst (post_preguntar_v1 (failing ["ChatGPT"]) (Some "hola")
                         (world linked_tables 2 [false; true]))))) /\
  references_kept
    (tables (snd (fst (post_preguntar_v2 (failing ["ChatGPT"]) (Some "hola")
                         (world linked_tables 2 [false; true]))))) /\
  references_kept
    (tables (snd (fst (post_preguntar_v3 (failing ["ChatGPT"]) (Some "hola")
                         (world linked_tables 2 [false; true]))))).
Proof.
  assert (Hrefs : references_kept (tables (world linked_tables 2 [false; true]))).
  { intros a Ha. simpl in Ha. destruct Ha as [<- | []].
    exists {| id := 1; texto_pregunta := "shoes?" |}. simpl. auto. }
  split; [exact Hrefs |].
  apply (intake_keeps_references (failing ["ChatGPT"]) (Some "hola")
           (world linked_tables 2 [false; true]) Hrefs).
Defined.

Lemma intake_cases_calls (cl : string -> string -> option string)
      (input : option string) (w : World) (run : Response * World * list event) :
  intake_cases cl input w run -> calls_every_provider cl input run.
Proof.
  destruct run as [[r w'] tr]. unfold intake_cases, calls_every_provider.
  intros [(_ & Hs & _ & ->) | [(_ & _ & Hs & _ & ->) | (_ & _ & Hs & _ & _ & _ & Hc)]].
  - split; [intros H; rewrite Hs in H; discriminate | reflexivity].
  - split; [intros H; rewrite Hs in H; discriminate | reflexivity].
  - split; [intros _; exact Hc | intros H; contradiction].
Qed.

(** X13.  Provider failures are isolated and nothing is retried: a
    question request that answers 200 has called every provider exactly
    once, in the order Gemini, ChatGPT, Claude and with the text of the
    question, whichever of them failed and whatever the Answer inserts
    did; a request that answers 400 or 500 has called no provider. *)
Theorem intake_calls_every_provider_once :
  forall (cl : string -> string -> option string) (input : option string)
         (w : World),
    calls_every_provider cl input (post_preguntar_v1 cl input w) /\
    calls_every_provider cl input (post_preguntar_v2 cl input w) /\
    calls_every_provider cl input (post_preguntar_v3 cl input w).
Proof.
  intros cl input w. splits.
  - apply (intake_cases_calls cl input w), post_preguntar_v1_cases.
  - apply (intake_cases_calls cl input w), post_preguntar_v2_cases.
  - apply (intake_cases_calls cl input w). apply post_preguntar_v2_cases.
Qed.

(** X14.  With the mock answers that the repository ships, no provider
    ever fails: every question that passes validation and is stored gets
    status 200 and three generated texts that quote it, and no
    placeholder, in iteration 1 with its mock and in iterations 2 and 3
    with theirs. *)
Theorem mock_gateway_never_fails :
  forall (texto : string) (w : World),
    texto <> EmptyString ->
    hd false (faults w) = false ->
    failed_providers (callLLMAPI_mock mockLLMResponses_v1) texto = [] /\
    failed_providers (callLLMAPI_mock mockLLMResponses_v2) texto = [] /\
    fst (fst (post_preguntar_v1 (callLLMAPI_mock mockLLMResponses_v1) (Some texto) w))
      = res 200 (PreguntarBody (next_id w) (Some texto)
          [("Gemini", ("Gemini response to: " ++ dq ++ texto ++ dq ++
              ". This is a sample response that might mention Nike shoes and Apple products.")%string);
           ("ChatGPT", ("ChatGPT response to: " ++ dq ++ texto ++ dq ++
              ". Here's a detailed answer that could reference Adidas clothing and Samsung devices.")%string);
           ("Claude", ("Claude response to: " ++ dq ++ texto ++ dq ++
              ". This comprehensive answer may include mentions of Coca-Cola products and various brands.")%string)]) /\
    fst (fst (post_preguntar_v2 (callLLMAPI_mock mockLLMResponses_v2) (Some texto) w))
      = res 200 (PreguntarBody (next_id w) None
          [("Gemini", ("Gemini response to: " ++ dq ++ texto ++ dq)%string);
           ("ChatGPT", ("ChatGPT response to: " ++ dq ++ texto ++ dq)%string);
           ("Claude", ("Claude response to: " ++ dq ++ texto ++ dq)%string)]) /\
    fst (fst (post_preguntar_v3 (callLLMAPI_mock mockLLMResponses_v2) (Some texto) w))
      = fst (fst (post_preguntar_v2 (callLLMAPI_mock mockLLMResponses_v2) (Some texto) w)).
Proof.
  intros texto w Hne Hok. splits.
  - reflexivity.
  - reflexivity.
  - pose proof (post_preguntar_v1_outcome (callLLMAPI_mock mockLLMResponses_v1)
                  texto w Hne Hok) as H.
    unfold fan_out_outcome in H.
    destruct (post_preguntar_v1 (callLLMAPI_mock mockLLMResponses_v1) (Some texto) w)
      as [[r w'] tr].
    destruct H as [H _]. exact H.
  - pose proof (post_preguntar_v2_outcome (callLLMAPI_mock mockLLMResponses_v2)
                  texto w Hne Hok) as H.
    unfold fan_out_outcome in H.
    destruct (post_preguntar_v2 (callLLMAPI_mock mockLLMResponses_v2) (Some texto) w)
      as [[r w'] tr].
    destruct H as [H _]. exact H.
  - reflexivity.
Qed.

(** The theorem for the question "hola". *)
Lemma mock_gateway_never_fails_witness :
  "hola" <> EmptyString /\
  hd false (faults (world empty_tables 1 [])) = false /\
  failed_providers (callLLMAPI_mock mockLLMResponses_v1) "hola" = [] /\
  failed_providers (callLLMAPI_mock mockLLMResponses_v2) "hola" = [] /\
  fst (fst (post_preguntar_v1 (callLLMAPI_mock mockLLMResponses_v1) (Some "hola")
              (world empty_tables 1 [])))
    = res 200 (PreguntarBody 1 (Some "hola")
        [("Gemini", ("Gemini response to: " ++ dq ++ "hola" ++ dq ++
            ". This is a sample response that might mention Nike shoes and Apple products.")%string);
         ("ChatGPT", ("ChatGPT response to: " ++ dq ++ "hola" ++ dq ++
            ". Here's a detailed answer that could reference Adidas clothing and Samsung devices.")%string);
         ("Claude", ("Claude response to: " ++ dq ++ "hola" ++ dq ++
            ". This comprehensive answer may include mentions of Coca-Cola products and various brands.")%string)]) /\
  fst (fst (post_preguntar_v2 (callLLMAPI_mock mockLLMResponses_v2) (Some "hola")
              (world empty_tables 1 [])))
    = res 200 (PreguntarBody 1 None
        [("Gemini", ("Gemini response to: " ++ dq ++ "hola" ++ dq)%string);
         ("ChatGPT", ("ChatGPT response to: " ++ dq ++ "hola" ++ dq)%string);
         ("Claude", ("Claude response to: " ++ dq ++ "hola" ++ dq)%string)]) /\
  fst (fst (post_preguntar_v3 (callLLMAPI_mock mockLLMResponses_v2) (Some "hola")
              (world empty_tables 1 [])))
    = fst (fst (post_preguntar_v2 (callLLMAPI_mock mockLLMResponses_v2) (Some "hola")
                  (world empty_tables 1 []))).
Proof.
  split; [discriminate |]. split; [reflexivity |].
  apply (mock_gateway_never_fails "hola" (world empty_tables 1 []));
    [discriminate | reflexivity].
Defined.

(** ** A question request and then the dashboard *)

Lemma total_of_app (rc : string -> string -> option nat) (marcas : list Marca)
      (rs rs' : list Respuesta) (name : string) :
  total_of rc marcas (rs ++ rs') name =
  total_of rc marcas rs name + total_of rc marcas rs' name.
Proof.
  unfold total_of. rewrite map_app, list_sum_app. reflexivity.
Qed.

Lemma only_appends_stored (cl : string -> string -> option string)
      (input : option string) (w : World) (run : Response * World * list event) :
  only_appends cl input w run ->
  marcas (tables (snd (fst run))) = marcas (tables w) /\
  respuestas (tables (snd (fst run))) =
    respuestas (tables w) ++ stored_by w (snd (fst run)).
Proof.
  destruct run as [[r w'] tr]. simpl.
  intros (qs & rs & _ & Hr & Hm & _). split; [exact Hm |].
  unfold stored_by. rewrite Hr at 2. rewrite skipn_app, skipn_all, Nat.sub_diag.
  simpl. exact Hr.
Qed.

Lemma dashboard_after_append (rc : string -> string -> option nat) (guarded : bool)
      (ms : list Marca) (rs new : list Respuesta) (d d' : Dashboard) (m : Marca) :
  aggregate rc guarded ms rs = Some d ->
  aggregate rc guarded ms (rs ++ new) = Some d' ->
  In m ms ->
  nombre_marca m <> "__proto__" ->
  exists t,
    own_get (nombre_marca m) (brandMentions d) = Some (JNum t) /\
    own_get (nombre_marca m) (brandMentions d') =
      Some (JNum (t + total_of rc ms new (nombre_marca m))).
Proof.
  intros Hd Hd' Hin Hp.
  exists (total_of rc ms rs (nombre_marca m)). split.
  - apply (aggregate_total_of rc guarded ms rs d m Hd Hin Hp).
  - rewrite <- total_of_app.
    apply (aggregate_total_of rc guarded ms (rs ++ new) d' m Hd' Hin Hp).
Qed.

(** X15.  The dashboard after a question request is the dashboard
    before plus the answers the request stored: the total of every
    brand grows by the counts of the brand in those answers and by
    nothing else (by nothing when the request was rejected or when no
    answer was stored).  For the request of iteration 1 and the
    dashboard of any iteration; a brand named [__proto__] is left
    aside, it has no total in the result. *)
Theorem dashboard_after_request :
  forall (cl : string -> string -> option string)
         (rc : string -> string -> option nat) (guarded : bool)
         (input : option string) (w : World) (d d' : Dashboard) (m : Marca),
    let w' := snd (fst (post_preguntar_v1 cl input w)) in
    aggregate rc guarded (marcas (tables w)) (respuestas (tables w)) = Some d ->
    aggregate rc guarded (marcas (tables w')) (respuestas (tables w')) = Some d' ->
    In m (marcas (tables w)) ->
    nombre_marca m <> "__proto__" ->
    exists t,
      own_get (nombre_marca m) (brandMentions d) = Some (JNum t) /\
      own_get (nombre_marca m) (brandMentions d') =
        Some (JNum (t + total_of rc (marcas (tables w)) (stored_by w w')
                                 (nombre_marca m))).
Proof.
  intros cl rc guarded input w d d' m w' Hd Hd' Hin Hp.
  destruct (only_appends_stored cl input w (post_preguntar_v1 cl input w))
    as [Hm Hr].
  { apply intake_cases_store, post_preguntar_v1_cases. }
  fold w' in Hm, Hr. rewrite Hm, Hr in Hd'.
  apply (dashboard_after_append rc guarded _ _ _ d d' m Hd Hd' Hin Hp).
Qed.

(** The theorem on [linked_tables]: the mock answer of Gemini mentions
    Nike once. *)
Lemma dashboard_after_request_witness :
  let cl := callLLMAPI_mock mockLLMResponses_v1 in
  let w := world linked_tables 2 [] in
  let w' := snd (fst (post_preguntar_v1 cl (Some "hola") w)) in
  aggregate modelled_count true (marcas (tables w)) (respuestas (tables w))
    = Some linked_dashboard /\
  aggregate modelled_count true (marcas (tables w')) (respuestas (tables w'))
    = Some linked_dashboard_after /\
  In (marca "Nike") (marcas (tables w)) /\
  nombre_marca (marca "Nike") <> "__proto__" /\
  exists t,
    own_get "Nike" (brandMentions linked_dashboard) = Some (JNum t) /\
    own_get "Nike" (brandMentions linked_dashboard_after) =
      Some (JNum (t + total_of modelled_count (marcas (tables w)) (stored_by w w')
                               "Nike")).
Proof.
  cbv zeta.
  split; [vm_compute; reflexivity |]. split; [vm_compute; reflexivity |].
  split; [simpl; auto |]. split; [discriminate |].
  apply (dashboard_after_request (callLLMAPI_mock mockLLMResponses_v1)
           modelled_count true (Some "hola") (world linked_tables 2 [])
           linked_dashboard linked_dashboard_after (marca "Nike")).
  - vm_compute. reflexivity.
  - vm_compute. reflexivity.
  - simpl. auto.
  - discriminate.
Defined.

(* ================================================================== *)
(** * The brand registry *)
(* ================================================================== *)

Lemma post_marcas_outcome (required failed : string) (name : option string)
      (w : World) :
  marcas_outcome required failed name w (post_marcas required failed name w).
Proof.
  unfold marcas_outcome, post_marcas.
  destruct (falsy name) eqn:Hfalsy.
  - splits; auto.
  - unfold insert_marca, next_fault.
    destruct (faults w) as [| [|] fs]; simpl; splits; auto.
    + right. right. auto.
    + right. left. auto.
    + right. right. auto.
Qed.

(** X16.  [POST /api/marcas] answers 400 for an empty or a missing name
    and leaves the world as it was; when the store rejects the insert
    it answers 500 and no brand is added; otherwise it answers 200 with
    the created row, which is appended to the brands.  It never touches
    the questions or the answers.  This is [marcas_outcome], for the
    three iterations with their messages. *)
Theorem post_marcas_outcomes :
  forall (name : option string) (w : World),
    marcas_outcome "nombre_marca is required" "Failed to add brand" name w
      (post_marcas_v1 name w) /\
    marcas_outcome "nombre_marca requerido" "Error al guardar marca" name w
      (post_marcas_v2 name w) /\
    marcas_outcome "nombre_marca requerido" "Error al guardar marca" name w
      (post_marcas_v3 name w).
Proof.
  intros name w. splits; apply post_marcas_outcome.
Qed.

Lemma brand_count_new_row (rc : string -> string -> option nat)
      (ms : list Marca) (row : Marca) (name : string) (r : Respuesta) :
  brand_count rc (ms ++ [row]) name r =
  brand_count rc ms name r +
  (if String.eqb (nombre_marca row) name then count_of rc row r else 0).
Proof.
  unfold brand_count. rewrite filter_app, map_app, list_sum_app. simpl.
  destruct (String.eqb (nombre_marca row) name); simpl; lia.
Qed.

Lemma total_of_new_row (rc : string -> string -> option nat)
      (ms : list Marca) (row : Marca) (name : string) (rs : list Respuesta) :
  total_of rc (ms ++ [row]) rs name =
  total_of rc ms rs name +
  (if String.eqb (nombre_marca row) name
   then list_sum (map (count_of rc row) rs) else 0).
Proof.
  unfold total_of. induction rs as [| r rs IH]; simpl.
  - destruct (String.eqb (nombre_marca row) name); reflexivity.
  - rewrite IH, brand_count_new_row.
    destruct (String.eqb (nombre_marca row) name); lia.
Qed.

(** X17.  A brand added through [POST /api/marcas] is counted by the
    next dashboard over all stored answers, those stored before the
    brand was added included: its total is the sum of its counts in
    every stored answer, on top of the total that rows of the same name
    had already.  The totals of the brands with another name do not
    change.  The name [__proto__] is left aside, for the added brand
    and for the others: the dashboard reports no total under it. *)
Theorem added_brand_is_counted :
  forall (rc : string -> string -> option nat) (guarded : bool) (name : string)
         (w : World) (d d' : Dashboard),
    let w' := snd (post_marcas_v1 (Some name) w) in
    name <> EmptyString ->
    name <> "__proto__" ->
    hd false (faults w) = false ->
    aggregate rc guarded (marcas (tables w)) (respuestas (tables w)) = Some d ->
    aggregate rc guarded (marcas (tables w')) (respuestas (tables w')) = Some d' ->
    own_get name (brandMentions d') =
      Some (JNum (total_of rc (marcas (tables w)) (respuestas (tables w)) name
                  + list_sum (map (count_of rc (marca name)) (respuestas (tables w)))))
    /\
    forall m, In m (marcas (tables w)) ->
      nombre_marca m <> name -> nombre_marca m <> "__proto__" ->
      own_get (nombre_marca m) (brandMentions d') =
      own_get (nombre_marca m) (brandMentions d).
Proof.
  intros rc guarded name w d d' w' Hne Hproto Hok Hd Hd'.
  pose proof (post_marcas_outcome "nombre_marca is required" "Failed to add brand"
                (Some name) w) as Hout.
  unfold marcas_outcome in Hout. fold (post_marcas_v1 (Some name) w) in Hout.
  destruct (post_marcas_v1 (Some name) w) as [r w1] eqn:Hrun.
  simpl in w'. subst w'.
  destruct Hout as (_ & Hr & _ & Hcases).
  assert (Hm : marcas (tables w1) = marcas (tables w) ++ [marca name]).
  { destruct Hcases as [(Hf & _) | [(_ & Hbad & _) | (_ & _ & _ & Hm)]].
    - rewrite (falsy_text _ Hne) in Hf. discriminate.
    - congruence.
    - exact Hm. }
  rewrite Hm, Hr in Hd'. split.
  - assert (Hin : In (marca name) (marcas (tables w) ++ [marca name])).
    { apply in_or_app. right. left. reflexivity. }
    pose proof (aggregate_total_of rc guarded _ _ d' (marca name) Hd' Hin Hproto)
      as Htotal.
    simpl in Htotal. rewrite Htotal, total_of_new_row. simpl.
    rewrite String.eqb_refl. reflexivity.
  - intros m Hin Hother Hp.
    rewrite (aggregate_total_of rc guarded _ _ d m Hd Hin Hp).
    assert (Hin' : In m (marcas (tables w) ++ [marca name])).
    { apply in_or_app. left. exact Hin. }
    rewrite (aggregate_total_of rc guarded _ _ d' m Hd' Hin' Hp).
    rewrite total_of_new_row. simpl.
    destruct (String.eqb_spec name (nombre_marca m)) as [Heq | _];
      [congruence | rewrite Nat.add_0_r; reflexivity].
Qed.

(** The theorem on [linked_tables], for the new brand "and". *)
Lemma added_brand_is_counted_witness :
  let w := world linked_tables 2 [] in
  let w' := snd (post_marcas_v1 (Some "and") w) in
  "and" <> EmptyString /\
  "and" <> "__proto__" /\
  hd false (faults w) = false /\
  aggregate modelled_count true (marcas (tables w)) (respuestas (tables w))
    = Some linked_dashboard /\
  aggregate modelled_count true (marcas (tables w')) (respuestas (tables w'))
    = Some linked_dashboard_and /\
  own_get "and" (brandMentions linked_dashboard_and) =
    Some (JNum (total_of modelled_count (marcas (tables w)) (respuestas (tables w)) "and"
                + list_sum (map (count_of modelled_count (marca "and"))
                                (respuestas (tables w))))) /\
  forall m, In m (marcas (tables w)) ->
    nombre_marca m <> "and" -> nombre_marca m <> "__proto__" ->
    own_get (nombre_marca m) (brandMentions linked_dashboard_and) =
    own_get (nombre_marca m) (brandMentions linked_dashboard).
Proof.
  cbv zeta.
  split; [discriminate |]. split; [discriminate |]. split; [reflexivity |].
  split; [vm_compute; reflexivity |]. split; [vm_compute; reflexivity |].
  apply (added_brand_is_counted modelled_count true "and" (world linked_tables 2 [])
           linked_dashboard linked_dashboard_and).
  - discriminate.
  - discriminate.
  - reflexivity.
  - vm_compute. reflexivity.
  - vm_compute. reflexivity.
Defined.
